(** * cv-parser-gradio: text extraction, extraction client and pipeline driver

    A shallow embedding of [src/cv_parser_gradio/cv_parser.py] and of the
    upload adapter of [gradio_app.py] ([parse_upload] and [run_parse])
    together with the properties of the specification that are settled
    against it, and further properties of the code.

    Conventions of the embedding:
    - a Python [str] is the list of its code points ([pystr]); lone
      surrogates are allowed, as in Python;
    - [bytes] is a list of [Byte.byte];
    - a raised exception is the [Raise] branch of [result];
    - code that touches the file system, the environment or the network
      runs in the monad [IO], which threads a [World];
    - what the interpreter and the third-party packages supply (installed
      packages, their extraction functions, the remote service, the Unicode
      case tables) is a field of [Runtime]; the codecs and the [json] module
      of the standard library are modelled here, after CPython on POSIX;
    - resource limits (memory, recursion depth, disk space) and failures of
      the operating system other than a missing file are not modelled,
      except where the code provides for them: the copy made by
      [parse_upload] may fail as the [Host] says;
    - a path names a file by its text: two texts are two files, links and
      the working directory playing no part. *)

From Stdlib Require Import NArith ZArith List String Ascii Bool Lia Zify.
From Stdlib.Strings Require Import Byte.
From Stdlib Require Import DecimalString.
From stdpp Require Import base option list gmap strings.

Local Open Scope N_scope.

#[local] Set Warnings "-register-all".

(** ** Strings, bytes, exceptions *)

Definition bytes := list byte.
Definition pystr := list N.

(** An ASCII literal of the source as a [pystr]. *)
Definition str_of (s : string) : pystr :=
  map N_of_ascii (list_ascii_of_string s).

(** [sep.join(parts)] *)
Fixpoint join (sep : pystr) (parts : list pystr) : pystr :=
  match parts with
  | [] => []
  | [p] => p
  | p :: rest => p ++ sep ++ join sep rest
  end.

(** [str(n)] for a natural number. *)
Definition decimal (n : nat) : pystr :=
  str_of (NilZero.string_of_uint (Nat.to_uint n)).

Definition NL : pystr := [10].
Definition TAB : pystr := [9].
Definition QUOTE : N := 34.

Inductive exn : Type :=
| ImportError (msg : pystr)
| AttributeError (msg : pystr)
| ValueError (msg : pystr)
| RuntimeError (msg : pystr)
| TypeError (msg : pystr)
| IndexError (msg : pystr)
| FileNotFoundError (path : pystr)
| UnicodeDecodeError (encoding : string)
| UnicodeEncodeError (encoding : string)
| UnicodeError (msg : pystr)
| LookupError (msg : pystr)
| JSONDecodeError (msg : pystr) (doc : pystr) (pos : nat)
| RecursionError
| LibraryError (package : string) (msg : pystr).

Inductive result (A : Type) : Type :=
| Ok (a : A)
| Raise (e : exn).
Arguments Ok {A} a.
Arguments Raise {A} e.

Definition rbind {A B} (r : result A) (k : A -> result B) : result B :=
  match r with
  | Ok a => k a
  | Raise e => Raise e
  end.

Definition rmap {A B} (f : A -> B) (r : result A) : result B :=
  rbind r (fun a => Ok (f a)).

Definition is_Ok {A} (r : result A) : bool :=
  match r with Ok _ => true | Raise _ => false end.

(** ** Codecs

    [bytes.decode] and the decoding done by a text-mode [open], for the
    five encodings that [extract_text] names. *)

Inductive error_handler := Strict | Ignore | Replace.

Definition REPLACEMENT_CHARACTER : N := 0xFFFD.

(** What a decoder does at an undecodable range, [k] being the decoding of
    the input after that range. *)
Definition on_error (encoding : string) (errors : error_handler)
    (k : result pystr) : result pystr :=
  match errors with
  | Strict => Raise (UnicodeDecodeError encoding)
  | Ignore => k
  | Replace => rmap (cons REPLACEMENT_CHARACTER) k
  end.

Definition emit (c : N) (k : result pystr) : result pystr := rmap (cons c) k.

Definition is_continuation (c : N) : bool := (0x80 <=? c) && (c <? 0xC0).

Definition is_surrogate (c : N) : bool := (0xD800 <=? c) && (c <? 0xE000).
Definition is_high_surrogate (c : N) : bool := (0xD800 <=? c) && (c <? 0xDC00).
Definition is_low_surrogate (c : N) : bool := (0xDC00 <=? c) && (c <? 0xE000).

(** Second byte of a three-byte sequence: a continuation byte that makes the
    sequence neither overlong (lead E0) nor a surrogate (lead ED). *)
Definition second_of_3 (c0 c1 : N) : bool :=
  is_continuation c1 &&
  negb ((c0 =? 0xE0) && (c1 <? 0xA0)) &&
  negb ((c0 =? 0xED) && (0xA0 <=? c1)).

(** Second byte of a four-byte sequence: neither overlong (lead F0) nor
    above U+10FFFF (lead F4). *)
Definition second_of_4 (c0 c1 : N) : bool :=
  is_continuation c1 &&
  negb ((c0 =? 0xF0) && (c1 <? 0x90)) &&
  negb ((c0 =? 0xF4) && (0x90 <=? c1)).

(** The UTF-8 decoder. An undecodable range is the lead byte together with
    the continuation bytes that were accepted before the offending byte; at
    an unexpected end of data it extends to the end of the input. *)
Fixpoint utf8_decode (errors : error_handler) (bs : bytes) : result pystr :=
  let bad := on_error "utf-8" errors in
  match bs with
  | [] => Ok []
  | b0 :: r0 =>
    let c0 := Byte.to_N b0 in
    if c0 <? 0x80 then emit c0 (utf8_decode errors r0)
    else if c0 <? 0xC2 then bad (utf8_decode errors r0)
    else if c0 <? 0xE0 then
      match r0 with
      | [] => bad (Ok [])
      | b1 :: r1 =>
        let c1 := Byte.to_N b1 in
        if is_continuation c1
        then emit ((c0 - 0xC0) * 64 + (c1 - 0x80)) (utf8_decode errors r1)
        else bad (utf8_decode errors r0)
      end
    else if c0 <? 0xF0 then
      match r0 with
      | [] => bad (Ok [])
      | b1 :: r1 =>
        let c1 := Byte.to_N b1 in
        if second_of_3 c0 c1 then
          match r1 with
          | [] => bad (Ok [])
          | b2 :: r2 =>
            let c2 := Byte.to_N b2 in
            if is_continuation c2
            then emit ((c0 - 0xE0) * 4096 + (c1 - 0x80) * 64 + (c2 - 0x80))
                      (utf8_decode errors r2)
            else bad (utf8_decode errors r1)
          end
        else bad (utf8_decode errors r0)
      end
    else if c0 <? 0xF5 then
      match r0 with
      | [] => bad (Ok [])
      | b1 :: r1 =>
        let c1 := Byte.to_N b1 in
        if second_of_4 c0 c1 then
          match r1 with
          | [] => bad (Ok [])
          | b2 :: r2 =>
            let c2 := Byte.to_N b2 in
            if is_continuation c2 then
              match r2 with
              | [] => bad (Ok [])
              | b3 :: r3 =>
                let c3 := Byte.to_N b3 in
                if is_continuation c3
                then emit ((c0 - 0xF0) * 262144 + (c1 - 0x80) * 4096
                           + (c2 - 0x80) * 64 + (c3 - 0x80))
                          (utf8_decode errors r3)
                else bad (utf8_decode errors r2)
              end
            else bad (utf8_decode errors r1)
          end
        else bad (utf8_decode errors r0)
      end
    else bad (utf8_decode errors r0)
  end.

Definition byte_of_N (n : N) : byte :=
  match Byte.of_N n with
  | Some b => b
  | None => x00
  end.

(** The UTF-8 encoding of one code point; [None] for a surrogate (and for a
    number that is no code point). *)
Definition utf8_encode_char (c : N) : option bytes :=
  if c <? 0x80 then Some [byte_of_N c]
  else if c <? 0x800 then
    Some [byte_of_N (0xC0 + c / 64); byte_of_N (0x80 + c mod 64)]
  else if c <? 0x10000 then
    if is_surrogate c then None
    else Some [byte_of_N (0xE0 + c / 4096);
               byte_of_N (0x80 + (c / 64) mod 64);
               byte_of_N (0x80 + c mod 64)]
  else if c <? 0x110000 then
    Some [byte_of_N (0xF0 + c / 262144);
          byte_of_N (0x80 + (c / 4096) mod 64);
          byte_of_N (0x80 + (c / 64) mod 64);
          byte_of_N (0x80 + c mod 64)]
  else None.

(** [s.encode(encoding)] with the strict handler, one character at a time. *)
Fixpoint encode_with (encoding : string) (enc : N -> option bytes)
    (s : pystr) : result bytes :=
  match s with
  | [] => Ok []
  | c :: rest =>
    match enc c with
    | None => Raise (UnicodeEncodeError encoding)
    | Some bs => rmap (app bs) (encode_with encoding enc rest)
    end
  end.

Definition utf8_encode : pystr -> result bytes :=
  encode_with "utf-8" utf8_encode_char.

(** Latin-1 (ISO-8859-1): byte [b] is code point [b]. *)
Definition latin1_decode (bs : bytes) : result pystr := Ok (map Byte.to_N bs).

Definition latin1_encode_char (c : N) : option bytes :=
  if c <? 0x100 then Some [byte_of_N c] else None.

Definition latin1_encode : pystr -> result bytes :=
  encode_with "latin-1" latin1_encode_char.

(** Windows-1252: Latin-1 except for 0x80..0x9F, where 27 bytes have their
    own characters and five are undefined. *)
Definition cp1252_high : list (N * N) :=
  [ (0x80, 0x20AC); (0x82, 0x201A); (0x83, 0x0192); (0x84, 0x201E);
    (0x85, 0x2026); (0x86, 0x2020); (0x87, 0x2021); (0x88, 0x02C6);
    (0x89, 0x2030); (0x8A, 0x0160); (0x8B, 0x2039); (0x8C, 0x0152);
    (0x8E, 0x017D); (0x91, 0x2018); (0x92, 0x2019); (0x93, 0x201C);
    (0x94, 0x201D); (0x95, 0x2022); (0x96, 0x2013); (0x97, 0x2014);
    (0x98, 0x02DC); (0x99, 0x2122); (0x9A, 0x0161); (0x9B, 0x203A);
    (0x9C, 0x0153); (0x9E, 0x017E); (0x9F, 0x0178) ].

Definition cp1252_decode_byte (b : N) : option N :=
  if (b <? 0x80) || (0xA0 <=? b) then Some b
  else snd <$> find (fun p => fst p =? b) cp1252_high.

Fixpoint cp1252_decode (bs : bytes) : result pystr :=
  match bs with
  | [] => Ok []
  | b :: rest =>
    match cp1252_decode_byte (Byte.to_N b) with
    | None => Raise (UnicodeDecodeError "cp1252")
    | Some c => emit c (cp1252_decode rest)
    end
  end.

Definition cp1252_encode_char (c : N) : option bytes :=
  if (c <? 0x80) || ((0xA0 <=? c) && (c <? 0x100)) then Some [byte_of_N c]
  else (fun p => [byte_of_N (fst p)]) <$> find (fun p => snd p =? c) cp1252_high.

Definition cp1252_encode : pystr -> result bytes :=
  encode_with "cp1252" cp1252_encode_char.

(** UTF-16. [big] selects the byte order of a code unit. *)
Definition utf16_unit (big : bool) (b0 b1 : byte) : N :=
  if big then Byte.to_N b0 * 256 + Byte.to_N b1
  else Byte.to_N b1 * 256 + Byte.to_N b0.

Fixpoint utf16_decode_units (big : bool) (bs : bytes) : result pystr :=
  let bad := Raise (UnicodeDecodeError "utf-16") in
  match bs with
  | [] => Ok []
  | [_] => bad
  | b0 :: b1 :: rest =>
    let u := utf16_unit big b0 b1 in
    if is_low_surrogate u then bad
    else if is_high_surrogate u then
      match rest with
      | b2 :: b3 :: rest' =>
        let u' := utf16_unit big b2 b3 in
        if is_low_surrogate u'
        then emit (0x10000 + (u - 0xD800) * 1024 + (u' - 0xDC00))
                  (utf16_decode_units big rest')
        else bad
      | _ => bad
      end
    else emit u (utf16_decode_units big rest)
  end.

(** The "utf-16" codec as a text-mode file uses it: the byte order comes
    from the byte-order mark, and a stream that decodes without one is
    refused with a plain [UnicodeError]. *)
Definition utf16_decode (bs : bytes) : result pystr :=
  match bs with
  | [] => Ok []
  | xff :: xfe :: rest => utf16_decode_units false rest
  | xfe :: xff :: rest => utf16_decode_units true rest
  | _ =>
    rbind (utf16_decode_units false bs) (fun _ =>
      Raise (UnicodeError (str_of "UTF-16 stream does not start with BOM")))
  end.

(** [s.encode("utf-16")]: a byte-order mark, then little-endian code
    units. *)
Definition utf16_encode_char (c : N) : option bytes :=
  if is_surrogate c then None
  else if c <? 0x10000 then Some [byte_of_N (c mod 256); byte_of_N (c / 256)]
  else if c <? 0x110000 then
    let hi := 0xD800 + (c - 0x10000) / 1024 in
    let lo := 0xDC00 + (c - 0x10000) mod 1024 in
    Some [byte_of_N (hi mod 256); byte_of_N (hi / 256);
          byte_of_N (lo mod 256); byte_of_N (lo / 256)]
  else None.

Definition utf16_encode (s : pystr) : result bytes :=
  rmap (app [xff; xfe]) (encode_with "utf-16" utf16_encode_char s).

Record Codec := {
  decode : bytes -> result pystr;
  encode : pystr -> result bytes
}.

(** [codecs.lookup]: "latin-1" and "iso-8859-1" name the same codec. *)
Definition codecs_lookup (encoding : string) : option Codec :=
  if String.eqb encoding "utf-8" then
    Some {| decode := utf8_decode Strict; encode := utf8_encode |}
  else if String.eqb encoding "latin-1" || String.eqb encoding "iso-8859-1" then
    Some {| decode := latin1_decode; encode := latin1_encode |}
  else if String.eqb encoding "cp1252" then
    Some {| decode := cp1252_decode; encode := cp1252_encode |}
  else if String.eqb encoding "utf-16" then
    Some {| decode := utf16_decode; encode := utf16_encode |}
  else None.

(** Universal newlines of a text-mode read: CR LF and a lone CR become LF. *)
Fixpoint translate_newlines (s : pystr) : pystr :=
  match s with
  | [] => []
  | c :: rest =>
    if c =? 13 then
      10 :: match rest with
            | [] => []
            | c' :: rest' =>
              if c' =? 10 then translate_newlines rest'
              else translate_newlines rest
            end
    else c :: translate_newlines rest
  end.

(** ** JSON values and the extraction schema *)

(** What [json.loads] returns: [None], a [bool], a number, a [str], a
    [list] or a [dict]. A [dict] keeps its members in insertion order, with
    distinct keys ([dict_keys_distinct] below). Numbers are not computed
    with: a number is kept as its literal. *)
Inductive json : Type :=
| JNull
| JBool (b : bool)
| JNum (text : pystr)
| JStr (s : pystr)
| JArr (items : list json)
| JObj (members : list (pystr * json)).

(** The fragment of JSON Schema that the schema literal of
    [llm_extract_resume] is written in. *)
Inductive json_schema : Type :=
| SType (types : list string)
| SArray (items : json_schema) (minItems : nat)
| SObject (additionalProperties : bool)
          (properties : list (string * json_schema))
          (required : list string).

Definition string_t : json_schema := SType ["string"%string].
Definition string_or_null : json_schema := SType ["string"; "null"]%string.
Definition string_array : json_schema := SArray string_t 0.

(** The [schema] literal of [llm_extract_resume]. *)
Definition resume_schema : json_schema :=
  SObject false
    [ ("name", string_t);
      ("email", string_or_null);
      ("phone", string_or_null);
      ("linkedin", string_or_null);
      ("summary", string_or_null);
      ("skills", string_array);
      ("experience",
        SArray
          (SObject false
             [ ("position", string_t);
               ("company", string_or_null);
               ("duration", string_or_null);
               ("description", string_array) ]%string
             [ "position"; "company"; "duration"; "description" ]%string)
          0);
      ("education",
        SArray
          (SObject false
             [ ("degree", string_or_null);
               ("institution", string_or_null);
               ("year", string_or_null);
               ("field", string_or_null) ]%string
             [ "degree"; "institution"; "year"; "field" ]%string)
          0);
      ("certificates", string_array);
      ("languages", string_array);
      ("detected_language", string_t) ]%string
    [ "name"; "email"; "phone"; "linkedin"; "summary"; "skills";
      "experience"; "education"; "certificates"; "languages";
      "detected_language" ]%string.

(** ** The world: file system, environment, observable calls *)

Record message := {
  msg_role : string;
  msg_content : pystr
}.

(** The arguments of [client.chat.completions.create]. *)
Record request := {
  req_model : string;
  req_messages : list message;
  req_format_type : string;
  req_schema_name : string;
  req_schema : json_schema;
  req_strict : bool;
  req_temperature : N
}.

Record choice := { message_content : option pystr }.
Record completion := { choices : list choice }.

Inductive event : Type :=
| EvOpen (path : pystr) (mode : string) (encoding : option string)
| EvRequest (r : request).

Record World := {
  fs : gmap pystr bytes;
  environ : gmap string pystr;
  trace : list event
}.

Definition log (e : event) (w : World) : World :=
  {| fs := fs w; environ := environ w; trace := trace w ++ [e] |}.

Definition set_file (path : pystr) (data : bytes) (w : World) : World :=
  {| fs := <[path := data]> (fs w); environ := environ w; trace := trace w |}.

Definition is_request (e : event) : bool :=
  match e with EvRequest _ => true | _ => false end.

(** The number of requests sent to the remote service so far. *)
Definition network_calls (w : World) : nat :=
  length (filter (fun e => is_request e = true) (trace w)).

Definition IO (A : Type) : Type := World -> result A * World.

Definition ret {A} (a : A) : IO A := fun w => (Ok a, w).
Definition raise {A} (e : exn) : IO A := fun w => (Raise e, w).
Definition lift {A} (r : result A) : IO A := fun w => (r, w).

Definition bind {A B} (m : IO A) (k : A -> IO B) : IO B :=
  fun w =>
    match m w with
    | (Ok a, w') => k a w'
    | (Raise e, w') => (Raise e, w')
    end.

Notation "x <~ m ;; k" := (bind m (fun x => k))
  (at level 100, m at next level, k at level 200, right associativity).

(** [try: m  except E: handler], [handles] telling the exceptions of class
    [E]. *)
Definition try_except {A} (m : IO A) (handles : exn -> bool)
    (handler : IO A) : IO A :=
  fun w =>
    match m w with
    | (Ok a, w') => (Ok a, w')
    | (Raise e, w') => if handles e then handler w' else (Raise e, w')
    end.

Definition is_ImportError (e : exn) : bool :=
  match e with ImportError _ => true | _ => false end.

Definition is_UnicodeDecodeError (e : exn) : bool :=
  match e with UnicodeDecodeError _ => true | _ => false end.

(** [with open(path, "rb") as f: f.read()] *)
Definition open_read_binary (path : pystr) : IO bytes :=
  fun w =>
    let w' := log (EvOpen path "rb" None) w in
    match fs w !! path with
    | None => (Raise (FileNotFoundError path), w')
    | Some data => (Ok data, w')
    end.

(** [with open(path, "r", encoding=enc) as f: f.read()] *)
Definition open_read_text (path : pystr) (enc : string) : IO pystr :=
  fun w =>
    let w' := log (EvOpen path "r" (Some enc)) w in
    match fs w !! path with
    | None => (Raise (FileNotFoundError path), w')
    | Some data =>
      match codecs_lookup enc with
      | None => (Raise (LookupError (str_of "unknown encoding")), w')
      | Some codec => (rmap translate_newlines (decode codec data), w')
      end
    end.

(** [f.write(chunk)] for each chunk in turn, [f] being a text file with
    the strict error handler: the bytes of the chunks written before one
    that cannot be encoded stay in the file. *)
Fixpoint write_chunks (codec : Codec) (chunks : list pystr)
    (written : bytes) : result unit * bytes :=
  match chunks with
  | [] => (Ok tt, written)
  | chunk :: rest =>
    match encode codec chunk with
    | Raise e => (Raise e, written)
    | Ok bs => write_chunks codec rest (written ++ bs)
    end
  end.

(** [with open(path, "w", encoding=enc) as f: for chunk in chunks:
    f.write(chunk)]. Opening truncates the file. *)
Definition open_write_text (path : pystr) (enc : string)
    (chunks : list pystr) : IO unit :=
  fun w =>
    let w' := log (EvOpen path "w" (Some enc)) w in
    match codecs_lookup enc with
    | None => (Raise (LookupError (str_of "unknown encoding")), w')
    | Some codec =>
      let (r, data) := write_chunks codec chunks [] in
      (r, set_file path data w')
    end.

(** [os.environ.get(name)] *)
Definition os_environ_get (name : string) : IO (option pystr) :=
  fun w => (Ok (environ w !! name), w).

(** ** The runtime: optional packages and the remote service *)

Record docx_document := {
  paragraphs : list pystr;
  tables : list (list (list pystr))
}.

Record Runtime := {
  (** [fitz.open(path)], as the texts of the pages *)
  fitz : option (pystr -> option bytes -> result (list pystr));
  (** [PdfReader(f).pages], as the [extract_text()] of each page *)
  PyPDF2 : option (bytes -> result (list (option pystr)));
  (** [docx.Document(path)]: paragraph texts, and cell texts by table
      and row *)
  docx : option (pystr -> option bytes -> result docx_document);
  (** [textract.process(path)] *)
  textract : option (pystr -> option bytes -> result bytes);
  (** [OpenAI(api_key=...).chat.completions.create]: what the call
      returns or raises in the end *)
  OpenAI : option (pystr -> request -> result completion);
  (** how many times the service gives the client a reason to send the
      request again (a connection error, a timeout, or a status 408, 409,
      429 or 500 and above) before [create] returns or raises *)
  resends : pystr -> request -> nat;
  (** whether [importlib.util] has been imported by the time
      [extract_text] runs: [import importlib], all that [cv_parser.py]
      does, leaves the submodule unloaded *)
  importlib_util : bool;
  (** the nested lists and dicts that [json.loads] can enter before the
      recursion limit of the interpreter is reached *)
  recursion_allowance : nat;
  (** [float(literal)], as the text that [json.dump] writes for it *)
  float_repr : pystr -> pystr;
  (** [str.lower] on strings that are not pure ASCII *)
  unicode_lower : pystr -> pystr
}.

(** A package function that opens the document at [path] itself. *)
Definition library_open {A} (f : pystr -> option bytes -> result A)
    (path : pystr) : IO A :=
  fun w => (f path (fs w !! path), w).

(** [max_retries] of a client that is built without it. *)
Definition DEFAULT_MAX_RETRIES : nat := 2.

(** [client.chat.completions.create(...)]: the request is sent, and sent
    again as often as the service gives reason to, [max_retries] times at
    most. *)
Definition chat_completions_create
    (client : request -> result completion) (max_retries resent : nat)
    (r : request) : IO completion :=
  fun w =>
    (client r, Nat.iter (S (Nat.min resent max_retries)) (log (EvRequest r)) w).

(** ** Paths and string helpers *)

(** [s.split(sep)] for a one-character separator. *)
Fixpoint split_on (sep : N) (s : pystr) : list pystr :=
  match s with
  | [] => [[]]
  | c :: rest =>
    if c =? sep then [] :: split_on sep rest
    else
      match split_on sep rest with
      | [] => [[c]]
      | p :: ps => (c :: p) :: ps
      end
  end.

(** [Path(p).name] on POSIX: the last component, empty components and "."
    being dropped. *)
Definition path_name (p : pystr) : pystr :=
  let parts :=
    filter (fun c => c <> [] /\ c <> str_of ".") (split_on 47 p) in
  List.last parts [].

(** [s.rfind(c)], [None] standing for -1. *)
Fixpoint rfind (c : N) (s : pystr) : option nat :=
  match s with
  | [] => None
  | x :: rest =>
    match rfind c rest with
    | Some i => Some (S i)
    | None => if x =? c then Some O else None
    end
  end.

(** [Path(p).suffix]: the name from its last dot on, when that dot is
    neither the first nor the last character of the name (pathlib before
    Python 3.14, where a trailing dot became a suffix of its own; such a
    suffix is unsupported either way). *)
Definition suffix (file_path : pystr) : pystr :=
  let name := path_name file_path in
  match rfind 46 name with
  | Some i =>
    if (0 <? i)%nat && (i <? length name - 1)%nat then drop i name else []
  | None => []
  end.

Definition is_ascii (c : N) : bool := c <? 0x80.

Definition ascii_lower (c : N) : N :=
  if (0x41 <=? c) && (c <=? 0x5A) then c + 32 else c.

(** [s.lower()] *)
Definition py_lower (rt : Runtime) (s : pystr) : pystr :=
  if forallb is_ascii s then map ascii_lower s else unicode_lower rt s.

(** [c.isspace()] *)
Definition py_isspace (c : N) : bool :=
  ((0x09 <=? c) && (c <=? 0x0D)) || ((0x1C <=? c) && (c <=? 0x20))
  || (c =? 0x85) || (c =? 0xA0) || (c =? 0x1680)
  || ((0x2000 <=? c) && (c <=? 0x200A))
  || (c =? 0x2028) || (c =? 0x2029) || (c =? 0x202F) || (c =? 0x205F)
  || (c =? 0x3000).

Fixpoint lstrip (s : pystr) : pystr :=
  match s with
  | [] => []
  | c :: rest => if py_isspace c then lstrip rest else s
  end.

Definition rstrip (s : pystr) : pystr := rev (lstrip (rev s)).

(** [s.strip()] *)
Definition strip (s : pystr) : pystr := rstrip (lstrip s).

(** Truth value of a [str]. *)
Definition truthy (s : pystr) : bool :=
  match s with [] => false | _ => true end.

(** ** Text extraction *)

(** [importlib.util.find_spec(module)] is an attribute lookup on the
    package [importlib] first. *)
Definition _import_or_raise {A} (rt : Runtime) (module : option A)
    (install_hint : pystr) : IO A :=
  if importlib_util rt then
    match module with
    | None => raise (ImportError install_hint)
    | Some m => ret m
    end
  else
    raise (AttributeError (str_of "module 'importlib' has no attribute 'util'")).

(** [import m]: [ImportError] when the package is not installed. *)
Definition import {A} (name : string) (module : option A) : IO A :=
  match module with
  | None => raise (ImportError (str_of "No module named " ++ str_of name))
  | Some m => ret m
  end.

Definition txt_encodings : list string :=
  ["utf-8"; "latin-1"; "cp1252"; "iso-8859-1"; "utf-16"]%string.

(** The [for enc in ...] loop of the ".txt" branch, [otherwise] being the
    code after the loop. *)
Fixpoint try_encodings (encs : list string) (file_path : pystr)
    (otherwise : IO pystr) : IO pystr :=
  match encs with
  | [] => otherwise
  | enc :: rest =>
    try_except (open_read_text file_path enc) is_UnicodeDecodeError
      (try_encodings rest file_path otherwise)
  end.

(** The two [for] loops of the ".docx" branch, appending to [text]. *)
Definition append_row (text : pystr) (row : list pystr) : pystr :=
  text ++ NL ++ join TAB row.

Definition append_table (text : pystr) (table : list (list pystr)) : pystr :=
  fold_left append_row table text.

Definition docx_text (doc : docx_document) : pystr :=
  let text := join NL (paragraphs doc) in
  fold_left append_table (tables doc) text.

Definition unsupported_message (ext : pystr) : pystr :=
  str_of "Unsupported file type: " ++ ext
  ++ str_of " (supported: .pdf, .docx, .doc, .txt)".

Definition extract_pdf (rt : Runtime) (file_path : pystr) : IO pystr :=
  try_except
    (fitz_open <~ import "fitz" (fitz rt) ;;
     doc <~ library_open fitz_open file_path ;;
     ret (concat doc))
    is_ImportError
    (try_except
       (PdfReader <~ import "PyPDF2" (PyPDF2 rt) ;;
        f <~ open_read_binary file_path ;;
        pages <~ lift (PdfReader f) ;;
        ret (concat (map (default []) pages)))
       is_ImportError
       (raise (ImportError (str_of
          "Install a PDF library: pip install pymupdf or pip install PyPDF2")))).

Definition extract_docx (rt : Runtime) (file_path : pystr) : IO pystr :=
  Document <~ _import_or_raise rt (docx rt)
    (str_of "Install: pip install python-docx to parse DOCX files.") ;;
  doc <~ library_open Document file_path ;;
  ret (docx_text doc).

Definition extract_doc (rt : Runtime) (file_path : pystr) : IO pystr :=
  process <~ _import_or_raise rt (textract rt)
    (str_of "Install: pip install textract to parse legacy .doc files.") ;;
  out <~ library_open process file_path ;;
  lift (utf8_decode Ignore out).

(** The code of the ".txt" branch after the loop. *)
Definition txt_fallback (file_path : pystr) : IO pystr :=
  data <~ open_read_binary file_path ;;
  lift (utf8_decode Ignore data).

Definition extract_txt (file_path : pystr) : IO pystr :=
  try_encodings txt_encodings file_path (txt_fallback file_path).

Definition extract_text (rt : Runtime) (file_path : pystr) : IO pystr :=
  let ext := py_lower rt (suffix file_path) in
  if bool_decide (ext = str_of ".pdf") then extract_pdf rt file_path
  else if bool_decide (ext = str_of ".docx") then extract_docx rt file_path
  else if bool_decide (ext = str_of ".doc") then extract_doc rt file_path
  else if bool_decide (ext = str_of ".txt") then extract_txt file_path
  else raise (ValueError (unsupported_message ext)).

(** ** The [json] module: encoder

    [json.dump(obj, f, indent=2, ensure_ascii=False)] writes the chunks of
    [JSONEncoder.iterencode] to [f] one by one. *)

Definition hex_digit (n : N) : N :=
  if n <? 10 then 48 + n else 87 + n.

(** The replacement of one character inside a string literal, [None] when
    the character is written as it is. *)
Definition escape_char (c : N) : option pystr :=
  if c =? 34 then Some [92; 34]
  else if c =? 92 then Some [92; 92]
  else if c =? 10 then Some [92; 110]
  else if c =? 13 then Some [92; 114]
  else if c =? 9 then Some [92; 116]
  else if c =? 8 then Some [92; 98]
  else if c =? 12 then Some [92; 102]
  else if c <? 0x20 then
    Some [92; 117; 48; 48; hex_digit (c / 16); hex_digit (c mod 16)]
  else None.

Fixpoint escape_body (s : pystr) : pystr :=
  match s with
  | [] => []
  | c :: rest =>
    match escape_char c with
    | Some e => e ++ escape_body rest
    | None => c :: escape_body rest
    end
  end.

(** [encode_basestring]: the string literal, non-ASCII characters kept. *)
Definition encode_basestring (s : pystr) : pystr :=
  QUOTE :: escape_body s ++ [QUOTE].

Definition is_container (o : json) : bool :=
  match o with
  | JArr _ | JObj _ => true
  | _ => false
  end.

(** The text of a value that is neither a list nor a dict. *)
Definition atom_text (o : json) : pystr :=
  match o with
  | JNull => str_of "null"
  | JBool true => str_of "true"
  | JBool false => str_of "false"
  | JNum literal => literal
  | JStr s => encode_basestring s
  | _ => []
  end.

(** [_indent * level], [_indent] being two spaces. *)
Fixpoint indent (level : nat) : pystr :=
  match level with
  | O => []
  | S l => 32 :: 32 :: indent l
  end.

Definition newline_indent (level : nat) : pystr := NL ++ indent level.

Section iterencode_loops.
Variable encode_value : json -> list pystr.

(** The loop of [_iterencode_list]; [buf] is what precedes the next
    item. *)
Fixpoint iterencode_items (lst : list json) (buf separator : pystr)
    : list pystr :=
  match lst with
  | [] => []
  | value :: rest =>
    (if is_container value then buf :: encode_value value
     else [buf ++ atom_text value])
    ++ iterencode_items rest separator separator
  end.

(** The loop of [_iterencode_dict]. *)
Fixpoint iterencode_members (dct : list (pystr * json)) (first : bool)
    (item_separator : pystr) : list pystr :=
  match dct with
  | [] => []
  | (key, value) :: rest =>
    (if first then [] else [item_separator])
    ++ [encode_basestring key; str_of ": "]
    ++ (if is_container value then encode_value value
        else [atom_text value])
    ++ iterencode_members rest false item_separator
  end.
End iterencode_loops.

Fixpoint iterencode (o : json) (level : nat) : list pystr :=
  match o with
  | JArr lst =>
    match lst with
    | [] => [str_of "[]"]
    | _ =>
      iterencode_items (fun v => iterencode v (S level)) lst
        (str_of "[" ++ newline_indent (S level))
        (str_of "," ++ newline_indent (S level))
      ++ [newline_indent level; str_of "]"]
    end
  | JObj dct =>
    match dct with
    | [] => [str_of "{}"]
    | _ =>
      [str_of "{"; newline_indent (S level)]
      ++ iterencode_members (fun v => iterencode v (S level)) dct true
           (str_of "," ++ newline_indent (S level))
      ++ [newline_indent level; str_of "}"]
    end
  | atom => [atom_text atom]
  end.

(** [json.dumps(obj, indent=2, ensure_ascii=False)] *)
Definition json_dumps (o : json) : pystr := concat (iterencode o 0).

(** ** The [json] module: decoder *)

(** The outcome of scanning: a value and the input after it, a
    [JSONDecodeError] with the input left at the position it reports,
    another exception, or the end of the fuel. *)
Inductive scan (A : Type) : Type :=
| Scanned (a : A) (rest : pystr)
| Fail (msg : pystr) (at_input : pystr)
| Error (e : exn)
| OutOfFuel.
Arguments Scanned {A} a rest.
Arguments Fail {A} msg at_input.
Arguments Error {A} e.
Arguments OutOfFuel {A}.

Definition smap {A B} (f : A -> B) (r : scan A) : scan B :=
  match r with
  | Scanned a rest => Scanned (f a) rest
  | Fail msg at_input => Fail msg at_input
  | Error e => Error e
  | OutOfFuel => OutOfFuel
  end.

Definition is_ws (c : N) : bool :=
  (c =? 32) || (c =? 9) || (c =? 10) || (c =? 13).

(** [WHITESPACE.match(s, end).end()] *)
Fixpoint skip_ws (s : pystr) : pystr :=
  match s with
  | [] => []
  | c :: rest => if is_ws c then skip_ws rest else s
  end.

Fixpoint starts_with (prefix s : pystr) : bool :=
  match prefix, s with
  | [], _ => true
  | p :: prefix', c :: s' => (p =? c) && starts_with prefix' s'
  | _ :: _, [] => false
  end.

Definition hex_value (c : N) : option N :=
  if (48 <=? c) && (c <=? 57) then Some (c - 48)
  else if (97 <=? c) && (c <=? 102) then Some (c - 87)
  else if (65 <=? c) && (c <=? 70) then Some (c - 55)
  else None.

Definition hex4 (h1 h2 h3 h4 : N) : option N :=
  match hex_value h1, hex_value h2, hex_value h3, hex_value h4 with
  | Some a, Some b, Some c, Some d => Some (a * 4096 + b * 256 + c * 16 + d)
  | _, _, _, _ => None
  end.

(** The [BACKSLASH] table. *)
Definition backslash (esc : N) : option N :=
  if esc =? 34 then Some 34
  else if esc =? 92 then Some 92
  else if esc =? 47 then Some 47
  else if esc =? 98 then Some 8
  else if esc =? 102 then Some 12
  else if esc =? 110 then Some 10
  else if esc =? 114 then Some 13
  else if esc =? 116 then Some 9
  else None.

Definition unterminated_string : pystr :=
  str_of "Unterminated string starting at".
Definition invalid_uXXXX : pystr := str_of "Invalid \uXXXX escape".
Definition invalid_escape : pystr := str_of "Invalid \escape".
Definition invalid_control : pystr := str_of "Invalid control character at".
Definition expecting_value : pystr := str_of "Expecting value".
Definition expecting_name : pystr :=
  str_of "Expecting property name enclosed in double quotes".
Definition expecting_colon : pystr := str_of "Expecting ':' delimiter".
Definition expecting_comma : pystr := str_of "Expecting ',' delimiter".

(** [scanstring] (the C scanner), strict: [s] is the input after the
    opening quote, which is where [begin] starts. An escape [\uXXXX] is
    read only when a character follows its four digits, and paired with a
    second escape only when a character follows that one too; a bad escape
    of this kind is reported at its [u], another bad escape at its
    backslash. *)
Fixpoint scanstring (s : pystr) (begin : pystr) : scan pystr :=
  match s with
  | [] => Fail unterminated_string begin
  | c :: r =>
    if c =? 34 then Scanned [] r
    else if c =? 92 then
      match r with
      | [] => Fail unterminated_string begin
      | esc :: r1 =>
        if esc =? 117 then
          match r1 with
          | h1 :: h2 :: h3 :: h4 :: ((_ :: _) as r2) =>
            match hex4 h1 h2 h3 h4 with
            | None => Fail invalid_uXXXX r
            | Some uni =>
              let lone := smap (cons uni) (scanstring r2 begin) in
              if is_high_surrogate uni then
                match r2 with
                | b :: ((u :: g1 :: g2 :: g3 :: g4 :: ((_ :: _) as r3))
                        as second) =>
                  if (b =? 92) && (u =? 117) then
                    match hex4 g1 g2 g3 g4 with
                    | None => Fail invalid_uXXXX second
                    | Some uni2 =>
                      if is_low_surrogate uni2
                      then smap (cons (0x10000 + (uni - 0xD800) * 1024
                                       + (uni2 - 0xDC00)))
                                (scanstring r3 begin)
                      else lone
                    end
                  else lone
                | _ => lone
                end
              else lone
            end
          | _ => Fail invalid_uXXXX r
          end
        else
          match backslash esc with
          | Some ch => smap (cons ch) (scanstring r1 begin)
          | None => Fail invalid_escape s
          end
      end
    else if c <? 0x20 then Fail invalid_control s
    else smap (cons c) (scanstring r begin)
  end.

Definition is_digit (c : N) : bool := (48 <=? c) && (c <=? 57).

Fixpoint span_digits (s : pystr) : pystr * pystr :=
  match s with
  | [] => ([], [])
  | c :: rest =>
    if is_digit c
    then let (ds, r) := span_digits rest in (c :: ds, r)
    else ([], s)
  end.

(** A sign or a point or an exponent mark, then at least one digit. *)
Definition digits1 (s : pystr) : option (pystr * pystr) :=
  match span_digits s with
  | ([], _) => None
  | (ds, r) => Some (ds, r)
  end.

(** The parts of [NUMBER_RE]: an optional minus sign, the integer part,
    an optional fraction and an optional exponent. Each returns what it
    matched and the input after it. *)
Definition number_sign (s : pystr) : pystr * pystr :=
  match s with
  | c :: r => if c =? 45 then ([45], r) else ([], s)
  | [] => ([], s)
  end.

Definition number_integer (s : pystr) : option (pystr * pystr) :=
  match s with
  | c :: r =>
    if c =? 48 then Some ([48], r)
    else if is_digit c then
      let (ds, r') := span_digits r in Some (c :: ds, r')
    else None
  | [] => None
  end.

Definition number_fraction (s : pystr) : pystr * pystr :=
  match s with
  | c :: r =>
    if c =? 46 then
      match digits1 r with
      | Some (ds, r') => (46 :: ds, r')
      | None => ([], s)
      end
    else ([], s)
  | [] => ([], s)
  end.

Definition number_exponent (s : pystr) : pystr * pystr :=
  match s with
  | e :: r =>
    if (e =? 101) || (e =? 69) then
      let (esign, r1) :=
        match r with
        | c :: r' => if (c =? 45) || (c =? 43) then ([c], r') else ([], r)
        | [] => ([], r)
        end in
      match digits1 r1 with
      | Some (ds, r') => (e :: esign ++ ds, r')
      | None => ([], s)
      end
    else ([], s)
  | [] => ([], s)
  end.

(** [NUMBER_RE.match]: the groups [integer], [frac] and [exp] of the
    number at the start of [s], and the input after it. *)
Definition match_number (s : pystr) : option (pystr * pystr * pystr * pystr) :=
  let (sign, s1) := number_sign s in
  match number_integer s1 with
  | None => None
  | Some (int_part, s2) =>
    let (frac, s3) := number_fraction s2 in
    let (exp, s4) := number_exponent s3 in
    Some (sign ++ int_part, frac, exp, s4)
  end.

(** [sys.get_int_max_str_digits()], as CPython starts with. *)
Definition int_max_str_digits : nat := 4300.

Definition int_limit_message (digits : nat) : pystr :=
  str_of "Exceeds the limit (4300 digits) for integer string conversion: value has "
  ++ decimal digits
  ++ str_of " digits; use sys.set_int_max_str_digits() to increase the limit".

(** [int(integer)] for a match of the group [integer], the number being
    kept as the text that [json.dump] writes for it; [limit] is the
    greatest number of digits converted, if there is one. *)
Definition py_int (limit : option nat) (integer : pystr) : result pystr :=
  let (_, digits) := number_sign integer in
  let over :=
    match limit with
    | Some most => (most <? length digits)%nat
    | None => false
    end in
  if over then Raise (ValueError (int_limit_message (length digits)))
  else if bool_decide (digits = [48]) then Ok [48]
  else Ok integer.

(** What [JSONDecoder] is built with, and the limit that [int] is under. *)
Record JSONDecoder := {
  (** whether the names NaN, Infinity and -Infinity are read as numbers *)
  parse_constant : bool;
  (** [float(literal)], as the text that [json.dump] writes for it *)
  parse_float : pystr -> pystr;
  max_str_digits : option nat
}.

(** The character index in [doc] at which [at_input] starts. *)
Definition position (doc at_input : pystr) : nat :=
  (length doc - length at_input)%nat.

(** [d[key] = value] on a dict kept as its ordered list of members. *)
Fixpoint dict_setitem (d : list (pystr * json)) (key : pystr) (value : json)
    : list (pystr * json) :=
  match d with
  | [] => [(key, value)]
  | (k, v) :: rest =>
    if bool_decide (k = key) then (k, value) :: rest
    else (k, v) :: dict_setitem rest key value
  end.

(** The literal [name] at the start of [s]. *)
Definition literal (name : string) (value : json) (s : pystr)
    : option (scan json) :=
  if starts_with (str_of name) s
  then Some (Scanned value (drop (String.length name) s))
  else None.

Section scanner.
Variable decoder : JSONDecoder.

(** The number matched as [integer], [frac] and [exp]. *)
Definition number (integer frac exp rest : pystr) : scan json :=
  match frac, exp with
  | [], [] =>
    match py_int (max_str_digits decoder) integer with
    | Ok text => Scanned (JNum text) rest
    | Raise e => Error e
    end
  | _, _ => Scanned (JNum (parse_float decoder (integer ++ frac ++ exp))) rest
  end.

(** [scan_once] (the C scanner), with the loops of [JSONObject] and
    [JSONArray]. [depth] is the number of nested lists and dicts that may
    still be entered: entering one when none is left raises
    [RecursionError]. The fuel bounds the number of calls in the model;
    [json_loads] supplies more than the input can use. *)
Fixpoint scan_once (fuel depth : nat) (s : pystr) {struct fuel} : scan json :=
  match fuel with
  | O => OutOfFuel
  | S fuel' =>
    match s with
    | [] => Fail expecting_value s
    | nextchar :: r =>
      if nextchar =? 34 then smap JStr (scanstring r s)
      else if nextchar =? 123 then
        match depth with
        | O => Error RecursionError
        | S depth' =>
          let r1 := skip_ws r in
          match r1 with
          | c :: r2 =>
            if c =? 125 then Scanned (JObj []) r2
            else if c =? 34 then object_members fuel' depth' r2 r1 []
            else Fail expecting_name r1
          | [] => Fail expecting_name r1
          end
        end
      else if nextchar =? 91 then
        match depth with
        | O => Error RecursionError
        | S depth' =>
          let r1 := skip_ws r in
          match r1 with
          | c :: r2 =>
            if c =? 93 then Scanned (JArr []) r2
            else array_items fuel' depth' r1 []
          | [] => array_items fuel' depth' r1 []
          end
        end
      else
        match literal "null" JNull s, literal "true" (JBool true) s,
              literal "false" (JBool false) s with
        | Some r, _, _ | None, Some r, _ | None, None, Some r => r
        | None, None, None =>
          match match_number s with
          | Some (integer, frac, exp, r') => number integer frac exp r'
          | None =>
            if parse_constant decoder then
              match literal "NaN" (JNum (str_of "NaN")) s,
                    literal "Infinity" (JNum (str_of "Infinity")) s,
                    literal "-Infinity" (JNum (str_of "-Infinity")) s with
              | Some r, _, _ | None, Some r, _ | None, None, Some r => r
              | None, None, None => Fail expecting_value s
              end
            else Fail expecting_value s
          end
        end
    end
  end

(** [s] is the input after the opening quote of a key, at [begin]. *)
with object_members (fuel depth : nat) (s begin : pystr)
    (pairs : list (pystr * json)) {struct fuel} : scan json :=
  match fuel with
  | O => OutOfFuel
  | S fuel' =>
    match scanstring s begin with
    | Fail msg at_input => Fail msg at_input
    | Error e => Error e
    | OutOfFuel => OutOfFuel
    | Scanned key r =>
      let r1 := skip_ws r in
      match r1 with
      | [] => Fail expecting_colon r1
      | c :: r2 =>
        if c =? 58 then
          match scan_once fuel' depth (skip_ws r2) with
          | Fail msg at_input => Fail msg at_input
          | Error e => Error e
          | OutOfFuel => OutOfFuel
          | Scanned value r4 =>
            let pairs' := dict_setitem pairs key value in
            let r5 := skip_ws r4 in
            match r5 with
            | [] => Fail expecting_comma r5
            | d :: r6 =>
              if d =? 125 then Scanned (JObj pairs') r6
              else if d =? 44 then
                let r7 := skip_ws r6 in
                match r7 with
                | [] => Fail expecting_name r7
                | q :: r8 =>
                  if q =? 34 then object_members fuel' depth r8 r7 pairs'
                  else Fail expecting_name r7
                end
              else Fail expecting_comma r5
            end
          end
        else Fail expecting_colon r1
      end
    end
  end

(** [s] is the input at the next item; [values] are the items so far. *)
with array_items (fuel depth : nat) (s : pystr) (values : list json)
    {struct fuel} : scan json :=
  match fuel with
  | O => OutOfFuel
  | S fuel' =>
    match scan_once fuel' depth s with
    | Fail msg at_input => Fail msg at_input
    | Error e => Error e
    | OutOfFuel => OutOfFuel
    | Scanned value r =>
      let values' := values ++ [value] in
      let r1 := skip_ws r in
      match r1 with
      | [] => Fail expecting_comma r1
      | c :: r2 =>
        if c =? 93 then Scanned (JArr values') r2
        else if c =? 44 then array_items fuel' depth (skip_ws r2) values'
        else Fail expecting_comma r1
      end
    end
  end.

(** [JSONDecoder.decode] after the check that [json.loads] makes. *)
Definition JSONDecoder_decode (depth : nat) (s : pystr) : result json :=
  if starts_with [0xFEFF] s then
    Raise (JSONDecodeError
             (str_of "Unexpected UTF-8 BOM (decode using utf-8-sig)") s 0)
  else
    match scan_once (S (2 * length s)) depth (skip_ws s) with
    | Scanned obj rest =>
      match skip_ws rest with
      | [] => Ok obj
      | extra => Raise (JSONDecodeError (str_of "Extra data") s
                          (position s extra))
      end
    | Fail msg at_input => Raise (JSONDecodeError msg s (position s at_input))
    | Error e => Raise e
    | OutOfFuel => Raise RecursionError
    end.

End scanner.

(** The decoder that [json.loads] uses when it is given the text only. *)
Definition default_decoder (rt : Runtime) : JSONDecoder :=
  {| parse_constant := true;
     parse_float := float_repr rt;
     max_str_digits := Some int_max_str_digits |}.

(** [json.loads(s)] for a [str]. *)
Definition json_loads (rt : Runtime) (s : pystr) : result json :=
  JSONDecoder_decode (default_decoder rt) (recursion_allowance rt) s.

(** ** Schema validity *)

Definition has_type (t : string) (v : json) : bool :=
  match v with
  | JNull => String.eqb t "null"
  | JBool _ => String.eqb t "boolean"
  | JNum _ => String.eqb t "number"
  | JStr _ => String.eqb t "string"
  | JArr _ => String.eqb t "array"
  | JObj _ => String.eqb t "object"
  end.

Definition has_key (key : string) (members : list (pystr * json)) : bool :=
  existsb (fun kv => bool_decide (fst kv = str_of key)) members.

(** [validate sch v]: [v] conforms to [sch]. *)
Fixpoint validate (sch : json_schema) (v : json) : bool :=
  match sch with
  | SType types => existsb (fun t => has_type t v) types
  | SArray items minItems =>
    match v with
    | JArr lst => (minItems <=? length lst)%nat && forallb (validate items) lst
    | _ => false
    end
  | SObject additionalProperties properties required =>
    match v with
    | JObj members =>
      forallb (fun key => has_key key members) required
      && forallb
           (fun kv =>
              (fix property (ps : list (string * json_schema)) : bool :=
                 match ps with
                 | [] => additionalProperties
                 | (name, s) :: ps' =>
                   if bool_decide (fst kv = str_of name)
                   then validate s (snd kv)
                   else property ps'
                 end) properties)
           members
    | _ => false
    end
  end.

(** The invariant of Python's [dict]: no key occurs twice, at any depth. *)
Fixpoint dict_keys_distinct (v : json) : bool :=
  match v with
  | JArr lst => forallb dict_keys_distinct lst
  | JObj members =>
    bool_decide (NoDup (map fst members))
    && forallb (fun kv => dict_keys_distinct (snd kv)) members
  | _ => true
  end.

(** No number occurs in [v]. *)
Fixpoint number_free (v : json) : bool :=
  match v with
  | JNum _ => false
  | JArr lst => forallb number_free lst
  | JObj members => forallb (fun kv => number_free (snd kv)) members
  | _ => true
  end.

(** The lists and dicts that have to be entered to reach the innermost
    value of [v]. *)
Fixpoint json_depth (v : json) : nat :=
  match v with
  | JArr lst => S (list_max (map json_depth lst))
  | JObj members => S (list_max (map (fun kv => json_depth (snd kv)) members))
  | _ => O
  end.

(** The strings of [v]: keys, string values and the texts of numbers. *)
Fixpoint json_strings (v : json) : list pystr :=
  match v with
  | JNum literal => [literal]
  | JStr s => [s]
  | JArr lst => flat_map json_strings lst
  | JObj members =>
    flat_map (fun kv => fst kv :: json_strings (snd kv)) members
  | _ => []
  end.

(** A Unicode scalar value: a code point that is not a surrogate. *)
Definition is_scalar_value (c : N) : bool :=
  (c <? 0x110000) && negb (is_surrogate c).

(** Every string of [v] consists of scalar values, so that it has a UTF-8
    encoding. *)
Definition encodable (v : json) : Prop :=
  Forall (Forall (fun c => is_scalar_value c = true)) (json_strings v).

(** ** The extraction client *)

Definition system_prompt : pystr :=
  str_of "Extract the resume into a single JSON object that matches the schema exactly; output only valid JSON.".

Definition user_prompt (resume_text : pystr) : pystr :=
  NL ++ str_of "Resume:" ++ NL
  ++ [QUOTE; QUOTE; QUOTE] ++ resume_text ++ [QUOTE; QUOTE; QUOTE] ++ NL
  ++ NL
  ++ str_of "Rules:" ++ NL
  ++ str_of "- Detect primary language as ISO-2 (e.g., 'en', 'de', 'tr'); default to 'en' if unclear." ++ NL
  ++ str_of "- Normalize LinkedIn as 'linkedin.com/in/<handle>' when present." ++ NL
  ++ str_of "- Use null for missing fields." ++ NL
  ++ str_of "- Return ONLY valid JSON conforming to the provided schema." ++ NL.

Definition resume_request (resume_text : pystr) : request :=
  {| req_model := "gpt-4o-mini";
     req_messages :=
       [ {| msg_role := "system"; msg_content := system_prompt |};
         {| msg_role := "user"; msg_content := user_prompt resume_text |} ];
     req_format_type := "json_schema";
     req_schema_name := "ResumeSchema";
     req_schema := resume_schema;
     req_strict := true;
     req_temperature := 0 |}.

(** [resp.choices[0].message.content] *)
Definition first_content (resp : completion) : result (option pystr) :=
  match choices resp with
  | [] => Raise (IndexError (str_of "list index out of range"))
  | c :: _ => Ok (message_content c)
  end.

(** [json.loads] on what may be [None]. *)
Definition json_loads_object (rt : Runtime) (content : option pystr)
    : result json :=
  match content with
  | None =>
    Raise (TypeError (str_of
      "the JSON object must be str, bytes or bytearray, not NoneType"))
  | Some s => json_loads rt s
  end.

Definition llm_extract_resume (rt : Runtime) (resume_text : pystr) : IO json :=
  match OpenAI rt with
  | None =>
    raise (ImportError (str_of
      "openai package not installed. Run: pip install openai"))
  | Some new_client =>
    api_key <~ os_environ_get "OPENAI_API_KEY" ;;
    match api_key with
    | None | Some [] =>
      raise (RuntimeError (str_of "OPENAI_API_KEY not set in environment."))
    | Some key =>
      let client := new_client key in
      let max_retries := DEFAULT_MAX_RETRIES in
      resp <~ chat_completions_create client max_retries
                (resends rt key (resume_request resume_text))
                (resume_request resume_text) ;;
      content <~ lift (first_content resp) ;;
      lift (json_loads_object rt content)
    end
  end.

(** ** The driver *)

Definition no_text_message : pystr :=
  str_of "No text extracted (consider OCR for scanned PDFs).".

(** [with open(path, "w", encoding="utf-8") as f:
      json.dump(data, f, indent=2, ensure_ascii=False)] *)
Definition json_dump_file (data : json) (path : pystr) : IO unit :=
  open_write_text path "utf-8" (iterencode data 0).

Definition default_out_json : pystr := str_of "parsed_cv.json".

Definition parse_any_resume_to_json (rt : Runtime)
    (upload_path out_json : pystr) : IO pystr :=
  text <~ extract_text rt upload_path ;;
  if negb (truthy text) || negb (truthy (strip text)) then
    raise (ValueError no_text_message)
  else
    data <~ llm_extract_resume rt text ;;
    _ <~ json_dump_file data out_json ;;
    ret out_json.

(** The re-read of [parse_upload] in [gradio_app.py]:
    [with open(saved_path, "r", encoding="utf-8") as f: json.load(f)] *)
Definition json_load_file (rt : Runtime) (saved_path : pystr) : IO json :=
  text <~ open_read_text saved_path "utf-8" ;;
  lift (json_loads rt text).

(** ** The upload adapter ([gradio_app.py]) *)

(** A [pathlib] path on POSIX: its root ("", "/" or "//") and its
    components, empty components and "." being dropped. *)
Record PurePosixPath := {
  root : pystr;
  parts : list pystr
}.

(** [part.lstrip("/")] *)
Fixpoint lstrip_sep (part : pystr) : pystr :=
  match part with
  | [] => []
  | c :: rest => if c =? 47 then lstrip_sep rest else part
  end.

(** [splitroot]: the root of [part] and what follows it. Exactly two
    leading slashes are a root of their own. *)
Definition splitroot (part : pystr) : pystr * pystr :=
  match part with
  | c :: _ =>
    if c =? 47 then
      let stripped_part := lstrip_sep part in
      if (length part - length stripped_part =? 2)%nat
      then ([47; 47], stripped_part)
      else ([47], stripped_part)
    else ([], part)
  | [] => ([], part)
  end.

(** [Path(s)] *)
Definition Path (s : pystr) : PurePosixPath :=
  {| root := fst (splitroot s);
     parts := filter (fun c => c <> [] /\ c <> str_of ".") (split_on 47 s) |}.

(** [str(p)] *)
Definition path_str (p : PurePosixPath) : pystr :=
  match root p ++ join [47] (parts p) with
  | [] => str_of "."
  | s => s
  end.

(** [p / key]: an absolute [key] replaces [p]. *)
Definition joinpath (p : PurePosixPath) (key : pystr) : PurePosixPath :=
  let k := Path key in
  match root k with
  | [] => {| root := root p; parts := parts p ++ parts k |}
  | _ => k
  end.

(** [Path(file_path).stem]: the name without its suffix. *)
Definition stem (file_path : pystr) : pystr :=
  let name := path_name file_path in
  match rfind 46 name with
  | Some i =>
    if (0 <? i)%nat && (i <? length name - 1)%nat then take i name else name
  | None => name
  end.

(** The object that Gradio passes for an upload, as the docstring of
    [parse_upload] has it: its [.name], the path of the temporary file, and
    its [.orig_name] when it has that attribute. *)
Record File := {
  name : pystr;
  orig_name : option pystr
}.

(** What the operating system and the interpreter add for the adapter. *)
Record Host := {
  (** what [shutil.copyfile] raises, if anything, when it creates or
      replaces the file at a path (a missing directory, permissions): the
      failure that the first [try] statement of [parse_upload] provides
      for *)
  write_error : pystr -> option exn;
  (** [str(e)] for the exceptions whose text [exn] does not hold *)
  exception_text : exn -> pystr
}.

(** [shutil.copyfile(src, dst)]: [SameFileError] when both name the same
    existing file; an existing [dst] is replaced. *)
Definition shutil_copyfile (host : Host) (src dst : pystr) : IO unit :=
  fun w =>
    match fs w !! src with
    | None => (Raise (FileNotFoundError src), w)
    | Some data =>
      if bool_decide (src = dst)
      then (Raise (LibraryError "shutil" (str_of "SameFileError")), w)
      else
        match write_error host dst with
        | Some e => (Raise e, w)
        | None => (Ok tt, set_file dst data w)
        end
    end.

(** [try: m  except E as e: handler e] *)
Definition try_except_as {A} (m : IO A) (handles : exn -> bool)
    (handler : exn -> IO A) : IO A :=
  fun w =>
    match m w with
    | (Ok a, w') => (Ok a, w')
    | (Raise e, w') => if handles e then handler e w' else (Raise e, w')
    end.

(** Every exception of [exn] is an [Exception]. *)
Definition is_Exception (e : exn) : bool := true.

(** [doc.count("\n", 0, pos) + 1] *)
Definition lineno (doc : pystr) (pos : nat) : nat :=
  S (length (filter (fun c => c = 10) (take pos doc))).

(** [pos - doc.rindex("\n", 0, pos)], or [pos + 1] without a newline
    before [pos]. *)
Definition colno (doc : pystr) (pos : nat) : nat :=
  match rfind 10 (take pos doc) with
  | Some newline => (pos - newline)%nat
  | None => (pos + 1)%nat
  end.

(** [str(e)] *)
Definition exception_str (host : Host) (e : exn) : pystr :=
  match e with
  | ImportError msg | AttributeError msg | ValueError msg | RuntimeError msg
  | TypeError msg | IndexError msg | UnicodeError msg | LookupError msg => msg
  | JSONDecodeError msg doc pos =>
    msg ++ str_of ": line " ++ decimal (lineno doc pos)
    ++ str_of " column " ++ decimal (colno doc pos)
    ++ str_of " (char " ++ decimal pos ++ str_of ")"
  | _ => exception_text host e
  end.

Definition OUTPUT_DIR : PurePosixPath := Path (str_of "outputs").

Definition no_file_status : pystr := str_of "No file uploaded.".

(** The status strings, which open with U+2705 and U+274C. *)
Definition success_status : pystr := 0x2705 :: str_of " Parsed successfully.".

Definition error_status (host : Host) (e : exn) : pystr :=
  0x274C :: str_of " Error: " ++ exception_str host e.

(** The first [try] statement of [parse_upload]: the path that the
    pipeline is given. *)
Definition stable_copy (host : Host) (temp_path stable_path : PurePosixPath)
    : IO PurePosixPath :=
  try_except
    (_ <~ shutil_copyfile host (path_str temp_path) (path_str stable_path) ;;
     ret stable_path)
    is_Exception
    (ret temp_path).

(** [getattr(file_obj, "orig_name", temp_path.name)] *)
Definition getattr_orig_name (file_obj : File) : pystr :=
  default (path_name (name file_obj)) (orig_name file_obj).

(** [OUTPUT_DIR / (Path(orig_name).stem + "_parsed.json")] *)
Definition out_json_path (orig_name : pystr) : PurePosixPath :=
  joinpath OUTPUT_DIR (stem orig_name ++ str_of "_parsed.json").

Definition parse_upload (host : Host) (rt : Runtime) (file_obj : option File)
    : IO (pystr * json * option pystr) :=
  match file_obj with
  | None => ret (no_file_status, JObj [], None)
  | Some f =>
    let temp_path := Path (name f) in
    let orig_name := getattr_orig_name f in
    stable_path <~ stable_copy host temp_path (joinpath OUTPUT_DIR orig_name) ;;
    let out_json := out_json_path orig_name in
    try_except_as
      (saved_path <~ parse_any_resume_to_json rt (path_str stable_path)
                       (path_str out_json) ;;
       data <~ json_load_file rt saved_path ;;
       ret (success_status, data, Some saved_path))
      is_Exception
      (fun e => ret (error_status host e, JObj [], None))
  end.

(** [gr.update(visible=..., value=..., label=...)] *)
Record update := {
  visible : bool;
  value : option pystr;
  label : option pystr
}.

Definition run_parse (host : Host) (rt : Runtime) (file_obj : option File)
    : IO (pystr * json * update) :=
  r <~ parse_upload host rt file_obj ;;
  let '(s, data, path) := r in
  match path with
  | Some p =>
    if truthy p
    then ret (s, data,
              {| visible := true; value := Some p;
                 label := Some (str_of "Download " ++ path_name p) |})
    else ret (s, data, {| visible := false; value := None; label := None |})
  | None => ret (s, data, {| visible := false; value := None; label := None |})
  end.

(** ** The specification's wording, and sample runtimes and worlds *)

Definition supported_extensions : list pystr :=
  [str_of ".pdf"; str_of ".docx"; str_of ".doc"; str_of ".txt"].

(** [part] occurs in [s]. *)
Definition occurs_in (part s : pystr) : Prop :=
  exists before after, s = before ++ part ++ after.



Definition API_KEY : string := "OPENAI_API_KEY".

(** The decoder of JSON proper (RFC 8259): numbers of any length, nesting
    of any depth, and no reading of the names NaN, Infinity and -Infinity,
    which the grammar does not have. *)
Definition RFC8259 : JSONDecoder :=
  {| parse_constant := false;
     parse_float := fun literal => literal;
     max_str_digits := None |}.

(** [s] is valid JSON. No text nests deeper than it is long. *)
Definition is_json (s : pystr) : bool :=
  is_Ok (JSONDecoder_decode RFC8259 (length s) s).


(** The credential is absent: not set, or set to the empty string. *)
Definition credential_absent (w : World) : Prop :=
  environ w !! API_KEY = None \/ environ w !! API_KEY = @Some pystr [].

(** The text is empty or consists of whitespace only. *)
Definition blank (text : pystr) : Prop :=
  Forall (fun c => py_isspace c = true) text.

(** A runtime with none of the optional packages, in an interpreter that
    has imported [cv_parser] and nothing that loads [importlib.util]. The
    sample runtimes leave 990 nested containers to [json.loads] and read no
    float. *)
Definition bare_runtime : Runtime :=
  {| fitz := None; PyPDF2 := None; docx := None; textract := None;
     OpenAI := None; resends := fun _ _ => O; importlib_util := false;
     recursion_allowance := 990; float_repr := fun literal => literal;
     unicode_lower := fun s => s |}.


(** A runtime whose only package is the client, the remote service
    answering every request with [answer] at once. *)
Definition runtime_answering (answer : option pystr) : Runtime :=
  {| fitz := None; PyPDF2 := None; docx := None; textract := None;
     OpenAI := Some (fun _ _ =>
       Ok {| choices := [ {| message_content := answer |} ] |});
     resends := fun _ _ => O; importlib_util := true;
     recursion_allowance := 990; float_repr := fun literal => literal;
     unicode_lower := fun s => s |}.

(** The same service answering with a status 500 twice before it
    answers with [answer]. *)
Definition runtime_answering_late (answer : option pystr) : Runtime :=
  {| fitz := None; PyPDF2 := None; docx := None; textract := None;
     OpenAI := Some (fun _ _ =>
       Ok {| choices := [ {| message_content := answer |} ] |});
     resends := fun _ _ => 2%nat; importlib_util := true;
     recursion_allowance := 990; float_repr := fun literal => literal;
     unicode_lower := fun s => s |}.

(** A runtime whose only package is the client, the remote service
    failing every request with a status 500: the client gives up with its
    [InternalServerError] after the last attempt. *)
Definition runtime_failing : Runtime :=
  {| fitz := None; PyPDF2 := None; docx := None; textract := None;
     OpenAI := Some (fun _ _ =>
       Raise (LibraryError "openai" (str_of "Error code: 500")));
     resends := fun _ _ => 3%nat; importlib_util := true;
     recursion_allowance := 990; float_repr := fun literal => literal;
     unicode_lower := fun s => s |}.


(** The same packages in an interpreter that has imported [cv_parser]
    alone. *)
Definition runtime_with_docx_only (doc : docx_document) : Runtime :=
  {| fitz := None; PyPDF2 := None; docx := Some (fun _ _ => Ok doc);
     textract := None; OpenAI := None;
     resends := fun _ _ => O; importlib_util := false;
     recursion_allowance := 990; float_repr := fun literal => literal;
     unicode_lower := fun s => s |}.


(** A world with one file, and the credential when [key] is given. *)
Definition world_with (path : pystr) (data : bytes) (key : option pystr)
    : World :=
  {| fs := {[ path := data ]};
     environ := match key with
                | Some k => {[ API_KEY := k ]}
                | None => ∅
                end;
     trace := [] |}.

Definition sample_docx : docx_document :=
  {| paragraphs := [str_of "Ada Lovelace"; str_of "Engineer"];
     tables := [ [ [str_of "2019"; str_of "Acme"];
                   [str_of "2021"; str_of "Initech"] ] ] |}.

(** A relation between the world before and after that a computation
    keeps. *)
Definition preserves (R : World -> World -> Prop) {A} (m : IO A) : Prop :=
  forall w, R w (snd (m w)).

(** Reading: the files and the environment stay, and no call to the remote
    service is made. *)
Definition read_only (w w' : World) : Prop :=
  fs w' = fs w /\ environ w' = environ w /\
  network_calls w' = network_calls w /\
  exists opens, trace w' = trace w ++ opens /\
                Forall (fun e => is_request e = false) opens.


(** The codec that [codecs.lookup("utf-8")] returns. *)
Definition utf8_codec : Codec :=
  {| decode := utf8_decode Strict; encode := utf8_encode |}.

(** [s.encode(encoding)] *)
Definition py_encode (encoding : string) (s : pystr) : result bytes :=
  match codecs_lookup encoding with
  | Some codec => encode codec s
  | None => Raise (LookupError (str_of "unknown encoding"))
  end.

(** What [extract_text] returns for a ".txt" file that holds [data]. *)
Definition read_txt (data : bytes) : result pystr :=
  fst (extract_text bare_runtime (str_of "cv.txt")
         (world_with (str_of "cv.txt") data None)).

(** [r] is what is left of [s] after some of it was read. *)
Definition rest_of (r s : pystr) : Prop := exists read, s = read ++ r.

(** The opening brackets and braces of [s]. *)
Fixpoint opens (s : pystr) : nat :=
  match s with
  | [] => O
  | c :: r =>
    let bracket := if (c =? 91) || (c =? 123) then 1%nat else 0%nat in
    (bracket + opens r)%nat
  end.

(** [s] holds [n] decimal digits in a row. *)
Definition digit_run (n : nat) (s : pystr) : Prop :=
  exists before digits after,
    s = before ++ digits ++ after
    /\ length digits = n
    /\ Forall (fun c => is_digit c = true) digits.

(** [e] is the refusal of [int] to convert more digits than the limit of
    the decoder, [s] holding that many in a row. *)
Definition int_limit_error (decoder : JSONDecoder) (s : pystr) (e : exn)
    : Prop :=
  exists digits most,
    e = ValueError (int_limit_message digits)
    /\ max_str_digits decoder = Some most
    /\ (most < digits)%nat
    /\ digit_run digits s.

(** What a scan of [s] comes to, [allowed] being the containers that may
    be entered and [bound] the nesting of a value that is returned: the
    rest is a part of [s], and an exception other than [JSONDecodeError]
    has its cause in [s]. *)
Definition scan_fact (decoder : JSONDecoder) (allowed bound : nat)
    (s : pystr) (x : scan json) : Prop :=
  match x with
  | Scanned v r => rest_of r s /\ (json_depth v <= bound)%nat
  | Error e =>
    (e = RecursionError /\ (allowed < opens s)%nat)
    \/ int_limit_error decoder s e
  | _ => True
  end.

(** A scan that does not run out of fuel and, when it succeeds, leaves
    less input than [s]. *)
Definition consumes {A} (x : scan A) (s : pystr) : Prop :=
  x <> OutOfFuel
  /\ forall a r, x = Scanned a r -> (length r < length s)%nat.

(** What the UTF-8 decoder does at the head of an input: it decodes the
    encoding [enc] of one character [c], or it meets an undecodable range
    [skipped]; it goes on with [rest] under every error handler. *)
Inductive utf8_head (bs : bytes) : Prop :=
| head_valid (c : N) (enc rest : bytes) :
    bs = enc ++ rest ->
    utf8_encode_char c = Some enc ->
    (forall h, utf8_decode h bs = emit c (utf8_decode h rest)) ->
    utf8_head bs
| head_invalid (skipped rest : bytes) :
    bs = skipped ++ rest ->
    skipped <> [] ->
    (forall h, utf8_decode h bs = on_error "utf-8" h (utf8_decode h rest)) ->
    utf8_head bs.

(** Induction on a value, with the hypothesis for the items of a list and
    the members of a dict. *)
Definition json_nested_ind (P : json -> Prop)
    (Hnull : P JNull) (Hbool : forall b, P (JBool b))
    (Hnum : forall literal, P (JNum literal)) (Hstr : forall s, P (JStr s))
    (Harr : forall lst, Forall P lst -> P (JArr lst))
    (Hobj : forall members,
        Forall (fun kv => P (snd kv)) members -> P (JObj members)) :
  forall v, P v :=
  fix go (v : json) : P v :=
    match v with
    | JNull => Hnull
    | JBool b => Hbool b
    | JNum literal => Hnum literal
    | JStr s => Hstr s
    | JArr lst =>
      Harr lst
        ((fix all (l : list json) : Forall P l :=
            match l with
            | [] => List.Forall_nil P
            | x :: l' => @List.Forall_cons _ P x l' (go x) (all l')
            end) lst)
    | JObj members =>
      Hobj members
        ((fix all (l : list (pystr * json))
            : Forall (fun kv => P (snd kv)) l :=
            match l with
            | [] => List.Forall_nil _
            | kv :: l' => @List.Forall_cons _ _ kv l' (go (snd kv)) (all l')
            end) members)
    end.

(** The text of [v] at nesting depth [level]. *)
Definition value_text (v : json) (level : nat) : pystr :=
  concat (iterencode v level).

(** [v] is read back from its text, whatever follows, with enough fuel and
    when its nesting may be entered. *)
Definition reads_back (v : json) : Prop :=
  number_free v = true -> dict_keys_distinct v = true ->
  forall (decoder : JSONDecoder) (level : nat) (rest : pystr)
         (fuel depth : nat),
    (2 * length (value_text v level ++ rest) < fuel)%nat ->
    (json_depth v <= depth)%nat ->
    scan_once decoder fuel depth (value_text v level ++ rest)
    = Scanned v rest.

(** What [Q] has to hold of, in a string: the characters that are written
    as they are. *)
Definition plain_ok (Q : N -> Prop) (s : pystr) : Prop :=
  Forall (fun c => escape_char c = None -> Q c) s.


(** A string literal of JSON text. *)
Definition quoted (s : string) : pystr := QUOTE :: str_of s ++ [QUOTE].

(** A record that conforms to the schema, named [name]. *)
Definition record_named (name : pystr) : json :=
  JObj [ (str_of "name", JStr name);
         (str_of "email", JNull);
         (str_of "phone", JNull);
         (str_of "linkedin", JNull);
         (str_of "summary", JNull);
         (str_of "skills", JArr [JStr (str_of "Rocq"); JStr (str_of "OCaml")]);
         (str_of "experience", JArr []);
         (str_of "education", JArr []);
         (str_of "certificates", JArr []);
         (str_of "languages", JArr []);
         (str_of "detected_language", JStr (str_of "en")) ].

(** The text of a response that gives [name_literal] as the name. *)
Definition answer_named (name_literal : pystr) : pystr :=
  str_of "{" ++ quoted "name" ++ str_of ": " ++ name_literal
  ++ str_of ", " ++ quoted "email" ++ str_of ": null"
  ++ str_of ", " ++ quoted "phone" ++ str_of ": null"
  ++ str_of ", " ++ quoted "linkedin" ++ str_of ": null"
  ++ str_of ", " ++ quoted "summary" ++ str_of ": null"
  ++ str_of ", " ++ quoted "skills" ++ str_of ": ["
  ++ quoted "Rocq" ++ str_of ", " ++ quoted "OCaml" ++ str_of "]"
  ++ str_of ", " ++ quoted "experience" ++ str_of ": []"
  ++ str_of ", " ++ quoted "education" ++ str_of ": []"
  ++ str_of ", " ++ quoted "certificates" ++ str_of ": []"
  ++ str_of ", " ++ quoted "languages" ++ str_of ": []"
  ++ str_of ", " ++ quoted "detected_language" ++ str_of ": " ++ quoted "en"
  ++ str_of "}".

(** "Zoë" *)
Definition sample_name : pystr := [90; 111; 235].


(** Reading the file at [path]: the files and the environment stay, and
    the trace grows by openings of [path] for reading only. *)
Definition reads (path : pystr) (w w' : World) : Prop :=
  fs w' = fs w /\ environ w' = environ w /\
  exists opens,
    trace w' = trace w ++ opens
    /\ Forall (fun e => e = EvOpen path "rb" None
                        \/ exists enc, e = EvOpen path "r" (Some enc)) opens.

(** A runtime whose only package is PyMuPDF, every document having the
    pages [pages]. *)
Definition runtime_with_fitz (pages : result (list pystr)) : Runtime :=
  {| fitz := Some (fun _ _ => pages); PyPDF2 := None; docx := None;
     textract := None; OpenAI := None;
     resends := fun _ _ => O; importlib_util := true;
     recursion_allowance := 990; float_repr := fun literal => literal;
     unicode_lower := fun s => s |}.

(** A runtime whose only package is PyPDF2, every document having the
    pages [pages]. *)
Definition runtime_with_PyPDF2 (pages : result (list (option pystr)))
    : Runtime :=
  {| fitz := None; PyPDF2 := Some (fun _ => pages); docx := None;
     textract := None; OpenAI := None;
     resends := fun _ _ => O; importlib_util := true;
     recursion_allowance := 990; float_repr := fun literal => literal;
     unicode_lower := fun s => s |}.

Definition pdf_install_hint : pystr :=
  str_of "Install a PDF library: pip install pymupdf or pip install PyPDF2".

(** The second [try] statement of the ".pdf" branch. *)
Definition extract_pdf_PyPDF2_block (rt : Runtime) (file_path : pystr)
    : IO pystr :=
  try_except
    (PdfReader <~ import "PyPDF2" (PyPDF2 rt) ;;
     f <~ open_read_binary file_path ;;
     pages <~ lift (PdfReader f) ;;
     ret (concat (map (default []) pages)))
    is_ImportError
    (raise (ImportError pdf_install_hint)).


(** A host that refuses no write, the text of the other exceptions being
    left empty. *)
Definition plain_host : Host :=
  {| write_error := fun _ => None; exception_text := fun _ => [] |}.

(** An upload as Gradio hands it over, without [.orig_name]. *)
Definition sample_upload (path : string) : File :=
  {| name := str_of path; orig_name := None |}.

(** A path as [pathlib] keeps it: one of the three roots, and components
    that are not empty, not "." and hold no slash. *)
Definition normal (p : PurePosixPath) : Prop :=
  (root p = [] \/ root p = [47] \/ root p = [47; 47])
  /\ Forall (fun c => (c <> [] /\ c <> str_of ".") /\ ~ In 47 c) (parts p).

(** * Properties *)

(** ** Running [IO] computations *)

Lemma bind_Ok {A B} (m : IO A) (k : A -> IO B) w a w' :
  m w = (Ok a, w') -> bind m k w = k a w'.
Proof. intros H. unfold bind. now rewrite H. Qed.

Lemma bind_Raise {A B} (m : IO A) (k : A -> IO B) w e w' :
  m w = (Raise e, w') -> bind m k w = (Raise e, w').
Proof. intros H. unfold bind. now rewrite H. Qed.


(** Every step of a computation keeps a reflexive and transitive relation
    between the world before and the world after. *)
Section preservation.
Variable R : World -> World -> Prop.
Hypothesis R_refl : forall w, R w w.
Hypothesis R_trans : forall w1 w2 w3, R w1 w2 -> R w2 w3 -> R w1 w3.

Lemma preserves_ret {A} (a : A) : preserves R (ret a).
Proof using R_refl. intros w. apply R_refl. Qed.

Lemma preserves_raise {A} e : preserves R (@raise A e).
Proof using R_refl. intros w. apply R_refl. Qed.

Lemma preserves_lift {A} (r : result A) : preserves R (lift r).
Proof using R_refl. intros w. apply R_refl. Qed.

Lemma preserves_bind {A B} (m : IO A) (k : A -> IO B) :
  preserves R m -> (forall a, preserves R (k a)) -> preserves R (bind m k).
Proof using R_trans.
  intros Hm Hk w. unfold bind. specialize (Hm w).
  destruct (m w) as [[a|e] w1]; simpl in *; [|exact Hm].
  eapply R_trans; [exact Hm|apply Hk].
Qed.

Lemma preserves_try_except {A} (m h : IO A) handles :
  preserves R m -> preserves R h -> preserves R (try_except m handles h).
Proof using R_trans.
  intros Hm Hh w. unfold try_except. specialize (Hm w).
  destruct (m w) as [[a|e] w1]; simpl in *; [exact Hm|].
  destruct (handles e); simpl; [|exact Hm].
  eapply R_trans; [exact Hm|apply Hh].
Qed.

Lemma preserves_import_or_raise {A} rt (module : option A) hint :
  preserves R (_import_or_raise rt module hint).
Proof using R_refl.
  unfold _import_or_raise.
  destruct (importlib_util rt), module; intros w; apply R_refl.
Qed.

Lemma preserves_import {A} name (module : option A) :
  preserves R (import name module).
Proof using R_refl. destruct module; intros w; apply R_refl. Qed.

Lemma preserves_library_open {A} (f : pystr -> option bytes -> result A) p :
  preserves R (library_open f p).
Proof using R_refl. intros w. apply R_refl. Qed.

Lemma preserves_os_environ_get name : preserves R (os_environ_get name).
Proof using R_refl. intros w. apply R_refl. Qed.
End preservation.

Lemma read_only_refl w : read_only w w.
Proof.
  repeat split. exists []. split; [now rewrite app_nil_r|constructor].
Qed.

Lemma read_only_trans w1 w2 w3 :
  read_only w1 w2 -> read_only w2 w3 -> read_only w1 w3.
Proof.
  intros (F1 & E1 & N1 & o1 & T1 & O1) (F2 & E2 & N2 & o2 & T2 & O2).
  repeat split; try congruence.
  exists (o1 ++ o2). split.
  - now rewrite T2, T1, <- app_assoc.
  - now apply Forall_app.
Qed.

Lemma read_only_log w path mode enc :
  read_only w (log (EvOpen path mode enc) w).
Proof.
  repeat split.
  - unfold network_calls. simpl. rewrite filter_app. simpl.
    rewrite filter_cons_False by (simpl; congruence).
    now rewrite app_nil_r.
  - exists [EvOpen path mode enc]. split; [reflexivity|].
    now repeat constructor.
Qed.

Lemma read_only_open_read_binary path :
  preserves read_only (open_read_binary path).
Proof.
  intros w. unfold open_read_binary.
  destruct (fs w !! path); apply read_only_log.
Qed.

Lemma read_only_open_read_text path enc :
  preserves read_only (open_read_text path enc).
Proof.
  intros w. unfold open_read_text.
  destruct (fs w !! path); [destruct (codecs_lookup enc)|];
    apply read_only_log.
Qed.

Lemma read_only_try_encodings encs path otherwise :
  preserves read_only otherwise ->
  preserves read_only (try_encodings encs path otherwise).
Proof.
  intros Ho. induction encs as [|enc rest IH]; simpl; [exact Ho|].
  apply preserves_try_except;
    [exact read_only_trans|apply read_only_open_read_text|exact IH].
Qed.

Create HintDb io.

#[local] Hint Resolve read_only_refl read_only_trans
  read_only_open_read_binary read_only_open_read_text
  preserves_ret preserves_raise preserves_lift preserves_bind
  preserves_try_except preserves_import preserves_import_or_raise
  preserves_library_open preserves_os_environ_get : io.

Lemma read_only_extract_txt path : preserves read_only (extract_txt path).
Proof.
  unfold extract_txt, txt_fallback. apply read_only_try_encodings.
  apply preserves_bind; eauto with io.
Qed.

Lemma read_only_extract_text rt path :
  preserves read_only (extract_text rt path).
Proof.
  unfold extract_text.
  repeat case_bool_decide.
  - unfold extract_pdf.
    repeat (first [apply preserves_try_except | apply preserves_bind
                  | intros ?]; eauto with io).
  - unfold extract_docx. repeat (apply preserves_bind; eauto with io; intros ?).
  - unfold extract_doc. repeat (apply preserves_bind; eauto with io; intros ?).
  - apply read_only_extract_txt.
  - eauto with io.
Qed.


(** ** Dispatch on the extension *)

Example suffix_upper : py_lower bare_runtime (suffix (str_of "cv/Resume.PDF")) = str_of ".pdf".
Proof. reflexivity. Qed.

Example suffix_hidden : suffix (str_of "cv/.txt") = [].
Proof. reflexivity. Qed.

Example suffix_last : suffix (str_of "cv.txt/archive.tar.gz") = str_of ".gz".
Proof. reflexivity. Qed.

Lemma occurs_in_intro (before part after s : pystr) :
  s = before ++ part ++ after -> occurs_in part s.
Proof. intros ->. now exists before, after. Qed.

(** C5. A path whose lower-cased suffix is none of .pdf, .docx, .doc, .txt
    makes [extract_text] raise [ValueError] without touching the world; the
    message holds the rejected extension and each supported one. Which
    handler runs depends on the lower-cased suffix alone. *)
Theorem extract_text_unsupported (rt : Runtime) (file_path : pystr) (w : World) :
  py_lower rt (suffix file_path) ∉ supported_extensions ->
  let ext := py_lower rt (suffix file_path) in
  let msg := str_of "Unsupported file type: " ++ ext
             ++ str_of " (supported: .pdf, .docx, .doc, .txt)" in
  extract_text rt file_path w = (Raise (ValueError msg), w)
  /\ occurs_in ext msg
  /\ (forall e, e ∈ supported_extensions -> occurs_in e msg)
  /\ (forall p : pystr,
        (py_lower rt (suffix p) = str_of ".pdf" ->
           extract_text rt p = extract_pdf rt p)
        /\ (py_lower rt (suffix p) = str_of ".docx" ->
              extract_text rt p = extract_docx rt p)
        /\ (py_lower rt (suffix p) = str_of ".doc" ->
              extract_text rt p = extract_doc rt p)
        /\ (py_lower rt (suffix p) = str_of ".txt" ->
              extract_text rt p = extract_txt p)).
Proof.
  intros Hext ext msg. subst ext.
  unfold supported_extensions in Hext.
  rewrite !not_elem_of_cons in Hext.
  destruct Hext as (Hpdf & Hdocx & Hdoc & Htxt & _).
  split; [|split; [|split]].
  - unfold extract_text. now rewrite !bool_decide_eq_false_2 by assumption.
  - now apply (occurs_in_intro (str_of "Unsupported file type: ") _
                 (str_of " (supported: .pdf, .docx, .doc, .txt)")).
  - intros e He. unfold supported_extensions in He.
    rewrite !elem_of_cons in He.
    destruct He as [->|[->|[->|[->|He]]]]; [| | | |now apply elem_of_nil in He].
    + apply (occurs_in_intro
               (str_of "Unsupported file type: " ++ py_lower rt (suffix file_path)
                ++ str_of " (supported: ")
               _ (str_of ", .docx, .doc, .txt)")).
      subst msg. now rewrite <- !app_assoc.
    + apply (occurs_in_intro
               (str_of "Unsupported file type: " ++ py_lower rt (suffix file_path)
                ++ str_of " (supported: .pdf, ")
               _ (str_of ", .doc, .txt)")).
      subst msg. now rewrite <- !app_assoc.
    + apply (occurs_in_intro
               (str_of "Unsupported file type: " ++ py_lower rt (suffix file_path)
                ++ str_of " (supported: .pdf, .docx, ")
               _ (str_of ", .txt)")).
      subst msg. now rewrite <- !app_assoc.
    + apply (occurs_in_intro
               (str_of "Unsupported file type: " ++ py_lower rt (suffix file_path)
                ++ str_of " (supported: .pdf, .docx, .doc, ")
               _ (str_of ")")).
      subst msg. now rewrite <- !app_assoc.
  - intros p. unfold extract_text.
    repeat split; intros ->; reflexivity.
Qed.

Lemma extract_text_unsupported_witness :
  extract_text bare_runtime (str_of "cv/resume.RTF")
    (world_with (str_of "cv/resume.RTF") [] None)
  = (Raise (ValueError
       (str_of "Unsupported file type: .rtf (supported: .pdf, .docx, .doc, .txt)")),
     world_with (str_of "cv/resume.RTF") [] None).
Proof.
  apply (extract_text_unsupported bare_runtime (str_of "cv/resume.RTF")
           (world_with (str_of "cv/resume.RTF") [] None)).
  vm_compute. intros H.
  repeat (apply elem_of_cons in H; destruct H as [H|H]; [discriminate H|]).
  inversion H.
Defined.

(** ** DOCX text *)




Lemma join_cons (sep p q : pystr) (l : list pystr) :
  join sep (p :: q :: l) = p ++ sep ++ join sep (q :: l).
Proof. reflexivity. Qed.




(** C7, the code at the failing input. On a ".docx" path, with python-docx
    installed, in an interpreter that has imported [cv_parser] and nothing
    that loads [importlib.util], [extract_text] raises [AttributeError]
    where the claim has it return the text of the document: the sample
    document with its two paragraphs and its table of two rows is not
    opened. *)
Theorem extract_text_docx_unloaded :
  docx (runtime_with_docx_only sample_docx) <> None
  /\ extract_text (runtime_with_docx_only sample_docx) (str_of "cv.docx")
       (world_with (str_of "cv.docx") [] None)
     = (Raise (AttributeError
                 (str_of "module 'importlib' has no attribute 'util'")),
        world_with (str_of "cv.docx") [] None).
Proof. split; [discriminate|reflexivity]. Qed.



(** With no paragraph the text starts with the newline that precedes the
    first row. *)
Example docx_table_only :
  docx_text {| paragraphs := []; tables := [[[str_of "a"; str_of "b"]]] |}
  = NL ++ str_of "a" ++ TAB ++ str_of "b".
Proof. reflexivity. Qed.

(** ** The credential check *)

(** C6 (as the claim states it) fails: without the openai package the
    call raises [ImportError], not the credential error, although the
    credential is absent. *)
Lemma llm_extract_resume_package_first :
  credential_absent (world_with (str_of "cv.txt") [] None)
  /\ llm_extract_resume bare_runtime (str_of "Ada Lovelace")
       (world_with (str_of "cv.txt") [] None)
     = (Raise (ImportError
          (str_of "openai package not installed. Run: pip install openai")),
        world_with (str_of "cv.txt") [] None).
Proof. split; [now left|reflexivity]. Qed.

(** C6 (amended). When the credential is absent, the call leaves the world
    as it was, so that no call to the remote service is made, and raises:
    [RuntimeError] "OPENAI_API_KEY not set in environment." when the openai
    package is installed, [ImportError] when it is not. *)
Theorem llm_extract_resume_credential (rt : Runtime) (resume_text : pystr)
    (w : World) :
  credential_absent w ->
  snd (llm_extract_resume rt resume_text w) = w
  /\ network_calls (snd (llm_extract_resume rt resume_text w))
     = network_calls w
  /\ (OpenAI rt <> None ->
      fst (llm_extract_resume rt resume_text w)
      = Raise (RuntimeError (str_of "OPENAI_API_KEY not set in environment.")))
  /\ (OpenAI rt = None ->
      fst (llm_extract_resume rt resume_text w)
      = Raise (ImportError
          (str_of "openai package not installed. Run: pip install openai"))).
Proof.
  intros Habs. unfold llm_extract_resume.
  destruct (OpenAI rt) as [new_client|].
  - unfold bind, os_environ_get.
    destruct Habs as [Habs | Habs]; unfold API_KEY in Habs.
    + rewrite Habs. simpl. repeat split; congruence.
    + rewrite Habs. simpl. repeat split; congruence.
  - simpl. repeat split; congruence.
Qed.

Lemma llm_extract_resume_credential_witness :
  fst (llm_extract_resume (runtime_answering (Some (str_of "{}")))
         (str_of "Ada Lovelace") (world_with (str_of "cv.txt") [] None))
  = Raise (RuntimeError (str_of "OPENAI_API_KEY not set in environment.")).
Proof.
  apply (llm_extract_resume_credential (runtime_answering (Some (str_of "{}")))
           (str_of "Ada Lovelace") (world_with (str_of "cv.txt") [] None)).
  - now left.
  - discriminate.
Defined.

(** ** Blank text *)

Lemma lstrip_blank (s : pystr) : blank s -> lstrip s = [].
Proof.
  induction 1 as [|c s Hc _ IH]; simpl; [reflexivity|]. now rewrite Hc.
Qed.

Lemma lstrip_head (s : pystr) (c : N) (r : pystr) :
  lstrip s = c :: r -> py_isspace c = false.
Proof.
  induction s as [|x s IH]; simpl; [discriminate|].
  destruct (py_isspace x) eqn:Hx; [exact IH|].
  intros [= <- _]. exact Hx.
Qed.

Lemma lstrip_nil (s : pystr) : lstrip s = [] -> blank s.
Proof.
  induction s as [|x s IH]; simpl; [constructor|].
  destruct (py_isspace x) eqn:Hx; [|discriminate].
  intros H. constructor; [exact Hx|exact (IH H)].
Qed.

Lemma strip_nil_iff (s : pystr) : strip s = [] <-> blank s.
Proof.
  unfold strip, rstrip. split.
  - intros H. apply (f_equal (@rev N)) in H. rewrite rev_involutive in H.
    simpl in H. apply lstrip_nil in H.
    destruct (lstrip s) as [|c r] eqn:Hl; [now apply lstrip_nil|].
    apply lstrip_head in Hl.
    pose proof (proj1 (List.Forall_forall _ _) H c) as Hc.
    rewrite <- in_rev in Hc. rewrite Hc in Hl by now left. discriminate.
  - intros H. now rewrite (lstrip_blank s H).
Qed.

(** The test [not text or not text.strip()] of the driver. *)
Lemma blank_test (text : pystr) :
  negb (truthy text) || negb (truthy (strip text)) = true <-> blank text.
Proof.
  rewrite <- strip_nil_iff. split.
  - destruct text as [|c text]; [reflexivity|]. simpl.
    destruct (strip (c :: text)); [reflexivity|discriminate].
  - intros ->. now rewrite orb_true_r.
Qed.

Lemma blank_test_false (text : pystr) :
  ~ blank text -> negb (truthy text) || negb (truthy (strip text)) = false.
Proof.
  intros H. apply not_true_is_false. now rewrite blank_test.
Qed.

(** C4. When [extract_text] returns a text that is empty or all
    whitespace, the driver raises [ValueError] with the message "No text
    extracted (consider OCR for scanned PDFs)." in the world that the
    extraction left: no call to the remote service was made, whatever the
    client of the runtime would do, and no file was written. *)
Theorem parse_blank_text (rt : Runtime) (upload_path out_json : pystr)
    (w w1 : World) (text : pystr) :
  extract_text rt upload_path w = (Ok text, w1) ->
  blank text ->
  let msg := str_of "No text extracted (consider OCR for scanned PDFs)." in
  parse_any_resume_to_json rt upload_path out_json w
  = (Raise (ValueError msg), w1)
  /\ occurs_in (str_of "OCR") msg
  /\ occurs_in (str_of "scanned") msg
  /\ network_calls w1 = network_calls w
  /\ fs w1 = fs w.
Proof.
  intros Hx Hb msg. split; [|split; [|split]].
  - unfold parse_any_resume_to_json. rewrite (bind_Ok _ _ _ _ _ Hx).
    now rewrite (proj2 (blank_test text) Hb).
  - now apply (occurs_in_intro (str_of "No text extracted (consider ") _
                 (str_of " for scanned PDFs).")).
  - now apply (occurs_in_intro (str_of "No text extracted (consider OCR for ") _
                 (str_of " PDFs).")).
  - pose proof (read_only_extract_text rt upload_path w) as H.
    rewrite Hx in H. simpl in H. destruct H as (Hf & _ & Hn & _). now split.
Qed.

Lemma parse_blank_text_witness :
  parse_any_resume_to_json (runtime_answering (Some (str_of "{}")))
    (str_of "scan.txt") (str_of "out.json")
    (world_with (str_of "scan.txt") [x20; x0a; x09] (Some (str_of "sk-1")))
  = (Raise (ValueError
       (str_of "No text extracted (consider OCR for scanned PDFs).")),
     log (EvOpen (str_of "scan.txt") "r" (Some "utf-8"%string))
       (world_with (str_of "scan.txt") [x20; x0a; x09] (Some (str_of "sk-1")))).
Proof.
  apply (parse_blank_text (runtime_answering (Some (str_of "{}")))
           (str_of "scan.txt") (str_of "out.json")
           (world_with (str_of "scan.txt") [x20; x0a; x09] (Some (str_of "sk-1")))
           _ [32; 10; 9]).
  - vm_compute. reflexivity.
  - repeat constructor.
Defined.

(** ** Writing the record *)

Lemma encode_with_app (name : string) (f : N -> option bytes) (a b : pystr) :
  encode_with name f (a ++ b)
  = rbind (encode_with name f a)
      (fun x => rmap (app x) (encode_with name f b)).
Proof.
  induction a as [|c a IH]; simpl.
  - destruct (encode_with name f b); reflexivity.
  - destruct (f c) as [bs|]; [|reflexivity]. rewrite IH.
    destruct (encode_with name f a) as [x|e]; simpl; [|reflexivity].
    destruct (encode_with name f b) as [y|e]; simpl; [|reflexivity].
    now rewrite app_assoc.
Qed.

Lemma codecs_lookup_utf8 : codecs_lookup "utf-8" = Some utf8_codec.
Proof. reflexivity. Qed.


Lemma write_chunks_encoded (chunks : list pystr) (acc bs : bytes) :
  utf8_encode (concat chunks) = Ok bs ->
  write_chunks utf8_codec chunks acc = (Ok tt, acc ++ bs).
Proof.
  revert acc bs. induction chunks as [|chunk chunks IH]; intros acc bs; simpl.
  - intros [= <-]. now rewrite app_nil_r.
  - unfold utf8_encode in *. rewrite encode_with_app.
    destruct (encode_with "utf-8" utf8_encode_char chunk) as [x|e]; simpl;
      [|discriminate].
    destruct (encode_with "utf-8" utf8_encode_char (concat chunks)) as [y|e]
      eqn:Hy; simpl; [|discriminate].
    intros [= <-]. rewrite (IH _ y eq_refl). now rewrite app_assoc.
Qed.

(** ** UTF-8 *)

(** Linear arithmetic with division and remainder by constants. *)
Ltac div_lia := zify; Z.to_euclidean_division_equations; lia.

Lemma to_N_lt (b : byte) : Byte.to_N b < 256.
Proof. pose proof (Byte.to_N_bounded b). lia. Qed.

Lemma to_N_byte_of_N (n : N) : n < 256 -> Byte.to_N (byte_of_N n) = n.
Proof.
  intros Hn. unfold byte_of_N.
  destruct (Byte.of_N n) as [b|] eqn:Hb.
  - now apply Byte.to_of_N.
  - apply Byte.of_N_None_iff in Hb. lia.
Qed.

Lemma byte_of_N_to_N (b : byte) : byte_of_N (Byte.to_N b) = b.
Proof. unfold byte_of_N. now rewrite Byte.of_to_N. Qed.

(** One unfolding of the decoder at [b :: r], the calls on the tails left
    folded. *)
Ltac utf8_unroll :=
  match goal with
  | |- utf8_decode ?h (?b :: ?r) = _ =>
    let r0 := fresh "r" in
    let E := fresh "E" in
    remember r as r0 eqn:E; cbn [utf8_decode]; subst r0
  end.

Ltac use_tests :=
  repeat (cbv beta iota zeta;
          match goal with
          | H : ?t = true |- context [if ?t then _ else _] => rewrite H
          | H : ?t = false |- context [if ?t then _ else _] => rewrite H
          end);
  cbv beta iota zeta.

Ltac utf8_leaf := intros; utf8_unroll; use_tests; try reflexivity.

Ltac bool_to_N :=
  repeat match goal with
  | H : (_ && _) = true |- _ => apply andb_true_iff in H; destruct H
  | H : negb _ = true |- _ => apply negb_true_iff in H
  | H : (_ && _) = false |- _ => apply andb_false_iff in H; destruct H
  | H : (_ <? _) = true |- _ => apply N.ltb_lt in H
  | H : (_ <? _) = false |- _ => apply N.ltb_ge in H
  | H : (_ <=? _) = true |- _ => apply N.leb_le in H
  | H : (_ <=? _) = false |- _ => apply N.leb_gt in H
  | H : (_ =? _) = true |- _ => apply N.eqb_eq in H
  | H : (_ =? _) = false |- _ => apply N.eqb_neq in H
  end.

Lemma utf8_decode_1 (h : error_handler) (b0 : byte) (r : bytes) :
  (Byte.to_N b0 <? 0x80) = true ->
  utf8_decode h (b0 :: r) = emit (Byte.to_N b0) (utf8_decode h r).
Proof. utf8_leaf. Qed.

Lemma utf8_decode_2 (h : error_handler) (b0 b1 : byte) (r : bytes) :
  (Byte.to_N b0 <? 0x80) = false ->
  (Byte.to_N b0 <? 0xC2) = false ->
  (Byte.to_N b0 <? 0xE0) = true ->
  is_continuation (Byte.to_N b1) = true ->
  utf8_decode h (b0 :: b1 :: r)
  = emit ((Byte.to_N b0 - 0xC0) * 64 + (Byte.to_N b1 - 0x80))
      (utf8_decode h r).
Proof. utf8_leaf. Qed.

Lemma utf8_decode_3 (h : error_handler) (b0 b1 b2 : byte) (r : bytes) :
  (Byte.to_N b0 <? 0x80) = false ->
  (Byte.to_N b0 <? 0xC2) = false ->
  (Byte.to_N b0 <? 0xE0) = false ->
  (Byte.to_N b0 <? 0xF0) = true ->
  second_of_3 (Byte.to_N b0) (Byte.to_N b1) = true ->
  is_continuation (Byte.to_N b2) = true ->
  utf8_decode h (b0 :: b1 :: b2 :: r)
  = emit ((Byte.to_N b0 - 0xE0) * 4096 + (Byte.to_N b1 - 0x80) * 64
          + (Byte.to_N b2 - 0x80))
      (utf8_decode h r).
Proof. utf8_leaf. Qed.

Lemma utf8_decode_4 (h : error_handler) (b0 b1 b2 b3 : byte) (r : bytes) :
  (Byte.to_N b0 <? 0x80) = false ->
  (Byte.to_N b0 <? 0xC2) = false ->
  (Byte.to_N b0 <? 0xE0) = false ->
  (Byte.to_N b0 <? 0xF0) = false ->
  (Byte.to_N b0 <? 0xF5) = true ->
  second_of_4 (Byte.to_N b0) (Byte.to_N b1) = true ->
  is_continuation (Byte.to_N b2) = true ->
  is_continuation (Byte.to_N b3) = true ->
  utf8_decode h (b0 :: b1 :: b2 :: b3 :: r)
  = emit ((Byte.to_N b0 - 0xF0) * 262144 + (Byte.to_N b1 - 0x80) * 4096
          + (Byte.to_N b2 - 0x80) * 64 + (Byte.to_N b3 - 0x80))
      (utf8_decode h r).
Proof. utf8_leaf. Qed.

Ltac bool_goal :=
  unfold second_of_3, second_of_4, is_continuation, is_surrogate,
    is_high_surrogate, is_low_surrogate;
  rewrite ?andb_true_iff, ?negb_true_iff, ?andb_false_iff, ?orb_true_iff,
    ?orb_false_iff, ?N.ltb_lt, ?N.ltb_ge, ?N.leb_le, ?N.leb_gt, ?N.eqb_eq,
    ?N.eqb_neq.

Lemma utf8_decode_encode_char (h : error_handler) (c : N) (enc rest : bytes) :
  utf8_encode_char c = Some enc ->
  utf8_decode h (enc ++ rest) = emit c (utf8_decode h rest).
Proof.
  unfold utf8_encode_char.
  destruct (c <? 0x80) eqn:T1; [|destruct (c <? 0x800) eqn:T2;
    [|destruct (c <? 0x10000) eqn:T3;
      [destruct (is_surrogate c) eqn:T4|destruct (c <? 0x110000) eqn:T5]]];
    try discriminate; intros [= <-]; simpl app;
    unfold is_surrogate in *; bool_to_N.
  - rewrite utf8_decode_1; rewrite to_N_byte_of_N by lia;
      [reflexivity|now apply N.ltb_lt].
  - rewrite utf8_decode_2; rewrite ?to_N_byte_of_N by div_lia;
      [f_equal; div_lia|bool_goal; div_lia..].
  - rewrite utf8_decode_3; rewrite ?to_N_byte_of_N by div_lia;
      [f_equal; div_lia|bool_goal; div_lia..].
  - rewrite utf8_decode_3; rewrite ?to_N_byte_of_N by div_lia;
      [f_equal; div_lia|bool_goal; div_lia..].
  - rewrite utf8_decode_4; rewrite ?to_N_byte_of_N by div_lia;
      [f_equal; div_lia|bool_goal; div_lia..].
Qed.

(** Decoding undoes encoding, under every error handler. *)
Lemma utf8_decode_encode (h : error_handler) (s : pystr) (bs : bytes) :
  utf8_encode s = Ok bs -> utf8_decode h bs = Ok s.
Proof.
  unfold utf8_encode. revert bs.
  induction s as [|c s IH]; intros bs; simpl.
  - now intros [= <-].
  - destruct (utf8_encode_char c) as [enc|] eqn:Hc; [|discriminate].
    destruct (encode_with "utf-8" utf8_encode_char s) as [bs'|e];
      [|discriminate].
    simpl. intros [= <-].
    rewrite (utf8_decode_encode_char h c enc bs' Hc).
    now rewrite (IH bs' eq_refl).
Qed.

Ltac invalid_head skipped rest :=
  apply (head_invalid _ skipped rest);
  [reflexivity | discriminate | utf8_leaf].

(** The decoder at a non-empty input, case by case. *)
Lemma utf8_decode_head (b0 : byte) (r0 : bytes) : utf8_head (b0 :: r0).
Proof.
  pose proof (to_N_lt b0) as L0.
  destruct (Byte.to_N b0 <? 0x80) eqn:T1.
  { apply (head_valid _ (Byte.to_N b0) [b0] r0); [reflexivity| |utf8_leaf].
    unfold utf8_encode_char. now rewrite T1, byte_of_N_to_N. }
  destruct (Byte.to_N b0 <? 0xC2) eqn:T2; [invalid_head [b0] r0|].
  destruct (Byte.to_N b0 <? 0xE0) eqn:T3.
  { destruct r0 as [|b1 r1]; [invalid_head [b0] (@nil byte)|].
    pose proof (to_N_lt b1) as L1.
    destruct (is_continuation (Byte.to_N b1)) eqn:C1;
      [|invalid_head [b0] (b1 :: r1)].
    apply (head_valid _ ((Byte.to_N b0 - 0xC0) * 64 + (Byte.to_N b1 - 0x80))
             [b0; b1] r1); [reflexivity| |utf8_leaf].
    unfold is_continuation in C1. bool_to_N. unfold utf8_encode_char.
    rewrite (proj2 (N.ltb_ge _ 0x80)) by lia.
    rewrite (proj2 (N.ltb_lt _ 0x800)) by lia.
    replace (0xC0 + _ / 64) with (Byte.to_N b0) by div_lia.
    replace (0x80 + _ mod 64) with (Byte.to_N b1) by div_lia.
    now rewrite !byte_of_N_to_N. }
  destruct (Byte.to_N b0 <? 0xF0) eqn:T4.
  { destruct r0 as [|b1 r1]; [invalid_head [b0] (@nil byte)|].
    pose proof (to_N_lt b1) as L1.
    destruct (second_of_3 (Byte.to_N b0) (Byte.to_N b1)) eqn:S1;
      [|invalid_head [b0] (b1 :: r1)].
    destruct r1 as [|b2 r2]; [invalid_head [b0; b1] (@nil byte)|].
    pose proof (to_N_lt b2) as L2.
    destruct (is_continuation (Byte.to_N b2)) eqn:C2;
      [|invalid_head [b0; b1] (b2 :: r2)].
    apply (head_valid _
             ((Byte.to_N b0 - 0xE0) * 4096 + (Byte.to_N b1 - 0x80) * 64
              + (Byte.to_N b2 - 0x80))
             [b0; b1; b2] r2); [reflexivity| |utf8_leaf].
    unfold second_of_3, is_continuation in *. bool_to_N;
      unfold utf8_encode_char, is_surrogate;
      rewrite (proj2 (N.ltb_ge _ 0x80)) by lia;
      rewrite (proj2 (N.ltb_ge _ 0x800)) by lia;
      rewrite (proj2 (N.ltb_lt _ 0x10000)) by lia;
      (replace ((0xD800 <=? _) && (_ <? 0xE000)) with false
         by (symmetry; bool_goal; lia));
      (replace (0xE0 + _ / 4096) with (Byte.to_N b0) by div_lia);
      (replace (0x80 + (_ / 64) mod 64) with (Byte.to_N b1) by div_lia);
      (replace (0x80 + _ mod 64) with (Byte.to_N b2) by div_lia);
      now rewrite !byte_of_N_to_N. }
  destruct (Byte.to_N b0 <? 0xF5) eqn:T5; [|invalid_head [b0] r0].
  destruct r0 as [|b1 r1]; [invalid_head [b0] (@nil byte)|].
  pose proof (to_N_lt b1) as L1.
  destruct (second_of_4 (Byte.to_N b0) (Byte.to_N b1)) eqn:S1;
    [|invalid_head [b0] (b1 :: r1)].
  destruct r1 as [|b2 r2]; [invalid_head [b0; b1] (@nil byte)|].
  pose proof (to_N_lt b2) as L2.
  destruct (is_continuation (Byte.to_N b2)) eqn:C2;
    [|invalid_head [b0; b1] (b2 :: r2)].
  destruct r2 as [|b3 r3]; [invalid_head [b0; b1; b2] (@nil byte)|].
  pose proof (to_N_lt b3) as L3.
  destruct (is_continuation (Byte.to_N b3)) eqn:C3;
    [|invalid_head [b0; b1; b2] (b3 :: r3)].
  apply (head_valid _
           ((Byte.to_N b0 - 0xF0) * 262144 + (Byte.to_N b1 - 0x80) * 4096
            + (Byte.to_N b2 - 0x80) * 64 + (Byte.to_N b3 - 0x80))
           [b0; b1; b2; b3] r3); [reflexivity| |utf8_leaf].
  unfold second_of_4, is_continuation in *. bool_to_N;
    unfold utf8_encode_char;
    rewrite (proj2 (N.ltb_ge _ 0x80)) by lia;
    rewrite (proj2 (N.ltb_ge _ 0x800)) by lia;
    rewrite (proj2 (N.ltb_ge _ 0x10000)) by lia;
    rewrite (proj2 (N.ltb_lt _ 0x110000)) by lia;
    (replace (0xF0 + _ / 262144) with (Byte.to_N b0) by div_lia);
    (replace (0x80 + (_ / 4096) mod 64) with (Byte.to_N b1) by div_lia);
    (replace (0x80 + (_ / 64) mod 64) with (Byte.to_N b2) by div_lia);
    (replace (0x80 + _ mod 64) with (Byte.to_N b3) by div_lia);
    now rewrite !byte_of_N_to_N.
Qed.

Lemma utf8_encode_char_nonempty (c : N) (enc : bytes) :
  utf8_encode_char c = Some enc -> enc <> [].
Proof.
  unfold utf8_encode_char.
  repeat match goal with
         | |- context [if ?t then _ else _] => destruct t
         end; intros [= <-]; discriminate.
Qed.

Lemma utf8_encode_cons (c : N) (s : pystr) (enc kept : bytes) :
  utf8_encode_char c = Some enc -> utf8_encode s = Ok kept ->
  utf8_encode (c :: s) = Ok (enc ++ kept).
Proof.
  unfold utf8_encode. simpl. now intros -> ->.
Qed.




(** ** The ".txt" branch *)

Lemma utf8_strict_error (bs : bytes) (e : exn) :
  utf8_decode Strict bs = Raise e -> e = UnicodeDecodeError "utf-8".
Proof.
  remember (length bs) as n eqn:Hn. revert bs Hn.
  induction n as [n IH] using lt_wf_ind. intros bs Hn.
  destruct bs as [|b0 r0]; [discriminate|].
  destruct (utf8_decode_head b0 r0) as [c enc rest Hbs Henc Hdec
                                       |skipped rest Hbs Hskip Hdec];
    rewrite Hdec.
  - pose proof (utf8_encode_char_nonempty c enc Henc) as Hne.
    destruct (utf8_decode Strict rest) as [t|e'] eqn:Hr; [discriminate|].
    simpl. intros [= <-]. apply (IH (length rest)) with (bs := rest);
      [|reflexivity|exact Hr].
    subst n. rewrite Hbs, length_app. destruct enc; [congruence|simpl; lia].
  - simpl. now intros [= <-].
Qed.

Lemma translate_newlines_id (s : pystr) :
  ~ In 13 s -> translate_newlines s = s.
Proof.
  induction s as [|c s IH]; [reflexivity|].
  intros Hc. simpl.
  destruct (c =? 13) eqn:E.
  - apply N.eqb_eq in E. exfalso. apply Hc. now left.
  - rewrite IH; [reflexivity|]. intros Hin. apply Hc. now right.
Qed.

Lemma latin1_decode_encode (s : pystr) (data : bytes) :
  latin1_encode s = Ok data -> map Byte.to_N data = s.
Proof.
  unfold latin1_encode. revert data.
  induction s as [|c s IH]; intros data; simpl.
  - now intros [= <-].
  - unfold latin1_encode_char at 1.
    destruct (c <? 0x100) eqn:Hc; [|discriminate].
    destruct (encode_with "latin-1" latin1_encode_char s) as [bs|e];
      [|discriminate].
    simpl. intros [= <-]. simpl. rewrite (IH bs eq_refl).
    apply N.ltb_lt in Hc. now rewrite to_N_byte_of_N by lia.
Qed.

(** The loop returns the text of the first candidate that decodes, when
    the candidates before it raise [UnicodeDecodeError]. *)
Lemma try_encodings_first (before : list string) (enc : string)
    (after : list string) (codec : Codec) (file_path : pystr) (data : bytes)
    (t : pystr) (otherwise : IO pystr) (w : World) :
  fs w !! file_path = Some data ->
  Forall (fun e => exists c name, codecs_lookup e = Some c
                     /\ decode c data = Raise (UnicodeDecodeError name))
         before ->
  codecs_lookup enc = Some codec ->
  decode codec data = Ok t ->
  fst (try_encodings (before ++ enc :: after) file_path otherwise w)
  = Ok (translate_newlines t).
Proof.
  intros Hfile Hbefore Henc Ht. revert w Hfile.
  induction Hbefore as [|e before (c & name & Hc & He) _ IH]; intros w Hfile;
    simpl; unfold try_except, open_read_text; rewrite Hfile.
  - now rewrite Henc, Ht.
  - rewrite Hc, He. simpl. apply IH. exact Hfile.
Qed.

(** The loop on a file that exists, when it starts with "utf-8" and
    "latin-1". *)
Lemma try_encodings_utf8_latin1 (file_path : pystr) (w : World) (data : bytes)
    (later : list string) (otherwise : IO pystr) :
  fs w !! file_path = Some data ->
  try_encodings ("utf-8" :: "latin-1" :: later)%string file_path otherwise w
  = match utf8_decode Strict data with
    | Ok s => (Ok (translate_newlines s),
               log (EvOpen file_path "r" (Some "utf-8"%string)) w)
    | Raise _ =>
      (Ok (translate_newlines (map Byte.to_N data)),
       log (EvOpen file_path "r" (Some "latin-1"%string))
         (log (EvOpen file_path "r" (Some "utf-8"%string)) w))
    end.
Proof.
  intros Hfile. simpl.
  unfold try_except at 1. unfold open_read_text at 1.
  rewrite Hfile, codecs_lookup_utf8. simpl.
  destruct (utf8_decode Strict data) as [s|e] eqn:Hd; [reflexivity|].
  rewrite (utf8_strict_error _ _ Hd). simpl.
  unfold try_except, open_read_text. simpl. now rewrite Hfile.
Qed.

Lemma extract_text_txt (rt : Runtime) (file_path : pystr) :
  py_lower rt (suffix file_path) = str_of ".txt" ->
  extract_text rt file_path
  = try_encodings txt_encodings file_path (txt_fallback file_path).
Proof. intros Hext. unfold extract_text. now rewrite Hext. Qed.

(** C10. A ".txt" file that exists is always read by one of the first two
    candidates: by "utf-8" when its bytes are valid UTF-8, and otherwise by
    "latin-1", which maps every byte to the code point of the same number.
    [extract_text] returns a text, opens the file for no other candidate
    and does not open it in binary mode; whatever follows "latin-1" in the
    loop, and whatever comes after the loop, does not change the outcome. *)
Theorem txt_read_by_utf8_or_latin1 (rt : Runtime) (file_path : pystr)
    (w : World) (data : bytes) :
  py_lower rt (suffix file_path) = str_of ".txt" ->
  fs w !! file_path = Some data ->
  ((exists s,
       utf8_decode Strict data = Ok s
       /\ extract_text rt file_path w
          = (Ok (translate_newlines s),
             log (EvOpen file_path "r" (Some "utf-8"%string)) w))
   \/ (is_Ok (utf8_decode Strict data) = false
       /\ extract_text rt file_path w
          = (Ok (translate_newlines (map Byte.to_N data)),
             log (EvOpen file_path "r" (Some "latin-1"%string))
               (log (EvOpen file_path "r" (Some "utf-8"%string)) w))))
  /\ (forall (later : list string) (otherwise : IO pystr),
        try_encodings ("utf-8" :: "latin-1" :: later)%string file_path
          otherwise w
        = extract_text rt file_path w).
Proof.
  intros Hext Hfile. rewrite (extract_text_txt rt file_path Hext).
  unfold txt_encodings. split.
  - rewrite (try_encodings_utf8_latin1 file_path w data _ _ Hfile).
    destruct (utf8_decode Strict data) as [s|e]; [left|right]; eauto.
  - intros later otherwise.
    now rewrite !(try_encodings_utf8_latin1 file_path w data _ _ Hfile).
Qed.

Lemma txt_read_by_utf8_or_latin1_witness :
  extract_text bare_runtime (str_of "cv.txt")
    (world_with (str_of "cv.txt") [x63; xe9] None)
  = (Ok [0x63; 0xE9],
     log (EvOpen (str_of "cv.txt") "r" (Some "latin-1"%string))
       (log (EvOpen (str_of "cv.txt") "r" (Some "utf-8"%string))
          (world_with (str_of "cv.txt") [x63; xe9] None))).
Proof.
  destruct (proj1 (txt_read_by_utf8_or_latin1 bare_runtime (str_of "cv.txt")
                     (world_with (str_of "cv.txt") [x63; xe9] None)
                     [x63; xe9] eq_refl eq_refl))
    as [(s & Hs & _)|(_ & H)].
  - discriminate Hs.
  - exact H.
Defined.

(** C3 (as the claim states it) fails, for each of four reasons: a CP1252
    file and a UTF-16 file are read as Latin-1; a Latin-1 file whose bytes
    happen to be valid UTF-8 is read as UTF-8; and a carriage return comes
    back as a line feed. *)
Lemma txt_round_trip_fails :
  (py_encode "cp1252" [0x20AC] = Ok [x80]
   /\ read_txt [x80] = Ok [0x80])
  /\ (py_encode "utf-16" (str_of "cv") = Ok [xff; xfe; x63; x00; x76; x00]
      /\ read_txt [xff; xfe; x63; x00; x76; x00]
         = Ok [0xFF; 0xFE; 0x63; 0; 0x76; 0])
  /\ (py_encode "latin-1" [0xC3; 0xA9] = Ok [xc3; xa9]
      /\ py_encode "iso-8859-1" [0xC3; 0xA9] = Ok [xc3; xa9]
      /\ read_txt [xc3; xa9] = Ok [0xE9])
  /\ (py_encode "utf-8" [0x61; 13; 10; 0x62] = Ok [x61; x0d; x0a; x62]
      /\ read_txt [x61; x0d; x0a; x62] = Ok [0x61; 10; 0x62]).
Proof. repeat split. Qed.

(** C3 (amended). For a string [s] without carriage return, a ".txt" file
    that holds the UTF-8 encoding of [s] is read back as [s], and so is one
    that holds the Latin-1 (ISO-8859-1) encoding of [s] when these bytes
    are not valid UTF-8. The candidates are tried in the order of the
    list: the text returned is that of the first candidate that decodes,
    the ones before it having raised [UnicodeDecodeError], with CR LF and
    CR read as LF. *)
Theorem txt_round_trip (rt : Runtime) (file_path : pystr) (w : World)
    (s : pystr) (data : bytes) :
  py_lower rt (suffix file_path) = str_of ".txt" ->
  fs w !! file_path = Some data ->
  ~ In 13 s ->
  (py_encode "utf-8" s = Ok data ->
   fst (extract_text rt file_path w) = Ok s)
  /\ (py_encode "latin-1" s = Ok data ->
      is_Ok (utf8_decode Strict data) = false ->
      fst (extract_text rt file_path w) = Ok s)
  /\ (forall before enc after codec t,
        txt_encodings = before ++ enc :: after ->
        Forall (fun e => exists c name, codecs_lookup e = Some c
                           /\ decode c data = Raise (UnicodeDecodeError name))
               before ->
        codecs_lookup enc = Some codec ->
        decode codec data = Ok t ->
        fst (extract_text rt file_path w) = Ok (translate_newlines t)).
Proof.
  intros Hext Hfile Hcr. rewrite (extract_text_txt rt file_path Hext).
  split; [|split].
  - intros Henc. apply (utf8_decode_encode Strict) in Henc.
    unfold txt_encodings.
    rewrite (try_encodings_utf8_latin1 file_path w data _ _ Hfile), Henc.
    simpl. now rewrite translate_newlines_id.
  - intros Henc Hbad. apply latin1_decode_encode in Henc.
    unfold txt_encodings.
    rewrite (try_encodings_utf8_latin1 file_path w data _ _ Hfile).
    destruct (utf8_decode Strict data) as [s'|e]; [discriminate|].
    simpl. rewrite Henc. now rewrite translate_newlines_id.
  - intros before enc after codec t Hlist Hbefore Henc Ht.
    rewrite Hlist.
    now apply (try_encodings_first before enc after codec file_path data).
Qed.

Lemma txt_round_trip_witness :
  fst (extract_text bare_runtime (str_of "cv.txt")
         (world_with (str_of "cv.txt") [xc3; xa9; x0a; xe2; x82; xac] None))
  = Ok [0xE9; 10; 0x20AC].
Proof.
  refine (proj1 (txt_round_trip bare_runtime (str_of "cv.txt")
           (world_with (str_of "cv.txt") [xc3; xa9; x0a; xe2; x82; xac] None)
           [0xE9; 10; 0x20AC] [xc3; xa9; x0a; xe2; x82; xac]
           eq_refl eq_refl _) eq_refl).
  simpl. intros [H|[H|[H|[]]]]; discriminate H.
Defined.

(** ** The decoder consumes its input *)

Lemma skip_ws_length (s : pystr) : (length (skip_ws s) <= length s)%nat.
Proof.
  induction s as [|c s IH]; simpl; [lia|]. destruct (is_ws c); simpl; lia.
Qed.

Lemma smap_Scanned {A B} (f : A -> B) (x : scan A) (b : B) (r : pystr) :
  smap f x = Scanned b r -> exists a, x = Scanned a r /\ b = f a.
Proof.
  destruct x as [a r'| | |]; simpl; try discriminate.
  intros [= <- <-]. now exists a.
Qed.

Lemma smap_not_OutOfFuel {A B} (f : A -> B) (x : scan A) :
  x <> OutOfFuel -> smap f x <> OutOfFuel.
Proof. destruct x; simpl; congruence. Qed.

Ltac scan_step := cbv beta iota zeta.

(** [scanstring] never runs out of fuel (it uses none) and leaves less
    input than it was given. *)
Lemma scanstring_consumes (s begin : pystr) :
  scanstring s begin <> OutOfFuel
  /\ forall k r, scanstring s begin = Scanned k r -> (length r < length s)%nat.
Proof.
  remember (length s) as n eqn:Hn. revert s Hn.
  induction n as [n IH] using lt_wf_ind. intros s ->.
  assert (Hrec : forall s' (f : pystr -> pystr),
             (length s' < length s)%nat ->
             smap f (scanstring s' begin) <> OutOfFuel
             /\ forall k r, smap f (scanstring s' begin) = Scanned k r ->
                            (length r < length s)%nat).
  { intros s' f Hlt.
    destruct (IH (length s') ltac:(lia) s' eq_refl) as [H1 H2].
    split; [now apply smap_not_OutOfFuel|].
    intros k r Hk. apply smap_Scanned in Hk. destruct Hk as (a & Ha & _).
    specialize (H2 _ _ Ha). lia. }
  clear IH.
  destruct s as [|c r]; [split; [discriminate|discriminate]|].
  cbn [scanstring].
  destruct (c =? 34); [split; [discriminate|intros k r' [= _ <-]; simpl; lia]|].
  destruct (c =? 92).
  2:{ destruct (c <? 32); [split; discriminate|]. apply Hrec. simpl; lia. }
  destruct r as [|esc r1]; [split; discriminate|].
  destruct (esc =? 117).
  2:{ destruct (backslash esc); [|split; discriminate].
      apply Hrec. simpl; lia. }
  destruct r1 as [|h1 [|h2 [|h3 [|h4 [|b r2]]]]]; try (split; discriminate).
  destruct (hex4 h1 h2 h3 h4) as [uni|]; [|split; discriminate].
  scan_step.
  assert (Hlone : smap (cons uni) (scanstring (b :: r2) begin) <> OutOfFuel
                  /\ forall k r,
                       smap (cons uni) (scanstring (b :: r2) begin)
                       = Scanned k r ->
                       (length r
                        < length (c :: esc :: h1 :: h2 :: h3 :: h4 :: b :: r2))%nat)
    by (apply Hrec; simpl; lia).
  destruct (is_high_surrogate uni); [|exact Hlone].
  destruct r2 as [|u [|g1 [|g2 [|g3 [|g4 [|x r3]]]]]]; try exact Hlone.
  destruct ((b =? 92) && (u =? 117)); [|exact Hlone].
  destruct (hex4 g1 g2 g3 g4) as [uni2|]; [|split; discriminate].
  destruct (is_low_surrogate uni2); [|exact Hlone].
  apply Hrec. simpl; lia.
Qed.

Lemma consumes_Fail {A} (msg at_input s : pystr) :
  consumes (@Fail A msg at_input) s.
Proof. split; discriminate. Qed.

Lemma consumes_Error {A} (e : exn) (s : pystr) : consumes (@Error A e) s.
Proof. split; discriminate. Qed.

Lemma consumes_Scanned {A} (a : A) (r s : pystr) :
  (length r < length s)%nat -> consumes (Scanned a r) s.
Proof. intros H. split; [discriminate|]. now intros ? ? [= _ <-]. Qed.

Lemma consumes_shorter {A} (x : scan A) (s s' : pystr) :
  consumes x s -> (length s <= length s')%nat -> consumes x s'.
Proof.
  intros [H1 H2] Hle. split; [exact H1|].
  intros a r Hx. specialize (H2 a r Hx). lia.
Qed.

Lemma consumes_smap {A B} (f : A -> B) (x : scan A) (s : pystr) :
  consumes x s -> consumes (smap f x) s.
Proof.
  intros [H1 H2]. split; [now apply smap_not_OutOfFuel|].
  intros b r Hb. apply smap_Scanned in Hb. destruct Hb as (a & Ha & _).
  now apply (H2 a).
Qed.

Lemma span_digits_length (s : pystr) :
  (length (snd (span_digits s)) <= length s)%nat.
Proof.
  induction s as [|c s IH]; simpl; [lia|].
  destruct (is_digit c); simpl; [|lia].
  destruct (span_digits s); simpl in *. lia.
Qed.

Lemma digits1_length (s ds r : pystr) :
  digits1 s = Some (ds, r) -> (length r <= length s)%nat.
Proof.
  unfold digits1. pose proof (span_digits_length s) as H.
  destruct (span_digits s) as [[|d ds'] r']; [discriminate|].
  intros [= _ <-]. exact H.
Qed.

Lemma number_sign_length (s : pystr) :
  (length (snd (number_sign s)) <= length s)%nat.
Proof.
  destruct s as [|c r]; simpl; [lia|]. destruct (c =? 45); simpl; lia.
Qed.

Lemma number_integer_length (s int_part r : pystr) :
  number_integer s = Some (int_part, r) -> (length r < length s)%nat.
Proof.
  destruct s as [|c r0]; simpl; [discriminate|].
  destruct (c =? 48); [intros [= _ <-]; lia|].
  destruct (is_digit c); [|discriminate].
  pose proof (span_digits_length r0) as H.
  destruct (span_digits r0) as [ds r']. intros [= _ <-]. simpl in H. lia.
Qed.

Lemma number_fraction_length (s : pystr) :
  (length (snd (number_fraction s)) <= length s)%nat.
Proof.
  destruct s as [|c r]; simpl; [lia|]. destruct (c =? 46); simpl; [|lia].
  destruct (digits1 r) as [[ds r']|] eqn:Hd; simpl; [|lia].
  apply digits1_length in Hd. lia.
Qed.

Lemma number_exponent_length (s : pystr) :
  (length (snd (number_exponent s)) <= length s)%nat.
Proof.
  destruct s as [|e r]; simpl; [lia|].
  destruct ((e =? 101) || (e =? 69)); simpl; [|lia].
  destruct r as [|c r']; simpl.
  - destruct (digits1 []) as [[ds r'']|] eqn:Hd; simpl; [|lia].
    apply digits1_length in Hd. simpl in Hd. lia.
  - destruct ((c =? 45) || (c =? 43)).
    + destruct (digits1 r') as [[ds r'']|] eqn:Hd; simpl; [|lia].
      apply digits1_length in Hd. lia.
    + destruct (digits1 (c :: r')) as [[ds r'']|] eqn:Hd; simpl; [|lia].
      apply digits1_length in Hd. simpl in Hd. lia.
Qed.

Lemma match_number_consumes (s integer fraction exponent r : pystr) :
  match_number s = Some (integer, fraction, exponent, r) ->
  (length r < length s)%nat.
Proof.
  unfold match_number.
  pose proof (number_sign_length s) as H1.
  destruct (number_sign s) as [sign s1].
  destruct (number_integer s1) as [[int_part s2]|] eqn:Hi; [|discriminate].
  apply number_integer_length in Hi.
  pose proof (number_fraction_length s2) as H3.
  destruct (number_fraction s2) as [frac s3].
  pose proof (number_exponent_length s3) as H4.
  destruct (number_exponent s3) as [exp s4].
  simpl in *. intros [= _ _ _ <-]. lia.
Qed.

Lemma length_str_of (name : string) :
  length (str_of name) = String.length name.
Proof.
  unfold str_of. rewrite length_map.
  induction name as [|a name IH]; simpl; [reflexivity|now rewrite IH].
Qed.

Lemma starts_with_length (p s : pystr) :
  starts_with p s = true -> (length p <= length s)%nat.
Proof.
  revert s. induction p as [|x p IH]; intros s; simpl; [lia|].
  destruct s as [|c s]; [discriminate|].
  intros H. apply andb_true_iff in H. destruct H as [_ H].
  specialize (IH s H). simpl. lia.
Qed.

Lemma literal_consumes (name : string) (value : json) (s : pystr)
    (x : scan json) :
  (0 < String.length name)%nat ->
  literal name value s = Some x -> consumes x s.
Proof.
  intros Hname. unfold literal.
  destruct (starts_with (str_of name) s) eqn:Hs; [|discriminate].
  intros [= <-]. apply consumes_Scanned.
  apply starts_with_length in Hs. rewrite length_str_of in Hs.
  rewrite length_drop. lia.
Qed.

Ltac split_ws r c r' :=
  let L := fresh "L" in
  pose proof (skip_ws_length r) as L;
  destruct (skip_ws r) as [|c r']; simpl in L.

Lemma number_consumes (decoder : JSONDecoder)
    (integer frac exp r s : pystr) :
  (length r < length s)%nat -> consumes (number decoder integer frac exp r) s.
Proof.
  intros H. unfold number.
  destruct frac, exp; try now apply consumes_Scanned.
  destruct (py_int _ integer); [now apply consumes_Scanned|].
  apply consumes_Error.
Qed.

(** With more fuel than input, none of the three scanning functions runs
    out of fuel, and each leaves less input than it was given. *)
Lemma scan_consumes (decoder : JSONDecoder) (fuel : nat) :
  (forall depth s, (2 * length s < fuel)%nat ->
     consumes (scan_once decoder fuel depth s) s)
  /\ (forall depth s begin pairs, (2 * length s < fuel)%nat ->
        consumes (object_members decoder fuel depth s begin pairs) s)
  /\ (forall depth s values, (2 * length s + 1 < fuel)%nat ->
        consumes (array_items decoder fuel depth s values) s).
Proof.
  induction fuel as [|fuel (IHv & IHo & IHa)]; [repeat split; lia|].
  split; [|split].
  - intros depth s Hs. cbn [scan_once].
    destruct s as [|nextchar r]; [apply consumes_Fail|]. simpl in Hs.
    destruct (nextchar =? 34).
    { apply consumes_smap. eapply consumes_shorter;
        [apply scanstring_consumes|simpl; lia]. }
    destruct (nextchar =? 123).
    { destruct depth as [|depth]; [apply consumes_Error|].
      split_ws r c r2; [apply consumes_Fail|].
      destruct (c =? 125); [apply consumes_Scanned; simpl; lia|].
      destruct (c =? 34); [|apply consumes_Fail].
      eapply consumes_shorter; [apply IHo; lia|simpl; lia]. }
    destruct (nextchar =? 91).
    { destruct depth as [|depth]; [apply consumes_Error|].
      split_ws r c r2.
      - eapply consumes_shorter; [apply IHa; simpl; lia|simpl; lia].
      - destruct (c =? 93); [apply consumes_Scanned; simpl; lia|].
        eapply consumes_shorter; [apply IHa; simpl; lia|simpl; lia]. }
    destruct (literal "null" JNull (nextchar :: r)) as [x|] eqn:L1;
      [eapply literal_consumes; [|exact L1]; simpl; lia|].
    destruct (literal "true" (JBool true) (nextchar :: r)) as [x|] eqn:L2;
      [eapply literal_consumes; [|exact L2]; simpl; lia|].
    destruct (literal "false" (JBool false) (nextchar :: r)) as [x|] eqn:L3;
      [eapply literal_consumes; [|exact L3]; simpl; lia|].
    destruct (match_number (nextchar :: r)) as [[[[integer frac] exp] r']|]
      eqn:Hn.
    { apply number_consumes. now apply match_number_consumes in Hn. }
    destruct (parse_constant decoder); [|apply consumes_Fail].
    destruct (literal "NaN" _ (nextchar :: r)) as [x|] eqn:L4;
      [eapply literal_consumes; [|exact L4]; simpl; lia|].
    destruct (literal "Infinity" _ (nextchar :: r)) as [x|] eqn:L5;
      [eapply literal_consumes; [|exact L5]; simpl; lia|].
    destruct (literal "-Infinity" _ (nextchar :: r)) as [x|] eqn:L6;
      [eapply literal_consumes; [|exact L6]; simpl; lia|].
    apply consumes_Fail.
  - intros depth s begin pairs Hs. cbn [object_members].
    destruct (scanstring_consumes s begin) as [Hk1 Hk2].
    destruct (scanstring s begin) as [key r| | |];
      [|apply consumes_Fail|apply consumes_Error|congruence].
    specialize (Hk2 key r eq_refl).
    split_ws r c r2; [apply consumes_Fail|].
    destruct (c =? 58); [|apply consumes_Fail].
    pose proof (skip_ws_length r2) as L2.
    destruct (IHv depth (skip_ws r2) ltac:(lia)) as [Hv1 Hv2].
    destruct (scan_once decoder fuel depth (skip_ws r2)) as [value r4| | |];
      [|apply consumes_Fail|apply consumes_Error|congruence].
    specialize (Hv2 value r4 eq_refl).
    split_ws r4 d r6; [apply consumes_Fail|].
    destruct (d =? 125); [apply consumes_Scanned; lia|].
    destruct (d =? 44); [|apply consumes_Fail].
    split_ws r6 q r8; [apply consumes_Fail|].
    destruct (q =? 34); [|apply consumes_Fail].
    eapply consumes_shorter; [apply IHo; lia|lia].
  - intros depth s values Hs. cbn [array_items].
    destruct (IHv depth s ltac:(lia)) as [Hv1 Hv2].
    destruct (scan_once decoder fuel depth s) as [value r| | |];
      [|apply consumes_Fail|apply consumes_Error|congruence].
    specialize (Hv2 value r eq_refl).
    split_ws r c r2; [apply consumes_Fail|].
    destruct (c =? 93); [apply consumes_Scanned; simpl; lia|].
    destruct (c =? 44); [|apply consumes_Fail].
    pose proof (skip_ws_length r2) as L2.
    eapply consumes_shorter; [apply IHa; lia|simpl; lia].
Qed.

(** The decoder is given enough fuel. *)
Lemma decode_fuel (decoder : JSONDecoder) (depth : nat) (raw : pystr) :
  scan_once decoder (S (2 * length raw)) depth (skip_ws raw) <> OutOfFuel.
Proof.
  pose proof (skip_ws_length raw) as L.
  exact (proj1 (proj1 (scan_consumes decoder (S (2 * length raw)))
                  depth (skip_ws raw) ltac:(lia))).
Qed.

(** ** What the decoder returns and raises *)

Lemma rest_of_refl (s : pystr) : rest_of s s.
Proof. now exists []. Qed.

Lemma rest_of_trans (r s t : pystr) : rest_of r s -> rest_of s t -> rest_of r t.
Proof.
  intros [a ->] [b ->]. exists (b ++ a). now rewrite <- app_assoc.
Qed.

Lemma rest_of_cons (c : N) (r s : pystr) : rest_of r s -> rest_of r (c :: s).
Proof. intros [a ->]. now exists (c :: a). Qed.

Lemma rest_of_app (read r : pystr) : rest_of r (read ++ r).
Proof. now exists read. Qed.

Lemma rest_of_length (r s : pystr) : rest_of r s -> (length r <= length s)%nat.
Proof. intros [a ->]. rewrite length_app. lia. Qed.

Lemma opens_app (a b : pystr) : opens (a ++ b) = (opens a + opens b)%nat.
Proof. induction a as [|c a IH]; simpl; [reflexivity|]. rewrite IH. lia. Qed.

Lemma rest_of_opens (r s : pystr) : rest_of r s -> (opens r <= opens s)%nat.
Proof. intros [a ->]. rewrite opens_app. lia. Qed.

Lemma rest_of_digit_run (n : nat) (r s : pystr) :
  rest_of r s -> digit_run n r -> digit_run n s.
Proof.
  intros [a ->] (before & digits & after & -> & Hn & Hd).
  exists (a ++ before), digits, after. now rewrite <- app_assoc.
Qed.

Lemma rest_of_occurs_in (part r s : pystr) :
  rest_of r s -> occurs_in part r -> occurs_in part s.
Proof.
  intros [a ->] (before & after & ->). exists (a ++ before), after.
  now rewrite <- app_assoc.
Qed.

Lemma skip_ws_rest (s : pystr) : rest_of (skip_ws s) s.
Proof.
  induction s as [|c s IH]; simpl; [apply rest_of_refl|].
  destruct (is_ws c); [now apply rest_of_cons|apply rest_of_refl].
Qed.

(** [scanstring] leaves a part of its input and raises nothing but
    [JSONDecodeError]. *)
Lemma scanstring_rest (s begin : pystr) :
  match scanstring s begin with
  | Scanned _ r => rest_of r s
  | Error _ => False
  | _ => True
  end.
Proof.
  remember (length s) as n eqn:Hn. revert s Hn.
  induction n as [n IH] using lt_wf_ind. intros s ->.
  assert (Hrec : forall s' (f : pystr -> pystr),
             (length s' < length s)%nat -> rest_of s' s ->
             match smap f (scanstring s' begin) with
             | Scanned _ r => rest_of r s
             | Error _ => False
             | _ => True
             end).
  { intros s' f Hlt Hrest.
    specialize (IH (length s') Hlt s' eq_refl).
    destruct (scanstring s' begin); simpl; try exact I; [|exact IH].
    now apply (rest_of_trans _ s'). }
  clear IH.
  destruct s as [|c r]; [exact I|].
  cbn [scanstring].
  destruct (c =? 34); [apply rest_of_cons, rest_of_refl|].
  destruct (c =? 92).
  2:{ destruct (c <? 32); [exact I|].
      apply Hrec; [simpl; lia|apply rest_of_cons, rest_of_refl]. }
  destruct r as [|esc r1]; [exact I|].
  destruct (esc =? 117).
  2:{ destruct (backslash esc); [|exact I].
      apply Hrec; [simpl; lia|do 2 apply rest_of_cons; apply rest_of_refl]. }
  destruct r1 as [|h1 [|h2 [|h3 [|h4 [|b r2]]]]]; try exact I.
  destruct (hex4 h1 h2 h3 h4) as [uni|]; [|exact I].
  scan_step.
  assert (Hlone : match smap (cons uni) (scanstring (b :: r2) begin) with
                  | Scanned _ r =>
                    rest_of r (c :: esc :: h1 :: h2 :: h3 :: h4 :: b :: r2)
                  | Error _ => False
                  | _ => True
                  end)
    by (apply Hrec; [simpl; lia|do 6 apply rest_of_cons; apply rest_of_refl]).
  destruct (is_high_surrogate uni); [|exact Hlone].
  destruct r2 as [|u [|g1 [|g2 [|g3 [|g4 [|x r3]]]]]]; try exact Hlone.
  destruct ((b =? 92) && (u =? 117)); [|exact Hlone].
  destruct (hex4 g1 g2 g3 g4) as [uni2|]; [|exact I].
  destruct (is_low_surrogate uni2); [|exact Hlone].
  apply Hrec; [simpl; lia|do 12 apply rest_of_cons; apply rest_of_refl].
Qed.

Lemma span_digits_app (s : pystr) :
  s = fst (span_digits s) ++ snd (span_digits s).
Proof.
  induction s as [|c s IH]; simpl; [reflexivity|].
  destruct (is_digit c); [|reflexivity].
  destruct (span_digits s) as [ds r]. simpl in *. now rewrite <- IH.
Qed.

Lemma digits1_app (s ds r : pystr) : digits1 s = Some (ds, r) -> s = ds ++ r.
Proof.
  unfold digits1. pose proof (span_digits_app s) as H.
  destruct (span_digits s) as [[|d ds'] r']; [discriminate|].
  now intros [= <- <-].
Qed.

Lemma number_sign_app (s : pystr) :
  s = fst (number_sign s) ++ snd (number_sign s).
Proof.
  destruct s as [|c r]; simpl; [reflexivity|].
  destruct (c =? 45) eqn:Hc; [|reflexivity].
  apply N.eqb_eq in Hc. now subst c.
Qed.

Lemma number_integer_app (s int_part r : pystr) :
  number_integer s = Some (int_part, r) -> s = int_part ++ r.
Proof.
  destruct s as [|c r0]; simpl; [discriminate|].
  destruct (c =? 48) eqn:Hc.
  { apply N.eqb_eq in Hc. subst c. now intros [= <- <-]. }
  destruct (is_digit c); [|discriminate].
  pose proof (span_digits_app r0) as H.
  destruct (span_digits r0) as [ds r']. intros [= <- <-]. simpl in *.
  now rewrite <- H.
Qed.

Lemma number_fraction_app (s : pystr) :
  s = fst (number_fraction s) ++ snd (number_fraction s).
Proof.
  destruct s as [|c r]; simpl; [reflexivity|].
  destruct (c =? 46) eqn:Hc; [|reflexivity].
  destruct (digits1 r) as [[ds r']|] eqn:Hd; [|reflexivity].
  apply digits1_app in Hd. apply N.eqb_eq in Hc. subst. reflexivity.
Qed.

Lemma number_exponent_app (s : pystr) :
  s = fst (number_exponent s) ++ snd (number_exponent s).
Proof.
  destruct s as [|e r]; simpl; [reflexivity|].
  destruct ((e =? 101) || (e =? 69)); [|reflexivity].
  destruct r as [|c r']; simpl.
  - reflexivity.
  - destruct ((c =? 45) || (c =? 43)).
    + destruct (digits1 r') as [[ds r'']|] eqn:Hd; [|reflexivity].
      apply digits1_app in Hd. simpl. now rewrite <- Hd.
    + destruct (digits1 (c :: r')) as [[ds r'']|] eqn:Hd; [|reflexivity].
      apply digits1_app in Hd. simpl. now rewrite <- Hd.
Qed.

Lemma span_digits_digits (s : pystr) :
  Forall (fun c => is_digit c = true) (fst (span_digits s)).
Proof.
  induction s as [|c s IH]; simpl; [constructor|].
  destruct (is_digit c) eqn:Hc; [|constructor].
  destruct (span_digits s) as [ds r]. simpl in *. now constructor.
Qed.

Lemma number_integer_digits (s int_part r : pystr) :
  number_integer s = Some (int_part, r) ->
  Forall (fun c => is_digit c = true) int_part
  /\ number_sign int_part = ([], int_part).
Proof.
  destruct s as [|c r0]; simpl; [discriminate|].
  destruct (c =? 48) eqn:Hzero.
  { apply N.eqb_eq in Hzero. subst c. intros [= <- <-].
    split; [now repeat constructor|reflexivity]. }
  destruct (is_digit c) eqn:Hc; [|discriminate].
  pose proof (span_digits_digits r0) as H.
  destruct (span_digits r0) as [ds r']. intros [= <- <-]. simpl in *.
  split; [now constructor|].
  destruct (c =? 45) eqn:Hminus; [|reflexivity].
  apply N.eqb_eq in Hminus. now subst c.
Qed.

(** The digits that [int] counts in a match of [integer]. *)
Lemma match_number_digits (s integer fraction exponent r : pystr) :
  match_number s = Some (integer, fraction, exponent, r) ->
  Forall (fun c => is_digit c = true) (snd (number_sign integer)).
Proof.
  unfold match_number.
  destruct s as [|c s']; [discriminate|]. cbn [number_sign].
  destruct (c =? 45) eqn:Hminus.
  - destruct (number_integer s') as [[int_part s2]|] eqn:Hi; [|discriminate].
    apply number_integer_digits in Hi. destruct Hi as [Hd _].
    destruct (number_fraction s2) as [frac s3].
    destruct (number_exponent s3) as [exp s4].
    intros [= <- _ _ _]. cbn [app number_sign]. now rewrite N.eqb_refl.
  - destruct (number_integer (c :: s')) as [[int_part s2]|] eqn:Hi;
      [|discriminate].
    apply number_integer_digits in Hi. destruct Hi as [Hd Hsign].
    destruct (number_fraction s2) as [frac s3].
    destruct (number_exponent s3) as [exp s4].
    intros [= <- _ _ _]. cbn [app]. now rewrite Hsign.
Qed.

(** The three groups of a number and the rest make up the input. *)
Lemma match_number_app (s integer fraction exponent r : pystr) :
  match_number s = Some (integer, fraction, exponent, r) ->
  s = integer ++ fraction ++ exponent ++ r.
Proof.
  unfold match_number.
  pose proof (number_sign_app s) as H1.
  destruct (number_sign s) as [sign s1].
  destruct (number_integer s1) as [[int_part s2]|] eqn:Hi; [|discriminate].
  apply number_integer_app in Hi.
  pose proof (number_fraction_app s2) as H3.
  destruct (number_fraction s2) as [frac s3].
  pose proof (number_exponent_app s3) as H4.
  destruct (number_exponent s3) as [exp s4].
  simpl in *. intros [= <- <- <- <-]. subst s1.
  rewrite H1, <- !app_assoc. f_equal. f_equal. now rewrite <- H4.
Qed.

Lemma starts_with_app (p s : pystr) :
  starts_with p s = true -> s = p ++ drop (length p) s.
Proof.
  revert s. induction p as [|x p IH]; intros s; simpl; [reflexivity|].
  destruct s as [|c s]; [discriminate|].
  intros H. apply andb_true_iff in H. destruct H as [Hx H].
  apply N.eqb_eq in Hx. subst c. simpl. f_equal. now apply IH.
Qed.

Lemma literal_app (name : string) (value : json) (s : pystr) (x : scan json) :
  literal name value s = Some x ->
  exists r, x = Scanned value r /\ s = str_of name ++ r.
Proof.
  unfold literal.
  destruct (starts_with (str_of name) s) eqn:Hs; [|discriminate].
  intros [= <-]. eexists. split; [reflexivity|].
  apply starts_with_app in Hs. now rewrite length_str_of in Hs.
Qed.

Lemma scan_fact_rest (decoder : JSONDecoder) (allowed bound : nat)
    (r s : pystr) (x : scan json) :
  rest_of r s -> scan_fact decoder allowed bound r x ->
  scan_fact decoder allowed bound s x.
Proof.
  intros Hrs. destruct x as [v r'| |e|]; simpl; try exact id.
  - intros [H1 H2]. split; [now apply (rest_of_trans _ r)|exact H2].
  - pose proof (rest_of_opens r s Hrs).
    intros [[-> H']|(digits & most & -> & Hmost & Hlt & Hd)];
      [left; split; [reflexivity|lia]|].
    right. exists digits, most. repeat split; try assumption.
    now apply (rest_of_digit_run digits r s).
Qed.

(** What is found inside a container counts for the container. *)
Lemma scan_fact_enter (decoder : JSONDecoder) (depth : nat) (c : N)
    (r s : pystr) (x : scan json) :
  (c =? 91) || (c =? 123) = true ->
  rest_of r s ->
  scan_fact decoder depth (S depth) r x ->
  scan_fact decoder (S depth) (S depth) (c :: s) x.
Proof.
  intros Hc Hrs. destruct x as [v r'| |e|]; simpl; try exact id.
  - intros [H1 H2]. split; [|exact H2].
    apply rest_of_cons. now apply (rest_of_trans _ r).
  - rewrite Hc.
    pose proof (rest_of_opens r s Hrs).
    intros [[-> H']|(digits & most & -> & Hmost & Hlt & Hd)];
      [left; split; [reflexivity|lia]|].
    right. exists digits, most. repeat split; try assumption.
    apply (rest_of_digit_run digits r (c :: s)); [|exact Hd].
    now apply rest_of_cons.
Qed.

Lemma scan_fact_literal (decoder : JSONDecoder) (depth : nat) (name : string)
    (value : json) (s : pystr) (x : scan json) :
  json_depth value = O ->
  literal name value s = Some x -> scan_fact decoder depth depth s x.
Proof.
  intros Hv Hl. apply literal_app in Hl. destruct Hl as (r & -> & ->).
  simpl. split; [apply rest_of_app|lia].
Qed.

Lemma scan_fact_number (decoder : JSONDecoder) (depth : nat)
    (s integer fraction exponent r : pystr) :
  match_number s = Some (integer, fraction, exponent, r) ->
  scan_fact decoder depth depth s (number decoder integer fraction exponent r).
Proof.
  intros Hn. pose proof (match_number_digits _ _ _ _ _ Hn) as Hdigits.
  apply match_number_app in Hn.
  assert (Hrest : rest_of r s).
  { exists (integer ++ fraction ++ exponent). now rewrite <- !app_assoc. }
  unfold number.
  destruct fraction, exponent; try (simpl; split; [exact Hrest|lia]).
  unfold py_int.
  pose proof (number_sign_app integer) as Hsign.
  destruct (number_sign integer) as [sign digits]. simpl in Hsign, Hdigits.
  destruct (max_str_digits decoder) as [most|] eqn:Hmost.
  - destruct (most <? length digits)%nat eqn:Hover.
    + simpl. right. exists (length digits), most.
      split; [reflexivity|]. split; [exact Hmost|].
      apply Nat.ltb_lt in Hover. split; [exact Hover|].
      exists sign, digits, r. rewrite Hn, Hsign. simpl.
      now rewrite <- app_assoc.
    + destruct (bool_decide (digits = [48])); simpl; (split; [exact Hrest|lia]).
  - destruct (bool_decide (digits = [48])); simpl; (split; [exact Hrest|lia]).
Qed.

Lemma json_depth_JObj (pairs : list (pystr * json)) (depth : nat) :
  Forall (fun kv => (json_depth (snd kv) <= depth)%nat) pairs ->
  (json_depth (JObj pairs) <= S depth)%nat.
Proof.
  intros H. cbn [json_depth]. apply le_n_S. apply list_max_le.
  apply List.Forall_forall. intros n Hn. apply in_map_iff in Hn.
  destruct Hn as (kv & <- & Hkv).
  rewrite List.Forall_forall in H. now apply H.
Qed.

Lemma json_depth_JArr (values : list json) (depth : nat) :
  Forall (fun v => (json_depth v <= depth)%nat) values ->
  (json_depth (JArr values) <= S depth)%nat.
Proof.
  intros H. cbn [json_depth]. apply le_n_S. apply list_max_le.
  apply List.Forall_forall. intros n Hn. apply in_map_iff in Hn.
  destruct Hn as (v & <- & Hv).
  rewrite List.Forall_forall in H. now apply H.
Qed.

Lemma dict_setitem_depth (pairs : list (pystr * json)) (key : pystr)
    (value : json) (depth : nat) :
  Forall (fun kv => (json_depth (snd kv) <= depth)%nat) pairs ->
  (json_depth value <= depth)%nat ->
  Forall (fun kv => (json_depth (snd kv) <= depth)%nat)
         (dict_setitem pairs key value).
Proof.
  intros H Hv. induction H as [|[k v] pairs Hk Hrest IH]; simpl.
  - now repeat constructor.
  - destruct (bool_decide (k = key)); constructor; simpl in *; assumption.
Qed.

(** Whatever the fuel: what is returned nests no deeper than was allowed
    and leaves a part of the input; [RecursionError] takes more opening
    brackets than may be entered, and the only other exception is the
    refusal of a long integer. *)
Lemma scan_facts (decoder : JSONDecoder) (fuel : nat) :
  (forall depth s, scan_fact decoder depth depth s
                     (scan_once decoder fuel depth s))
  /\ (forall depth s begin pairs,
        Forall (fun kv => (json_depth (snd kv) <= depth)%nat) pairs ->
        scan_fact decoder depth (S depth) s
          (object_members decoder fuel depth s begin pairs))
  /\ (forall depth s values,
        Forall (fun v => (json_depth v <= depth)%nat) values ->
        scan_fact decoder depth (S depth) s
          (array_items decoder fuel depth s values)).
Proof.
  induction fuel as [|fuel (IHv & IHo & IHa)]; [repeat split|].
  split; [|split].
  - intros depth s. cbn [scan_once].
    destruct s as [|nextchar r]; [exact I|].
    destruct (nextchar =? 34).
    { pose proof (scanstring_rest r (nextchar :: r)) as Hs.
      destruct (scanstring r (nextchar :: r)); simpl; try exact I;
        [|destruct Hs].
      split; [now apply rest_of_cons|lia]. }
    destruct (nextchar =? 123) eqn:Hbrace.
    { destruct depth as [|depth].
      { simpl. left. split; [reflexivity|]. rewrite Hbrace, orb_true_r. lia. }
      destruct (skip_ws r) as [|c r2] eqn:Hws; [exact I|].
      assert (Hr2 : rest_of r2 r).
      { apply (rest_of_trans _ (skip_ws r)); [|apply skip_ws_rest].
        rewrite Hws. apply rest_of_cons, rest_of_refl. }
      destruct (c =? 125).
      { simpl. split; [now apply rest_of_cons|lia]. }
      destruct (c =? 34); [|exact I].
      apply (scan_fact_enter decoder depth nextchar r2 r);
        [now rewrite Hbrace, orb_true_r|exact Hr2|].
      apply IHo. constructor. }
    destruct (nextchar =? 91) eqn:Hbracket.
    { destruct depth as [|depth].
      { simpl. left. split; [reflexivity|]. rewrite Hbracket. simpl. lia. }
      assert (Hitems : scan_fact decoder (S depth) (S depth) (nextchar :: r)
                         (array_items decoder fuel depth (skip_ws r) [])).
      { apply (scan_fact_enter decoder depth nextchar (skip_ws r) r);
          [now rewrite Hbracket|apply skip_ws_rest|].
        apply IHa. constructor. }
      destruct (skip_ws r) as [|c r2] eqn:Hws; [exact Hitems|].
      destruct (c =? 93); [|exact Hitems].
      simpl. split; [|lia]. apply rest_of_cons.
      apply (rest_of_trans _ (skip_ws r)); [|apply skip_ws_rest].
      rewrite Hws. apply rest_of_cons, rest_of_refl. }
    destruct (literal "null" JNull (nextchar :: r)) as [x|] eqn:L1;
      [eapply scan_fact_literal; [|exact L1]; reflexivity|].
    destruct (literal "true" (JBool true) (nextchar :: r)) as [x|] eqn:L2;
      [eapply scan_fact_literal; [|exact L2]; reflexivity|].
    destruct (literal "false" (JBool false) (nextchar :: r)) as [x|] eqn:L3;
      [eapply scan_fact_literal; [|exact L3]; reflexivity|].
    destruct (match_number (nextchar :: r)) as [[[[integer frac] exp] r']|]
      eqn:Hn; [now apply scan_fact_number|].
    destruct (parse_constant decoder); [|exact I].
    destruct (literal "NaN" _ (nextchar :: r)) as [x|] eqn:L4;
      [eapply scan_fact_literal; [|exact L4]; reflexivity|].
    destruct (literal "Infinity" _ (nextchar :: r)) as [x|] eqn:L5;
      [eapply scan_fact_literal; [|exact L5]; reflexivity|].
    destruct (literal "-Infinity" _ (nextchar :: r)) as [x|] eqn:L6;
      [eapply scan_fact_literal; [|exact L6]; reflexivity|].
    exact I.
  - intros depth s begin pairs Hpairs. cbn [object_members].
    pose proof (scanstring_rest s begin) as Hkey.
    destruct (scanstring s begin) as [key r| | |]; try exact I; [|destruct Hkey].
    destruct (skip_ws r) as [|c r2] eqn:Hws; [exact I|].
    assert (Hr2 : rest_of r2 s).
    { apply (rest_of_trans _ r); [|exact Hkey].
      apply (rest_of_trans _ (skip_ws r)); [|apply skip_ws_rest].
      rewrite Hws. apply rest_of_cons, rest_of_refl. }
    destruct (c =? 58); [|exact I].
    assert (Hr3 : rest_of (skip_ws r2) s)
      by (apply (rest_of_trans _ r2); [apply skip_ws_rest|exact Hr2]).
    pose proof (IHv depth (skip_ws r2)) as Hv.
    destruct (scan_once decoder fuel depth (skip_ws r2)) as [value r4| |e|];
      try exact I.
    2:{ apply (scan_fact_rest decoder depth (S depth) (skip_ws r2) s _ Hr3).
        exact Hv. }
    destruct Hv as [Hr4 Hdepth].
    pose proof (dict_setitem_depth pairs key value depth Hpairs Hdepth)
      as Hpairs'.
    destruct (skip_ws r4) as [|d r6] eqn:Hws4; [exact I|].
    assert (Hr6 : rest_of r6 s).
    { apply (rest_of_trans _ (skip_ws r2)); [|exact Hr3].
      apply (rest_of_trans _ r4); [|exact Hr4].
      apply (rest_of_trans _ (skip_ws r4)); [|apply skip_ws_rest].
      rewrite Hws4. apply rest_of_cons, rest_of_refl. }
    destruct (d =? 125).
    { split; [exact Hr6|now apply json_depth_JObj]. }
    destruct (d =? 44); [|exact I].
    destruct (skip_ws r6) as [|q r8] eqn:Hws6; [exact I|].
    destruct (q =? 34); [|exact I].
    apply (scan_fact_rest decoder depth (S depth) r8 s); [|now apply IHo].
    apply (rest_of_trans _ r6); [|exact Hr6].
    apply (rest_of_trans _ (skip_ws r6)); [|apply skip_ws_rest].
    rewrite Hws6. apply rest_of_cons, rest_of_refl.
  - intros depth s values Hvalues. cbn [array_items].
    pose proof (IHv depth s) as Hv.
    destruct (scan_once decoder fuel depth s) as [value r| |e|]; try exact I.
    2:{ exact Hv. }
    destruct Hv as [Hr Hdepth].
    assert (Hvalues' : Forall (fun v => (json_depth v <= depth)%nat)
                         (values ++ [value])).
    { apply Forall_app. split; [exact Hvalues|now repeat constructor]. }
    destruct (skip_ws r) as [|c r2] eqn:Hws; [exact I|].
    assert (Hr2 : rest_of r2 s).
    { apply (rest_of_trans _ r); [|exact Hr].
      apply (rest_of_trans _ (skip_ws r)); [|apply skip_ws_rest].
      rewrite Hws. apply rest_of_cons, rest_of_refl. }
    destruct (c =? 93).
    { split; [exact Hr2|now apply json_depth_JArr]. }
    destruct (c =? 44); [|exact I].
    apply (scan_fact_rest decoder depth (S depth) (skip_ws r2) s);
      [|now apply IHa].
    apply (rest_of_trans _ r2); [apply skip_ws_rest|exact Hr2].
Qed.

(** [JSONDecoder.decode] returns a value that nests no deeper than it was
    allowed to, raises [JSONDecodeError] with the whole text in it, raises
    [RecursionError] on a text with more opening brackets than may be
    entered, or refuses an integer of more digits than the limit. *)
Lemma decode_total (decoder : JSONDecoder) (depth : nat) (raw : pystr) :
  match JSONDecoder_decode decoder depth raw with
  | Ok v => (json_depth v <= depth)%nat
  | Raise e =>
    (exists msg pos, e = JSONDecodeError msg raw pos)
    \/ (e = RecursionError /\ (depth < opens raw)%nat)
    \/ int_limit_error decoder raw e
  end.
Proof.
  unfold JSONDecoder_decode.
  destruct (starts_with [65279] raw); [left; eauto|].
  pose proof (decode_fuel decoder depth raw) as Hfuel.
  pose proof (scan_fact_rest decoder depth depth (skip_ws raw) raw _
                (skip_ws_rest raw)
                (proj1 (scan_facts decoder (S (2 * length raw))) depth
                   (skip_ws raw))) as Hfact.
  destruct (scan_once decoder (S (2 * length raw)) depth (skip_ws raw))
    as [obj rest|msg at_input|e|]; [|left; eauto| |congruence].
  - destruct Hfact as [_ Hd]. destruct (skip_ws rest); [exact Hd|left; eauto].
  - destruct Hfact as [H|H]; [right; left; exact H|right; right; exact H].
Qed.

(** ** Texts that are read although they are no JSON *)

Lemma literal_occurs_in (name : string) (value : json) (s raw : pystr)
    (x : scan json) :
  literal name value s = Some x -> rest_of s raw ->
  occurs_in (str_of name) raw.
Proof.
  intros Hl [read ->]. apply literal_app in Hl. destruct Hl as (r & _ & ->).
  now exists read, r.
Qed.

Lemma occurs_in_minus_Infinity (raw : pystr) :
  occurs_in (str_of "-Infinity") raw -> occurs_in (str_of "Infinity") raw.
Proof.
  intros (before & after & ->). exists (before ++ [45]), after.
  now rewrite <- !app_assoc.
Qed.

(** Without a limit [int] converts every match of [integer]. *)
Lemma number_RFC8259 (decoder : JSONDecoder)
    (integer fraction exponent r r' : pystr) (v : json) :
  number decoder integer fraction exponent r = Scanned v r' ->
  exists v', number RFC8259 integer fraction exponent r = Scanned v' r'.
Proof.
  unfold number.
  destruct fraction, exponent; try (intros [= _ <-]; eauto).
  intros H. assert (r' = r) as ->.
  { destruct (py_int _ integer); [now injection H|discriminate]. }
  unfold py_int. destruct (number_sign integer) as [sign digits].
  cbn [max_str_digits RFC8259].
  destruct (bool_decide (digits = [48])); eauto.
Qed.

Section not_json.
Variable decoder : JSONDecoder.
Variable raw : pystr.
Hypothesis no_NaN : ~ occurs_in (str_of "NaN") raw.
Hypothesis no_Infinity : ~ occurs_in (str_of "Infinity") raw.

(** In a text that names none of the three constants, what the decoder
    reads is read by the decoder of JSON proper as well, which enters every
    container of a text no longer than its allowance. *)
Lemma scan_RFC8259 (fuel : nat) :
  (forall depth depth' s v r,
     rest_of s raw -> (depth <= depth' \/ length s <= depth')%nat ->
     scan_once decoder fuel depth s = Scanned v r ->
     exists v', scan_once RFC8259 fuel depth' s = Scanned v' r)
  /\ (forall depth depth' s begin pairs pairs' v r,
        rest_of s raw -> (depth <= depth' \/ length s <= depth')%nat ->
        object_members decoder fuel depth s begin pairs = Scanned v r ->
        exists v',
          object_members RFC8259 fuel depth' s begin pairs' = Scanned v' r)
  /\ (forall depth depth' s values values' v r,
        rest_of s raw -> (depth <= depth' \/ length s <= depth')%nat ->
        array_items decoder fuel depth s values = Scanned v r ->
        exists v',
          array_items RFC8259 fuel depth' s values' = Scanned v' r).
Proof using no_NaN no_Infinity.
  induction fuel as [|fuel (IHv & IHo & IHa)];
    [repeat split; intros; discriminate|].
  split; [|split].
  - intros depth depth' s v r Hraw Hdepth. cbn [scan_once].
    destruct s as [|nextchar r0]; [discriminate|].
    destruct (nextchar =? 34).
    { destruct (scanstring r0 (nextchar :: r0)); simpl; try discriminate.
      intros [= _ <-]. eauto. }
    assert (Hinner : forall s', rest_of s' r0 ->
              rest_of s' raw
              /\ forall d, depth = S d ->
                   exists d', depth' = S d'
                              /\ (d <= d' \/ length s' <= d')%nat).
    { intros s' Hs'. split.
      - apply (rest_of_trans _ (nextchar :: r0)); [|exact Hraw].
        now apply rest_of_cons.
      - intros d ->. apply rest_of_length in Hs'. cbn [length] in Hdepth.
        destruct depth' as [|d']; [lia|]. exists d'. split; [reflexivity|lia]. }
    destruct (nextchar =? 123).
    { destruct depth as [|d]; [discriminate|].
      destruct (skip_ws r0) as [|c r2] eqn:Hws; [discriminate|].
      assert (Hr2 : rest_of r2 r0).
      { apply (rest_of_trans _ (skip_ws r0)); [|apply skip_ws_rest].
        rewrite Hws. apply rest_of_cons, rest_of_refl. }
      destruct (Hinner r2 Hr2) as (Hr2raw & Hd).
      destruct (Hd d eq_refl) as (d' & -> & Hd').
      destruct (c =? 125); [intros [= _ <-]; eauto|].
      destruct (c =? 34); [|discriminate].
      apply IHo; assumption. }
    destruct (nextchar =? 91).
    { destruct depth as [|d]; [discriminate|].
      destruct (Hinner (skip_ws r0) (skip_ws_rest r0)) as (Hr1raw & Hd).
      destruct (Hd d eq_refl) as (d' & -> & Hd').
      assert (Hitems : forall v r,
                array_items decoder fuel d (skip_ws r0) [] = Scanned v r ->
                exists v',
                  array_items RFC8259 fuel d' (skip_ws r0) [] = Scanned v' r)
        by (intros v0 r1; apply IHa; assumption).
      destruct (skip_ws r0) as [|c r2]; [apply Hitems|].
      destruct (c =? 93); [intros [= _ <-]; eauto|apply Hitems]. }
    destruct (literal "null" JNull (nextchar :: r0)) as [x|];
      [intros ->; eauto|].
    destruct (literal "true" (JBool true) (nextchar :: r0)) as [x|];
      [intros ->; eauto|].
    destruct (literal "false" (JBool false) (nextchar :: r0)) as [x|];
      [intros ->; eauto|].
    destruct (match_number (nextchar :: r0)) as [[[[integer frac] exp] r']|];
      [apply number_RFC8259|].
    destruct (parse_constant decoder); [|discriminate].
    destruct (literal "NaN" _ (nextchar :: r0)) as [x|] eqn:L4.
    { destruct no_NaN. exact (literal_occurs_in _ _ _ _ _ L4 Hraw). }
    destruct (literal "Infinity" _ (nextchar :: r0)) as [x|] eqn:L5.
    { destruct no_Infinity. exact (literal_occurs_in _ _ _ _ _ L5 Hraw). }
    destruct (literal "-Infinity" _ (nextchar :: r0)) as [x|] eqn:L6.
    { destruct no_Infinity. apply occurs_in_minus_Infinity.
      exact (literal_occurs_in _ _ _ _ _ L6 Hraw). }
    discriminate.
  - intros depth depth' s begin pairs pairs' v r Hraw Hdepth.
    cbn [object_members].
    pose proof (scanstring_rest s begin) as Hkey.
    destruct (scanstring s begin) as [key r0| | |]; try discriminate.
    destruct (skip_ws r0) as [|c r2] eqn:Hws; [discriminate|].
    assert (Hr2 : rest_of r2 s).
    { apply (rest_of_trans _ r0); [|exact Hkey].
      apply (rest_of_trans _ (skip_ws r0)); [|apply skip_ws_rest].
      rewrite Hws. apply rest_of_cons, rest_of_refl. }
    destruct (c =? 58); [|discriminate].
    assert (Hr3 : rest_of (skip_ws r2) s)
      by (apply (rest_of_trans _ r2); [apply skip_ws_rest|exact Hr2]).
    pose proof (proj1 (scan_facts decoder fuel) depth (skip_ws r2)) as Hfact.
    pose proof (IHv depth depth' (skip_ws r2)) as Hv.
    destruct (scan_once decoder fuel depth (skip_ws r2)) as [value r4| | |];
      try discriminate.
    destruct Hfact as [Hr4 _].
    destruct (Hv value r4) as (value' & ->); [| |reflexivity|].
    { now apply (rest_of_trans _ s). }
    { apply rest_of_length in Hr3. lia. }
    destruct (skip_ws r4) as [|d r6] eqn:Hws4; [discriminate|].
    destruct (d =? 125); [intros [= _ <-]; eauto|].
    destruct (d =? 44); [|discriminate].
    destruct (skip_ws r6) as [|q r8] eqn:Hws6; [discriminate|].
    destruct (q =? 34); [|discriminate].
    assert (Hr8 : rest_of r8 s).
    { apply (rest_of_trans _ (skip_ws r2)); [|exact Hr3].
      apply (rest_of_trans _ r4); [|exact Hr4].
      apply (rest_of_trans _ (skip_ws r4)); [|apply skip_ws_rest].
      rewrite Hws4. apply rest_of_cons.
      apply (rest_of_trans _ (skip_ws r6)); [|apply skip_ws_rest].
      rewrite Hws6. apply rest_of_cons, rest_of_refl. }
    apply IHo; [now apply (rest_of_trans _ s)|].
    apply rest_of_length in Hr8. lia.
  - intros depth depth' s values values' v r Hraw Hdepth.
    cbn [array_items].
    pose proof (proj1 (scan_facts decoder fuel) depth s) as Hfact.
    pose proof (IHv depth depth' s) as Hv.
    destruct (scan_once decoder fuel depth s) as [value r0| | |];
      try discriminate.
    destruct Hfact as [Hr0 _].
    destruct (Hv value r0 Hraw Hdepth eq_refl) as (value' & ->).
    destruct (skip_ws r0) as [|c r2] eqn:Hws; [discriminate|].
    destruct (c =? 93); [intros [= _ <-]; eauto|].
    destruct (c =? 44); [|discriminate].
    assert (Hr2 : rest_of (skip_ws r2) s).
    { apply (rest_of_trans _ r2); [apply skip_ws_rest|].
      apply (rest_of_trans _ r0); [|exact Hr0].
      apply (rest_of_trans _ (skip_ws r0)); [|apply skip_ws_rest].
      rewrite Hws. apply rest_of_cons, rest_of_refl. }
    apply IHa; [now apply (rest_of_trans _ s)|].
    apply rest_of_length in Hr2. lia.
Qed.

(** A text that the decoder reads and that names none of the constants is
    JSON. *)
Lemma decode_is_json (depth : nat) (v : json) :
  JSONDecoder_decode decoder depth raw = Ok v -> is_json raw = true.
Proof using no_NaN no_Infinity.
  unfold is_json, JSONDecoder_decode.
  destruct (starts_with [65279] raw); [discriminate|].
  pose proof (proj1 (scan_RFC8259 (S (2 * length raw))) depth (length raw)
                (skip_ws raw)) as Hsim.
  destruct (scan_once decoder (S (2 * length raw)) depth (skip_ws raw))
    as [obj rest| | |]; try discriminate.
  destruct (Hsim obj rest (skip_ws_rest raw)) as (v' & ->); [|reflexivity|].
  { right. apply skip_ws_length. }
  now destruct (skip_ws rest).
Qed.

End not_json.

Lemma starts_with_prefix (p r : pystr) : starts_with p (p ++ r) = true.
Proof. induction p as [|x p IH]; simpl; [reflexivity|]. now rewrite N.eqb_refl. Qed.

Lemma occurs_in_cons (part : pystr) (c : N) (s : pystr) :
  occurs_in part (c :: s)
  <-> starts_with part (c :: s) = true \/ occurs_in part s.
Proof.
  split.
  - intros ([|b before] & after & H).
    + left. simpl in H. rewrite H. apply starts_with_prefix.
    + right. injection H as _ ->. now exists before, after.
  - intros [H|(before & after & ->)].
    + apply starts_with_app in H. exists [], (drop (length part) (c :: s)).
      exact H.
    + now exists (c :: before), after.
Qed.

Lemma occurs_in_dec (part s : pystr) :
  occurs_in part s \/ ~ occurs_in part s.
Proof.
  induction s as [|c s IH].
  - destruct part as [|p part].
    + left. now exists [], [].
    + right. intros ([|b before] & after & H); discriminate H.
  - rewrite occurs_in_cons.
    destruct (starts_with part (c :: s)); [now left; left|].
    destruct IH as [IH|IH]; [now left; right|].
    right. intros [H|H]; [discriminate|contradiction].
Qed.

(** [json.loads] returns a value that nests no deeper than the interpreter
    allows, from a text that is JSON or names one of the constants NaN,
    Infinity and -Infinity; or it raises [JSONDecodeError] with the whole
    text in it, [RecursionError] on a text with more opening brackets than
    the interpreter allows to enter, or [ValueError] on a text with more
    digits in a row than [int] converts. *)
Lemma json_loads_total (rt : Runtime) (raw : pystr) :
  match json_loads rt raw with
  | Ok v =>
    (json_depth v <= recursion_allowance rt)%nat
    /\ (is_json raw = true
        \/ occurs_in (str_of "NaN") raw
        \/ occurs_in (str_of "Infinity") raw)
  | Raise e =>
    (exists msg pos, e = JSONDecodeError msg raw pos)
    \/ (e = RecursionError /\ (recursion_allowance rt < opens raw)%nat)
    \/ (exists digits,
          e = ValueError (int_limit_message digits)
          /\ (int_max_str_digits < digits)%nat
          /\ digit_run digits raw)
  end.
Proof.
  unfold json_loads.
  pose proof (decode_total (default_decoder rt) (recursion_allowance rt) raw)
    as H.
  destruct (JSONDecoder_decode (default_decoder rt) (recursion_allowance rt)
              raw) as [v|e] eqn:Hrun.
  - split; [exact H|].
    destruct (occurs_in_dec (str_of "NaN") raw) as [Hn|Hn]; [now right; left|].
    destruct (occurs_in_dec (str_of "Infinity") raw) as [Hi|Hi];
      [now right; right|].
    left. exact (decode_is_json _ raw Hn Hi _ v Hrun).
  - destruct H as [H|[H|(digits & most & -> & [= <-] & Hlt & Hd)]];
      [now left|now right; left|].
    right; right. now exists digits.
Qed.

Example json_loads_unclosed :
  json_loads bare_runtime (str_of "[[[[")
  = Raise (JSONDecodeError expecting_value (str_of "[[[[") 4).
Proof. reflexivity. Qed.

(** ** A malformed response *)






(** C9 (as the claim states it) fails, in three ways. The text NaN is no
    JSON and is returned as a number. A text of a thousand opening brackets
    is no JSON and makes the call raise [RecursionError], which carries no
    text. And where the service answers the first two attempts with a
    status 500, the one call of [create] sends the request three times
    before the malformed text arrives. *)
Lemma llm_malformed_response_fails :
  let w := world_with (str_of "cv.txt") [] (Some (str_of "sk-1")) in
  let deep := replicate 1000 91 in
  (is_json (str_of "NaN") = false
   /\ fst (llm_extract_resume (runtime_answering (Some (str_of "NaN")))
             (str_of "Ada Lovelace") w)
      = Ok (JNum (str_of "NaN")))
  /\ (is_json deep = false
      /\ fst (llm_extract_resume (runtime_answering (Some deep))
                (str_of "Ada Lovelace") w)
         = Raise RecursionError)
  /\ (is_json (str_of "Sorry, I cannot.") = false
      /\ network_calls w = O
      /\ network_calls
           (snd (llm_extract_resume
                   (runtime_answering_late (Some (str_of "Sorry, I cannot.")))
                   (str_of "Ada Lovelace") w))
         = 3%nat).
Proof. vm_compute. repeat split. Qed.



(** ** Strings that are read back *)

Lemma scanstring_plain (c : N) (r begin : pystr) :
  (c =? 34) = false -> (c =? 92) = false -> (c <? 32) = false ->
  scanstring (c :: r) begin = smap (cons c) (scanstring r begin).
Proof. intros H1 H2 H3. cbn [scanstring]. now rewrite H1, H2, H3. Qed.

Lemma scanstring_backslash (esc ch : N) (r begin : pystr) :
  (esc =? 117) = false -> backslash esc = Some ch ->
  scanstring (92 :: esc :: r) begin = smap (cons ch) (scanstring r begin).
Proof.
  intros H1 H2. cbn [scanstring].
  change (92 =? 34) with false. change (92 =? 92) with true.
  cbv beta iota. now rewrite H1, H2.
Qed.

Lemma scanstring_u00 (h1 h2 uni x : N) (r begin : pystr) :
  hex4 48 48 h1 h2 = Some uni -> is_high_surrogate uni = false ->
  scanstring (92 :: 117 :: 48 :: 48 :: h1 :: h2 :: x :: r) begin
  = smap (cons uni) (scanstring (x :: r) begin).
Proof.
  intros H1 H2. cbn [scanstring].
  change (92 =? 34) with false. change (92 =? 92) with true.
  change (117 =? 117) with true.
  cbv beta iota zeta. now rewrite H1, H2.
Qed.

Lemma hex4_control (c : N) :
  c < 32 -> hex4 48 48 (hex_digit (c / 16)) (hex_digit (c mod 16)) = Some c.
Proof.
  intros Hc.
  assert (Hall : forallb
            (fun c => bool_decide
               (hex4 48 48 (hex_digit (c / 16)) (hex_digit (c mod 16)) = Some c))
            (map N.of_nat (seq 0 32)) = true) by (vm_compute; reflexivity).
  rewrite forallb_forall in Hall.
  eapply bool_decide_eq_true_1, Hall, in_map_iff.
  exists (N.to_nat c). split; [lia|]. apply in_seq. lia.
Qed.

Lemma scanstring_escape_body (s rest begin : pystr) :
  scanstring (escape_body s ++ QUOTE :: rest) begin = Scanned s rest.
Proof.
  induction s as [|c s IH]; [reflexivity|].
  simpl escape_body. unfold escape_char.
  destruct (c =? 34) eqn:E1.
  { simpl app. rewrite (scanstring_backslash 34 34) by reflexivity.
    rewrite IH. apply N.eqb_eq in E1. now subst c. }
  destruct (c =? 92) eqn:E2.
  { simpl app. rewrite (scanstring_backslash 92 92) by reflexivity.
    rewrite IH. apply N.eqb_eq in E2. now subst c. }
  destruct (c =? 10) eqn:E3.
  { simpl app. rewrite (scanstring_backslash 110 10) by reflexivity.
    rewrite IH. apply N.eqb_eq in E3. now subst c. }
  destruct (c =? 13) eqn:E4.
  { simpl app. rewrite (scanstring_backslash 114 13) by reflexivity.
    rewrite IH. apply N.eqb_eq in E4. now subst c. }
  destruct (c =? 9) eqn:E5.
  { simpl app. rewrite (scanstring_backslash 116 9) by reflexivity.
    rewrite IH. apply N.eqb_eq in E5. now subst c. }
  destruct (c =? 8) eqn:E6.
  { simpl app. rewrite (scanstring_backslash 98 8) by reflexivity.
    rewrite IH. apply N.eqb_eq in E6. now subst c. }
  destruct (c =? 12) eqn:E7.
  { simpl app. rewrite (scanstring_backslash 102 12) by reflexivity.
    rewrite IH. apply N.eqb_eq in E7. now subst c. }
  destruct (c <? 32) eqn:E8.
  { simpl app. apply N.ltb_lt in E8.
    destruct (escape_body s ++ QUOTE :: rest) as [|x t] eqn:Ht;
      [now destruct (escape_body s)|].
    rewrite (scanstring_u00 _ _ c); [now rewrite IH|now apply hex4_control|].
    unfold is_high_surrogate. apply andb_false_iff. left. apply N.leb_gt. lia. }
  simpl app. rewrite scanstring_plain by assumption. now rewrite IH.
Qed.

(** ** The serialized text *)

Lemma json_dumps_text (v : json) : json_dumps v = value_text v 0.
Proof. reflexivity. Qed.

Lemma value_text_atom (v : json) (level : nat) :
  is_container v = false -> value_text v level = atom_text v.
Proof.
  unfold value_text.
  destruct v as [|[|]|lit|s|lst|members]; simpl; try discriminate; intros _;
    rewrite ?app_nil_r; reflexivity.
Qed.

Lemma items_text (x : json) (l : list json) (buf separator : pystr)
    (level : nat) :
  concat (iterencode_items (fun v => iterencode v level) (x :: l) buf separator)
  = buf ++ value_text x level
    ++ concat (iterencode_items (fun v => iterencode v level) l
                 separator separator).
Proof.
  cbn [iterencode_items]. rewrite concat_app.
  destruct (is_container x) eqn:Hx.
  - simpl. unfold value_text. now rewrite <- app_assoc.
  - simpl. rewrite app_nil_r, (value_text_atom x level Hx).
    now rewrite <- app_assoc.
Qed.

Lemma members_text (key : pystr) (value : json) (l : list (pystr * json))
    (first : bool) (separator : pystr) (level : nat) :
  concat (iterencode_members (fun v => iterencode v level)
            ((key, value) :: l) first separator)
  = (if first then [] else separator)
    ++ encode_basestring key ++ str_of ": " ++ value_text value level
    ++ concat (iterencode_members (fun v => iterencode v level) l false
                 separator).
Proof.
  cbn [iterencode_members]. rewrite !concat_app.
  destruct (is_container value) eqn:Hc.
  - fold (value_text value level).
    destruct first; simpl; now rewrite ?app_nil_r, <- ?app_assoc.
  - rewrite (value_text_atom value level Hc).
    destruct first; simpl; now rewrite ?app_nil_r, <- ?app_assoc.
Qed.

Lemma array_text (x : json) (l : list json) (level : nat) :
  value_text (JArr (x :: l)) level
  = 91 :: newline_indent (S level) ++ value_text x (S level)
    ++ concat (iterencode_items (fun v => iterencode v (S level)) l
                 (44 :: newline_indent (S level))
                 (44 :: newline_indent (S level)))
    ++ newline_indent level ++ 93 :: [].
Proof.
  unfold value_text at 1. cbn [iterencode].
  rewrite concat_app, items_text.
  change (str_of "[") with [91]. change (str_of ",") with [44].
  change (str_of "]") with [93]. cbn [concat app].
  now rewrite ?app_nil_r, <- !app_assoc.
Qed.

Lemma object_text (key : pystr) (value : json) (l : list (pystr * json))
    (level : nat) :
  value_text (JObj ((key, value) :: l)) level
  = 123 :: newline_indent (S level) ++ encode_basestring key ++ str_of ": "
    ++ value_text value (S level)
    ++ concat (iterencode_members (fun v => iterencode v (S level)) l false
                 (44 :: newline_indent (S level)))
    ++ newline_indent level ++ 125 :: [].
Proof.
  unfold value_text at 1. cbn [iterencode].
  rewrite !concat_app, members_text.
  change (str_of "{") with [123]. change (str_of ",") with [44].
  change (str_of "}") with [125]. cbn [concat app].
  now rewrite ?app_nil_r, <- !app_assoc.
Qed.

Lemma skip_ws_indent (level : nat) (t : pystr) :
  skip_ws (newline_indent level ++ t) = skip_ws t.
Proof.
  unfold newline_indent. simpl.
  induction level as [|level IH]; simpl; [reflexivity|exact IH].
Qed.

(** The first character of a serialized value is not white space and
    closes neither a list nor a dict. *)
Lemma value_text_head (v : json) (level : nat) (rest : pystr) :
  number_free v = true ->
  exists c t, value_text v level ++ rest = c :: t
              /\ is_ws c = false /\ (c =? 93) = false /\ (c =? 125) = false
              /\ (65279 =? c) = false.
Proof.
  destruct v as [|[|]| |s|[|x l]|[|[key value] l]]; try discriminate; intros _;
    rewrite ?array_text, ?object_text; unfold value_text; simpl; eauto 10.
Qed.

Lemma skip_ws_value (v : json) (level : nat) (rest : pystr) :
  number_free v = true ->
  skip_ws (value_text v level ++ rest) = value_text v level ++ rest.
Proof.
  intros Hv. destruct (value_text_head v level rest Hv) as (c & t & -> & Hc & _).
  simpl. now rewrite Hc.
Qed.

(** ** Reading back a serialized value *)

Lemma scan_once_string (decoder : JSONDecoder) (fuel depth : nat)
    (r : pystr) :
  scan_once decoder (S fuel) depth (34 :: r)
  = smap JStr (scanstring r (34 :: r)).
Proof. reflexivity. Qed.

Lemma scan_once_array (decoder : JSONDecoder) (fuel depth : nat) (r : pystr) :
  scan_once decoder (S fuel) (S depth) (91 :: r)
  = match skip_ws r with
    | c :: r2 =>
      if c =? 93 then Scanned (JArr []) r2
      else array_items decoder fuel depth (skip_ws r) []
    | [] => array_items decoder fuel depth (skip_ws r) []
    end.
Proof. reflexivity. Qed.

Lemma scan_once_object (decoder : JSONDecoder) (fuel depth : nat)
    (r : pystr) :
  scan_once decoder (S fuel) (S depth) (123 :: r)
  = match skip_ws r with
    | c :: r2 =>
      if c =? 125 then Scanned (JObj []) r2
      else if c =? 34 then object_members decoder fuel depth r2 (skip_ws r) []
      else Fail expecting_name (skip_ws r)
    | [] => Fail expecting_name (skip_ws r)
    end.
Proof. reflexivity. Qed.

Lemma dict_setitem_new (pairs : list (pystr * json)) (key : pystr)
    (value : json) :
  ~ In key (map fst pairs) ->
  dict_setitem pairs key value = pairs ++ [(key, value)].
Proof.
  induction pairs as [|[k v] pairs IH]; simpl; [reflexivity|].
  intros Hk. rewrite bool_decide_eq_false_2 by tauto.
  rewrite IH by tauto. reflexivity.
Qed.

Ltac norm_app :=
  repeat (progress (cbn [app] in *; rewrite <- ?app_assoc in *)).

Ltac lengths :=
  repeat (progress (rewrite ?length_app in *; cbn [length app] in *)); lia.

Lemma array_items_reads_back (l : list json) :
  Forall reads_back l ->
  forallb number_free l = true ->
  forallb dict_keys_distinct l = true ->
  forall x, reads_back x -> number_free x = true ->
  dict_keys_distinct x = true ->
  forall (decoder : JSONDecoder) (level : nat) (values : list json)
         (rest : pystr) (fuel depth : nat),
    let items := fun v => iterencode v (S level) in
    let separator := 44 :: newline_indent (S level) in
    let input := value_text x (S level)
                 ++ concat (iterencode_items items l separator separator)
                 ++ newline_indent level ++ 93 :: rest in
    (2 * length input + 1 < fuel)%nat ->
    (json_depth (JArr (x :: l)) <= S depth)%nat ->
    array_items decoder fuel depth input values
    = Scanned (JArr (values ++ x :: l)) rest.
Proof.
  induction 1 as [|y l Hy _ IH]; intros Hnum Hdis x Hx Hxn Hxd decoder level
    values rest fuel depth items separator input Hfuel Hdepth; subst input;
    (destruct fuel as [|fuel]; [lia|]); cbn [array_items];
    cbn [json_depth map list_max fold_right] in Hdepth;
    (rewrite (Hx Hxn Hxd decoder); [|lengths|lia]).
  - cbn [iterencode_items concat app]. rewrite skip_ws_indent.
    reflexivity.
  - subst items separator. rewrite items_text.
    cbn [forallb] in Hnum, Hdis.
    apply andb_true_iff in Hnum, Hdis.
    destruct Hnum as [Hyn Hnum], Hdis as [Hyd Hdis].
    rewrite <- ?app_assoc. cbn [app skip_ws]. change (is_ws 44) with false.
    cbv beta iota. change (44 =? 93) with false. change (44 =? 44) with true.
    cbv beta iota. rewrite skip_ws_indent, skip_ws_value by assumption.
    rewrite (IH Hnum Hdis y Hy Hyn Hyd decoder level (values ++ [x]) rest
               fuel depth).
    + now rewrite <- app_assoc.
    + rewrite items_text in Hfuel. lengths.
    + cbn [json_depth map list_max fold_right]. lia.
Qed.

Lemma object_members_reads_back (l : list (pystr * json)) :
  Forall (fun kv => reads_back (snd kv)) l ->
  forallb (fun kv => number_free (snd kv)) l = true ->
  forallb (fun kv => dict_keys_distinct (snd kv)) l = true ->
  forall key value, reads_back value -> number_free value = true ->
  dict_keys_distinct value = true ->
  forall (decoder : JSONDecoder) (level : nat) (pairs : list (pystr * json))
         (rest begin : pystr) (fuel depth : nat),
    let members := fun v => iterencode v (S level) in
    let separator := 44 :: newline_indent (S level) in
    let input := escape_body key ++ QUOTE :: str_of ": "
                 ++ value_text value (S level)
                 ++ concat (iterencode_members members l false separator)
                 ++ newline_indent level ++ 125 :: rest in
    NoDup (map fst (pairs ++ (key, value) :: l)) ->
    (2 * length input < fuel)%nat ->
    (json_depth (JObj ((key, value) :: l)) <= S depth)%nat ->
    object_members decoder fuel depth input begin pairs
    = Scanned (JObj (pairs ++ (key, value) :: l)) rest.
Proof.
  induction 1 as [|[key' value'] l Hy _ IH]; intros Hnum Hdis key value Hv Hvn
    Hvd decoder level pairs rest begin fuel depth members separator input
    Hkeys Hfuel Hdepth;
    subst input;
    (destruct fuel as [|fuel]; [lia|]); cbn [object_members];
    cbn [json_depth map list_max fold_right snd] in Hdepth;
    rewrite scanstring_escape_body;
    change (str_of ": ") with [58; 32] in *;
    cbn [app skip_ws]; change (is_ws 58) with false; cbv beta iota;
    change (58 =? 58) with true; cbv beta iota;
    cbn [skip_ws]; change (is_ws 32) with true; cbv beta iota;
    rewrite skip_ws_value by assumption;
    (rewrite (Hv Hvn Hvd decoder); [|lengths|lia]);
    (rewrite dict_setitem_new
       by (rewrite map_app in Hkeys; apply NoDup_app in Hkeys;
           destruct Hkeys as (_ & Hkeys & _);
           intros Hin; apply (Hkeys key); [now apply list_elem_of_In|left]));
    cbv beta iota zeta.
  - cbn [iterencode_members concat app]. rewrite skip_ws_indent.
    reflexivity.
  - subst members separator. rewrite members_text.
    cbn [forallb snd] in Hnum, Hdis.
    apply andb_true_iff in Hnum, Hdis.
    destruct Hnum as [Hyn Hnum], Hdis as [Hyd Hdis].
    unfold encode_basestring.
    rewrite <- ?app_assoc. cbn [app skip_ws]. change (is_ws 44) with false.
    cbv beta iota. change (44 =? 125) with false. change (44 =? 44) with true.
    cbv beta iota. rewrite skip_ws_indent.
    cbn [skip_ws]. change (is_ws QUOTE) with false. cbv beta iota.
    change (QUOTE =? 34) with true. cbv beta iota.
    rewrite <- ?app_assoc. cbn [app].
    rewrite (IH Hnum Hdis key' value' Hy Hyn Hyd decoder level
               (pairs ++ [(key, value)]) rest _ fuel depth).
    + now rewrite <- app_assoc.
    + now rewrite <- app_assoc.
    + rewrite members_text in Hfuel. unfold encode_basestring in Hfuel.
      change (str_of ": ") with [58; 32] in *. lengths.
    + cbn [json_depth map list_max fold_right snd]. lia.
Qed.

(** Every value without numbers and with distinct keys is read back from
    its text. *)
Lemma scan_once_iterencode (v : json) : reads_back v.
Proof.
  induction v as [|b|literal|s|lst IH|members IH] using json_nested_ind;
    intros Hnum Hdis decoder level rest fuel depth Hfuel Hdepth;
    (destruct fuel as [|fuel]; [lia|]).
  - reflexivity.
  - destruct b; reflexivity.
  - discriminate.
  - unfold value_text. cbn [iterencode atom_text concat].
    unfold encode_basestring. rewrite app_nil_r. cbn [app].
    rewrite <- app_assoc. cbn [app].
    rewrite scan_once_string, scanstring_escape_body.
    reflexivity.
  - destruct depth as [|depth]; [cbn [json_depth] in Hdepth; lia|].
    destruct IH as [|x l Hx IH]; [reflexivity|].
    cbn [number_free dict_keys_distinct forallb] in Hnum, Hdis.
    apply andb_true_iff in Hnum, Hdis.
    destruct Hnum as [Hxn Hnum], Hdis as [Hxd Hdis].
    rewrite array_text in *. norm_app.
    rewrite scan_once_array, skip_ws_indent, skip_ws_value by assumption.
    destruct (value_text_head x (S level)
                (concat (iterencode_items (fun v => iterencode v (S level)) l
                           (44 :: newline_indent (S level))
                           (44 :: newline_indent (S level)))
                 ++ newline_indent level ++ 93 :: rest) Hxn)
      as (c & t & Heq & _ & H93 & _).
    rewrite Heq, H93, <- Heq.
    apply (array_items_reads_back l IH Hnum Hdis x Hx Hxn Hxd decoder level
             [] rest); [lengths|exact Hdepth].
  - destruct depth as [|depth]; [cbn [json_depth] in Hdepth; lia|].
    destruct IH as [|[key value] l Hx IH]; [reflexivity|].
    cbn [number_free dict_keys_distinct forallb snd] in Hnum, Hdis.
    apply andb_true_iff in Hnum, Hdis.
    destruct Hnum as [Hxn Hnum], Hdis as [Hkeys Hdis].
    apply bool_decide_eq_true in Hkeys.
    apply andb_true_iff in Hdis. destruct Hdis as [Hxd Hdis].
    rewrite object_text in *. unfold encode_basestring in *. norm_app.
    rewrite scan_once_object, skip_ws_indent.
    cbn [skip_ws]. change (is_ws QUOTE) with false. cbv beta iota.
    change (QUOTE =? 125) with false. change (QUOTE =? 34) with true.
    cbv beta iota.
    apply (object_members_reads_back l IH Hnum Hdis key value Hx Hxn Hxd
             decoder level [] rest).
    + exact Hkeys.
    + lengths.
    + exact Hdepth.
Qed.

(** [json.loads] undoes [json.dumps] on values without numbers whose
    dicts have distinct keys and whose nesting the interpreter allows to
    enter. *)
Lemma json_loads_dumps (rt : Runtime) (v : json) :
  number_free v = true -> dict_keys_distinct v = true ->
  (json_depth v <= recursion_allowance rt)%nat ->
  json_loads rt (json_dumps v) = Ok v.
Proof.
  intros Hnum Hdis Hdepth. rewrite json_dumps_text.
  unfold json_loads, JSONDecoder_decode.
  destruct (value_text_head v 0 [] Hnum) as (c & t & Heq & _ & _ & _ & Hbom).
  rewrite app_nil_r in Heq.
  assert (Hstart : starts_with [65279] (value_text v 0) = false).
  { rewrite Heq. cbn [starts_with]. now rewrite Hbom. }
  rewrite Hstart.
  pose proof (skip_ws_value v 0 [] Hnum) as Hws. rewrite app_nil_r in Hws.
  rewrite Hws.
  pose proof (scan_once_iterencode v Hnum Hdis (default_decoder rt) 0%nat []
                (S (2 * length (value_text v 0))) (recursion_allowance rt))
    as Hscan.
  rewrite app_nil_r in Hscan. rewrite Hscan by lia. reflexivity.
Qed.

(** ** The characters of the serialized text *)

Lemma hex_digit_range (n : N) : n < 16 -> 32 <= hex_digit n < 127.
Proof. intros Hn. unfold hex_digit. destruct (n <? 10) eqn:E; bool_to_N; lia. Qed.

Section text_characters.
Variable Q : N -> Prop.
Hypothesis Q_printable : forall c, 32 <= c < 127 -> Q c.
Hypothesis Q_newline : Q 10.

Lemma Forall_printable (s : string) :
  Forall (fun c => 32 <= c < 127) (str_of s) -> Forall Q (str_of s).
Proof using Q_printable.
  intros H. eapply Forall_impl; [exact H|exact Q_printable].
Qed.

Lemma escape_body_Forall (s : pystr) : plain_ok Q s -> Forall Q (escape_body s).
Proof using Q_printable.
  induction 1 as [|c s Hc _ IH]; simpl; [constructor|].
  unfold escape_char in *.
  repeat match goal with
         | |- context [if ?t then _ else _] => destruct t eqn:?
         end;
    try (apply Forall_app; split; [|exact IH]);
    try (constructor; [now apply Hc|exact IH]);
    repeat (constructor; [apply Q_printable; lia|]); try constructor.
  all: bool_to_N.
  - apply Q_printable. apply hex_digit_range. div_lia.
  - constructor; [|constructor].
    apply Q_printable. apply hex_digit_range. div_lia.
Qed.

Lemma encode_basestring_Forall (s : pystr) :
  plain_ok Q s -> Forall Q (encode_basestring s).
Proof using Q_printable.
  intros Hs. unfold encode_basestring.
  constructor; [apply Q_printable; unfold QUOTE; lia|].
  apply Forall_app. split; [now apply escape_body_Forall|].
  constructor; [apply Q_printable; unfold QUOTE; lia|constructor].
Qed.

Lemma indent_Forall (level : nat) : Forall Q (newline_indent level).
Proof using Q_printable Q_newline.
  unfold newline_indent. simpl. constructor; [exact Q_newline|].
  induction level as [|level IH]; simpl; [constructor|].
  constructor; [apply Q_printable; lia|].
  constructor; [apply Q_printable; lia|exact IH].
Qed.

Lemma value_text_Forall (v : json) :
  number_free v = true ->
  Forall (plain_ok Q) (json_strings v) ->
  forall level, Forall Q (value_text v level).
Proof using Q_printable Q_newline.
  induction v as [|b|literal|s|lst IH|members IH] using json_nested_ind;
    intros Hnum Hstr level.
  - apply (Forall_printable "null"). vm_compute. repeat constructor; discriminate.
  - destruct b.
    + apply (Forall_printable "true"). vm_compute.
      repeat constructor; discriminate.
    + apply (Forall_printable "false"). vm_compute.
      repeat constructor; discriminate.
  - discriminate.
  - unfold value_text. simpl. rewrite app_nil_r.
    apply encode_basestring_Forall. simpl in Hstr.
    now apply Forall_cons_1 in Hstr as [Hs _].
  - destruct IH as [|x l Hx IH].
    { apply (Forall_printable "[]"). vm_compute.
      repeat constructor; discriminate. }
    rewrite array_text.
    cbn [number_free forallb] in Hnum. apply andb_true_iff in Hnum.
    destruct Hnum as [Hxn Hnum].
    cbn [json_strings flat_map] in Hstr. apply Forall_app in Hstr.
    destruct Hstr as [Hxs Hstr].
    constructor; [apply Q_printable; lia|].
    apply Forall_app. split; [apply indent_Forall|].
    apply Forall_app. split; [now apply Hx|].
    apply Forall_app. split.
    2:{ apply Forall_app. split; [apply indent_Forall|].
        constructor; [apply Q_printable; lia|constructor]. }
    clear Hx Hxn Hxs x.
    induction IH as [|y l Hy _ IHl]; [constructor|].
    cbn [forallb] in Hnum. apply andb_true_iff in Hnum.
    destruct Hnum as [Hyn Hnum].
    cbn [flat_map] in Hstr. apply Forall_app in Hstr.
    destruct Hstr as [Hys Hstr].
    rewrite items_text. cbn [app].
    constructor; [apply Q_printable; lia|].
    apply Forall_app. split; [apply indent_Forall|].
    apply Forall_app. split; [now apply Hy|now apply IHl].
  - destruct IH as [|[key value] l Hx IH].
    { apply (Forall_printable "{}"). vm_compute.
      repeat constructor; discriminate. }
    rewrite object_text.
    cbn [number_free forallb snd] in Hnum. apply andb_true_iff in Hnum.
    destruct Hnum as [Hxn Hnum].
    cbn [json_strings flat_map fst snd] in Hstr.
    apply Forall_cons_1 in Hstr as [Hks Hstr].
    apply Forall_app in Hstr. destruct Hstr as [Hxs Hstr].
    change (str_of ": ") with [58; 32].
    constructor; [apply Q_printable; lia|].
    apply Forall_app. split; [apply indent_Forall|].
    apply Forall_app. split; [now apply encode_basestring_Forall|].
    cbn [app]. constructor; [apply Q_printable; lia|].
    constructor; [apply Q_printable; lia|].
    apply Forall_app. split; [now apply Hx|].
    apply Forall_app. split.
    2:{ apply Forall_app. split; [apply indent_Forall|].
        constructor; [apply Q_printable; lia|constructor]. }
    clear Hx Hxn Hxs Hks key value.
    induction IH as [|[key value] l Hy _ IHl]; [constructor|].
    cbn [forallb snd] in Hnum. apply andb_true_iff in Hnum.
    destruct Hnum as [Hyn Hnum].
    cbn [flat_map fst snd] in Hstr.
    apply Forall_cons_1 in Hstr as [Hks Hstr].
    apply Forall_app in Hstr. destruct Hstr as [Hys Hstr].
    rewrite members_text. change (str_of ": ") with [58; 32]. cbn [app].
    constructor; [apply Q_printable; lia|].
    apply Forall_app. split; [apply indent_Forall|].
    apply Forall_app. split; [now apply encode_basestring_Forall|].
    cbn [app]. constructor; [apply Q_printable; lia|].
    constructor; [apply Q_printable; lia|].
    apply Forall_app. split; [now apply Hy|now apply IHl].
Qed.
End text_characters.

Lemma utf8_encode_scalar (s : pystr) :
  Forall (fun c => is_scalar_value c = true) s ->
  exists bs, utf8_encode s = Ok bs.
Proof.
  induction 1 as [|c s Hc _ (bs & Hbs)]; [now exists []|].
  destruct (utf8_encode_char c) as [enc|] eqn:Henc.
  - exists (enc ++ bs). now apply utf8_encode_cons.
  - exfalso. unfold is_scalar_value in Hc. unfold utf8_encode_char in Henc.
    apply andb_true_iff in Hc. destruct Hc as [H1 H2].
    apply negb_true_iff in H2. rewrite H1, H2 in Henc.
    repeat match type of Henc with
           | context [if ?t then _ else _] => destruct t
           end; discriminate.
Qed.

(** The text of an encodable value without numbers consists of scalar
    values, none of which is a carriage return. *)
Lemma value_text_scalar (v : json) (level : nat) :
  number_free v = true -> encodable v ->
  Forall (fun c => is_scalar_value c = true /\ c <> 13) (value_text v level).
Proof.
  intros Hnum Henc. apply value_text_Forall; try assumption.
  - intros c Hc. split; [|lia].
    unfold is_scalar_value, is_surrogate. bool_goal. lia.
  - split; [reflexivity|discriminate].
  - unfold encodable in Henc. eapply Forall_impl; [exact Henc|].
    intros s Hs. eapply Forall_impl; [exact Hs|].
    intros c Hc Hplain. split; [exact Hc|].
    intros ->. discriminate Hplain.
Qed.

(** ** What [json.loads] returns has distinct keys *)

Lemma dict_setitem_keys (d : list (pystr * json)) (key : pystr) (value : json)
    (k : pystr) :
  In k (map fst (dict_setitem d key value)) -> In k (map fst d) \/ k = key.
Proof.
  induction d as [|[k' v'] d IH]; simpl.
  - intros [<-|[]]. now right.
  - case_bool_decide; simpl; [tauto|]. intros [<-|Hin]; [tauto|].
    destruct (IH Hin); tauto.
Qed.

Lemma dict_setitem_distinct (d : list (pystr * json)) (key : pystr)
    (value : json) :
  dict_keys_distinct (JObj d) = true -> dict_keys_distinct value = true ->
  dict_keys_distinct (JObj (dict_setitem d key value)) = true.
Proof.
  intros Hd Hv. cbn [dict_keys_distinct] in *.
  apply andb_true_iff in Hd. destruct Hd as [Hkeys Hvals].
  apply bool_decide_eq_true in Hkeys.
  apply andb_true_iff. split.
  - apply bool_decide_eq_true.
    induction d as [|[k' v'] d IH]; simpl.
    + apply NoDup_singleton.
    + simpl in Hkeys, Hvals. apply NoDup_cons in Hkeys as [Hk' Hkeys].
      apply andb_true_iff in Hvals. destruct Hvals as [_ Hvals].
      case_bool_decide; simpl; apply NoDup_cons.
      * now split.
      * split; [|now apply IH].
        intros Hin. apply list_elem_of_In, dict_setitem_keys in Hin.
        destruct Hin as [Hin| ->]; [|congruence].
        apply Hk'. now apply list_elem_of_In.
  - clear Hkeys. induction d as [|[k' v'] d IH]; simpl.
    + now rewrite Hv.
    + simpl in Hvals. apply andb_true_iff in Hvals.
      destruct Hvals as [Hv' Hvals].
      case_bool_decide; simpl; apply andb_true_iff; auto.
Qed.

Lemma scanned_distinct_smap (x : scan pystr) (v : json) (r : pystr) :
  smap JStr x = Scanned v r -> dict_keys_distinct v = true.
Proof. intros H. apply smap_Scanned in H. now destruct H as (s & _ & ->). Qed.

Lemma literal_distinct (name : string) (value v : json) (s r : pystr) :
  dict_keys_distinct value = true ->
  literal name value s = Some (Scanned v r) -> dict_keys_distinct v = true.
Proof.
  intros Hv. unfold literal. destruct (starts_with _ _); [|discriminate].
  now intros [= <- _].
Qed.

Lemma number_distinct (decoder : JSONDecoder)
    (integer fraction exponent r r' : pystr) (v : json) :
  number decoder integer fraction exponent r = Scanned v r' ->
  dict_keys_distinct v = true.
Proof.
  unfold number.
  destruct fraction, exponent; try now intros [= <- _].
  destruct (py_int _ integer); [now intros [= <- _]|discriminate].
Qed.

Lemma scan_distinct (decoder : JSONDecoder) (fuel : nat) :
  (forall depth s v r,
      scan_once decoder fuel depth s = Scanned v r ->
      dict_keys_distinct v = true)
  /\ (forall depth s begin pairs v r,
        dict_keys_distinct (JObj pairs) = true ->
        object_members decoder fuel depth s begin pairs = Scanned v r ->
        dict_keys_distinct v = true)
  /\ (forall depth s values v r,
        dict_keys_distinct (JArr values) = true ->
        array_items decoder fuel depth s values = Scanned v r ->
        dict_keys_distinct v = true).
Proof.
  induction fuel as [|fuel (IHv & IHo & IHa)];
    [repeat split; intros; discriminate|].
  split; [|split].
  - intros depth s v r. cbn [scan_once].
    destruct s as [|nextchar s']; [discriminate|].
    destruct (nextchar =? 34); [apply scanned_distinct_smap|].
    destruct (nextchar =? 123).
    { destruct depth as [|depth]; [discriminate|].
      destruct (skip_ws s') as [|c r2]; [discriminate|].
      destruct (c =? 125); [now intros [= <- _]|].
      destruct (c =? 34); [|discriminate]. now apply IHo. }
    destruct (nextchar =? 91).
    { destruct depth as [|depth]; [discriminate|].
      destruct (skip_ws s') as [|c r2]; [now apply IHa|].
      destruct (c =? 93); [now intros [= <- _]|]. now apply IHa. }
    destruct (literal "null" JNull _) as [x|] eqn:L1;
      [intros ->; eapply literal_distinct; [|exact L1]; reflexivity|].
    destruct (literal "true" (JBool true) _) as [x|] eqn:L2;
      [intros ->; eapply literal_distinct; [|exact L2]; reflexivity|].
    destruct (literal "false" (JBool false) _) as [x|] eqn:L3;
      [intros ->; eapply literal_distinct; [|exact L3]; reflexivity|].
    destruct (match_number _) as [[[[integer frac] exp] r']|];
      [apply number_distinct|].
    destruct (parse_constant decoder); [|discriminate].
    destruct (literal "NaN" _ _) as [x|] eqn:L4;
      [intros ->; eapply literal_distinct; [|exact L4]; reflexivity|].
    destruct (literal "Infinity" _ _) as [x|] eqn:L5;
      [intros ->; eapply literal_distinct; [|exact L5]; reflexivity|].
    destruct (literal "-Infinity" _ _) as [x|] eqn:L6;
      [intros ->; eapply literal_distinct; [|exact L6]; reflexivity|].
    discriminate.
  - intros depth s begin pairs v r Hpairs. cbn [object_members].
    destruct (scanstring s begin) as [key r0| | |]; try discriminate.
    destruct (skip_ws r0) as [|c r2]; [discriminate|].
    destruct (c =? 58); [|discriminate].
    destruct (scan_once decoder fuel depth (skip_ws r2)) as [value r4| | |]
      eqn:Hvalue; try discriminate.
    apply IHv in Hvalue.
    pose proof (dict_setitem_distinct pairs key value Hpairs Hvalue) as Hset.
    destruct (skip_ws r4) as [|d r6]; [discriminate|].
    destruct (d =? 125); [now intros [= <- _]|].
    destruct (d =? 44); [|discriminate].
    destruct (skip_ws r6) as [|q r8]; [discriminate|].
    destruct (q =? 34); [|discriminate]. now apply IHo.
  - intros depth s values v r Hvalues. cbn [array_items].
    destruct (scan_once decoder fuel depth s) as [value r0| | |] eqn:Hvalue;
      try discriminate.
    apply IHv in Hvalue.
    assert (Hset : dict_keys_distinct (JArr (values ++ [value])) = true).
    { cbn [dict_keys_distinct] in *. rewrite forallb_app, Hvalues. simpl.
      now rewrite Hvalue. }
    destruct (skip_ws r0) as [|c r2]; [discriminate|].
    destruct (c =? 93); [now intros [= <- _]|].
    destruct (c =? 44); [|discriminate]. now apply IHa.
Qed.

Lemma json_loads_distinct (rt : Runtime) (s : pystr) (v : json) :
  json_loads rt s = Ok v -> dict_keys_distinct v = true.
Proof.
  unfold json_loads, JSONDecoder_decode.
  destruct (starts_with _ s); [discriminate|].
  destruct (scan_once _ _ _ _) as [obj rest| | |] eqn:Hscan; try discriminate.
  destruct (skip_ws rest); [|discriminate]. intros [= <-].
  now apply (proj1 (scan_distinct _ _)) in Hscan.
Qed.

Lemma json_loads_depth (rt : Runtime) (s : pystr) (v : json) :
  json_loads rt s = Ok v -> (json_depth v <= recursion_allowance rt)%nat.
Proof.
  intros H. pose proof (json_loads_total rt s) as Htotal.
  rewrite H in Htotal. now destruct Htotal.
Qed.

(** What the client returns was read by [json.loads]. *)
Lemma llm_extract_resume_loads (rt : Runtime) (text : pystr) (w w' : World)
    (record : json) :
  llm_extract_resume rt text w = (Ok record, w') ->
  exists raw, json_loads rt raw = Ok record.
Proof.
  unfold llm_extract_resume.
  destruct (OpenAI rt) as [new_client|]; [|discriminate].
  unfold bind, os_environ_get.
  destruct (environ w !! "OPENAI_API_KEY"%string) as [[|c key]|];
    try discriminate.
  unfold chat_completions_create.
  destruct (new_client _ _) as [resp|e]; [|discriminate].
  unfold lift. destruct (first_content resp) as [[s|]|e]; try discriminate.
  intros [= H _]. now exists s.
Qed.

Lemma llm_extract_resume_distinct (rt : Runtime) (text : pystr) (w w' : World)
    (record : json) :
  llm_extract_resume rt text w = (Ok record, w') ->
  dict_keys_distinct record = true.
Proof.
  intros H. apply llm_extract_resume_loads in H. destruct H as (raw & H).
  now apply json_loads_distinct in H.
Qed.

Lemma llm_extract_resume_depth (rt : Runtime) (text : pystr) (w w' : World)
    (record : json) :
  llm_extract_resume rt text w = (Ok record, w') ->
  (json_depth record <= recursion_allowance rt)%nat.
Proof.
  intros H. apply llm_extract_resume_loads in H. destruct H as (raw & H).
  now apply json_loads_depth in H.
Qed.

(** ** Schema-valid records hold no number *)




(** ** The layout of the serialized text *)






(** ** Writing and reading back the record *)





Lemma encodable_check (v : json) :
  forallb (forallb is_scalar_value) (json_strings v) = true -> encodable v.
Proof.
  intros H. unfold encodable. apply List.Forall_forall. intros s Hs.
  rewrite forallb_forall in H. specialize (H s Hs).
  apply List.Forall_forall. now apply forallb_forall.
Qed.


Example json_dumps_sample :
  json_dumps (JObj [ (str_of "name", JStr sample_name);
                     (str_of "skills", JArr [JStr (str_of "Rocq")]) ])
  = str_of "{" ++ NL
    ++ str_of "  " ++ quoted "name" ++ str_of ": " ++ QUOTE :: sample_name ++ [QUOTE]
    ++ str_of "," ++ NL
    ++ str_of "  " ++ quoted "skills" ++ str_of ": [" ++ NL
    ++ str_of "    " ++ quoted "Rocq" ++ NL
    ++ str_of "  ]" ++ NL
    ++ str_of "}".
Proof. reflexivity. Qed.

(** ** What [extract_text] leaves behind *)

Lemma reads_refl path w : reads path w w.
Proof.
  repeat split. exists []. split; [now rewrite app_nil_r|constructor].
Qed.

Lemma reads_trans path w1 w2 w3 :
  reads path w1 w2 -> reads path w2 w3 -> reads path w1 w3.
Proof.
  intros (F1 & E1 & o1 & T1 & O1) (F2 & E2 & o2 & T2 & O2).
  repeat split; try congruence.
  exists (o1 ++ o2). split.
  - now rewrite T2, T1, <- app_assoc.
  - now apply Forall_app.
Qed.

Lemma reads_open_read_binary path : preserves (reads path) (open_read_binary path).
Proof.
  intros w. unfold open_read_binary.
  destruct (fs w !! path); simpl; repeat split;
    exists [EvOpen path "rb" None]; (split; [reflexivity|]);
    repeat constructor.
Qed.

Lemma reads_open_read_text path enc :
  preserves (reads path) (open_read_text path enc).
Proof.
  intros w. unfold open_read_text.
  destruct (fs w !! path); [destruct (codecs_lookup enc)|]; simpl;
    repeat split; exists [EvOpen path "r" (Some enc)];
    (split; [reflexivity|]); constructor; eauto.
Qed.

Lemma reads_try_encodings encs path otherwise :
  preserves (reads path) otherwise ->
  preserves (reads path) (try_encodings encs path otherwise).
Proof.
  intros Ho. induction encs as [|enc rest IH]; simpl; [exact Ho|].
  apply preserves_try_except;
    [exact (reads_trans path)|apply reads_open_read_text|exact IH].
Qed.

Lemma reads_extract_text rt path : preserves (reads path) (extract_text rt path).
Proof.
  pose proof (reads_refl path) as Hr. pose proof (reads_trans path) as Ht.
  pose proof (reads_open_read_binary path) as Hb.
  unfold extract_text. repeat case_bool_decide.
  - unfold extract_pdf.
    repeat (first [apply preserves_try_except | apply preserves_bind
                  | intros ?]; eauto with io).
  - unfold extract_docx. repeat (apply preserves_bind; eauto with io; intros ?).
  - unfold extract_doc. repeat (apply preserves_bind; eauto with io; intros ?).
  - unfold extract_txt, txt_fallback. apply reads_try_encodings.
    apply preserves_bind; eauto with io.
  - eauto with io.
Qed.

Lemma network_calls_opens (w w' : World) (opens : list event) :
  trace w' = trace w ++ opens ->
  Forall (fun e => is_request e = false) opens ->
  network_calls w' = network_calls w.
Proof.
  intros T Ho. unfold network_calls. rewrite T, filter_app, length_app.
  clear T. induction Ho as [|e l He _ IH]; [simpl; lia|].
  rewrite filter_cons_False by (rewrite He; discriminate). exact IH.
Qed.

(** X1. [extract_text] only reads: whatever the path, the packages and the
    files, it leaves every file and the environment as they were, makes no
    call to the remote service, and opens no file but the one at the path
    it was given, for reading (a package being a function of the path and
    of the bytes of the file, as [Runtime] has it). *)
Theorem extract_text_only_reads (rt : Runtime) (file_path : pystr) (w : World) :
  let w' := snd (extract_text rt file_path w) in
  fs w' = fs w
  /\ environ w' = environ w
  /\ network_calls w' = network_calls w
  /\ exists opens,
       trace w' = trace w ++ opens
       /\ Forall (fun e => e = EvOpen file_path "rb" None
                           \/ exists enc, e = EvOpen file_path "r" (Some enc))
                 opens.
Proof.
  intros w'. destruct (reads_extract_text rt file_path w) as (F & E & o & T & O).
  fold w' in F, E, T.
  split; [exact F|]. split; [exact E|]. split; [|now exists o].
  apply (network_calls_opens w w' o T).
  eapply Forall_impl; [exact O|].
  intros e [-> | [enc ->]]; reflexivity.
Qed.

(** ** Missing packages *)



(** ** The ".pdf" branch *)

Lemma extract_text_pdf (rt : Runtime) (file_path : pystr) :
  py_lower rt (suffix file_path) = str_of ".pdf" ->
  extract_text rt file_path = extract_pdf rt file_path.
Proof. intros H. unfold extract_text. now rewrite H. Qed.

(** The first [try] statement: the second one runs when the first met an
    [ImportError]. *)
Lemma extract_pdf_first (rt : Runtime) (file_path : pystr) (w : World) :
  extract_pdf rt file_path w
  = match fitz rt with
    | None => extract_pdf_PyPDF2_block rt file_path w
    | Some fitz_open =>
      match fitz_open file_path (fs w !! file_path) with
      | Ok pages => (Ok (concat pages), w)
      | Raise e =>
        if is_ImportError e then extract_pdf_PyPDF2_block rt file_path w
        else (Raise e, w)
      end
    end.
Proof.
  unfold extract_pdf, extract_pdf_PyPDF2_block.
  unfold try_except at 1.
  destruct (fitz rt) as [fitz_open|]; [|reflexivity].
  unfold bind at 1. simpl. unfold bind at 1, library_open at 1.
  destruct (fitz_open file_path (fs w !! file_path)) as [pages|e];
    reflexivity.
Qed.

Lemma extract_pdf_second (rt : Runtime) (file_path : pystr) (w : World) :
  match fitz rt with
  | None => True
  | Some fitz_open =>
    exists msg, fitz_open file_path (fs w !! file_path) = Raise (ImportError msg)
  end ->
  extract_pdf rt file_path w = extract_pdf_PyPDF2_block rt file_path w.
Proof.
  intros H. rewrite extract_pdf_first.
  destruct (fitz rt) as [fitz_open|]; [|reflexivity].
  destruct H as [msg H]. now rewrite H.
Qed.

(** X3. On a ".pdf" path with PyMuPDF installed, the text is that of
    PyMuPDF: the page texts one after the other, the world being left as it
    was (the file is not opened by [extract_text] itself). An exception of
    PyMuPDF other than [ImportError] is raised as it is. In both cases
    PyPDF2 is not tried, installed or not. *)
Theorem extract_pdf_fitz (rt : Runtime) (file_path : pystr) (w : World)
    (fitz_open : pystr -> option bytes -> result (list pystr)) :
  py_lower rt (suffix file_path) = str_of ".pdf" ->
  fitz rt = Some fitz_open ->
  (forall pages,
      fitz_open file_path (fs w !! file_path) = Ok pages ->
      extract_text rt file_path w = (Ok (concat pages), w))
  /\ (forall e,
        fitz_open file_path (fs w !! file_path) = Raise e ->
        is_ImportError e = false ->
        extract_text rt file_path w = (Raise e, w)).
Proof.
  intros Hext Hfitz. rewrite (extract_text_pdf rt file_path Hext).
  rewrite extract_pdf_first, Hfitz.
  split.
  - intros pages Hp. now rewrite Hp.
  - intros e He Himp. now rewrite He, Himp.
Qed.

Lemma extract_pdf_fitz_witness :
  extract_text (runtime_with_fitz (Ok [str_of "Ada "; str_of "Lovelace"]))
    (str_of "cv.pdf") (world_with (str_of "cv.pdf") [x25; x50] None)
  = (Ok (str_of "Ada Lovelace"), world_with (str_of "cv.pdf") [x25; x50] None)
  /\ extract_text
       (runtime_with_fitz (Raise (LibraryError "fitz" (str_of "cannot open"))))
       (str_of "cv.pdf") (world_with (str_of "cv.pdf") [x25; x50] None)
     = (Raise (LibraryError "fitz" (str_of "cannot open")),
        world_with (str_of "cv.pdf") [x25; x50] None).
Proof.
  split.
  - exact (proj1 (extract_pdf_fitz
             (runtime_with_fitz (Ok [str_of "Ada "; str_of "Lovelace"]))
             (str_of "cv.pdf") (world_with (str_of "cv.pdf") [x25; x50] None)
             (fun _ _ => Ok [str_of "Ada "; str_of "Lovelace"])
             eq_refl eq_refl)
           [str_of "Ada "; str_of "Lovelace"] eq_refl).
  - exact (proj2 (extract_pdf_fitz
             (runtime_with_fitz (Raise (LibraryError "fitz" (str_of "cannot open"))))
             (str_of "cv.pdf") (world_with (str_of "cv.pdf") [x25; x50] None)
             (fun _ _ => Raise (LibraryError "fitz" (str_of "cannot open")))
             eq_refl eq_refl)
           (LibraryError "fitz" (str_of "cannot open")) eq_refl eq_refl).
Defined.

(** X4. On a ".pdf" path, when PyMuPDF is not installed (or its use ends
    in an [ImportError]) and PyPDF2 is, the file is opened once, in binary
    mode: a missing file raises [FileNotFoundError]; otherwise the text is
    that of the pages one after the other, a page without text counting as
    the empty string, so that a document none of whose pages has text gives
    the empty string. *)
Theorem extract_pdf_PyPDF2 (rt : Runtime) (file_path : pystr) (w : World)
    (PdfReader : bytes -> result (list (option pystr))) :
  py_lower rt (suffix file_path) = str_of ".pdf" ->
  match fitz rt with
  | None => True
  | Some fitz_open =>
    exists msg, fitz_open file_path (fs w !! file_path) = Raise (ImportError msg)
  end ->
  PyPDF2 rt = Some PdfReader ->
  let w' := log (EvOpen file_path "rb" None) w in
  (fs w !! file_path = None ->
   extract_text rt file_path w = (Raise (FileNotFoundError file_path), w'))
  /\ (forall data pages,
        fs w !! file_path = Some data ->
        PdfReader data = Ok pages ->
        extract_text rt file_path w
        = (Ok (concat (map (default []) pages)), w')
        /\ (Forall (fun page => page = None \/ page = Some []) pages ->
            concat (map (default []) pages) = [])).
Proof.
  intros Hext Hfitz Hpdf w'.
  rewrite (extract_text_pdf rt file_path Hext).
  rewrite (extract_pdf_second rt file_path w Hfitz).
  unfold extract_pdf_PyPDF2_block, try_except. rewrite Hpdf.
  unfold import, bind, ret, open_read_binary, lift. fold w'.
  split.
  - intros Hnone. now rewrite Hnone.
  - intros data pages Hdata Hpages. rewrite Hdata, Hpages.
    split; [reflexivity|]. clear Hpages.
    induction 1 as [|page pages' [-> | ->] _ IH]; [reflexivity| |]; exact IH.
Qed.

Lemma extract_pdf_PyPDF2_witness :
  extract_text
    (runtime_with_PyPDF2 (Ok [Some (str_of "Ada"); None; Some (str_of "!")]))
    (str_of "cv.pdf") (world_with (str_of "cv.pdf") [x25; x50] None)
  = (Ok (str_of "Ada!"),
     log (EvOpen (str_of "cv.pdf") "rb" None)
       (world_with (str_of "cv.pdf") [x25; x50] None))
  /\ extract_text (runtime_with_PyPDF2 (Ok [None; None]))
       (str_of "scan.pdf") (world_with (str_of "cv.pdf") [x25; x50] None)
     = (Raise (FileNotFoundError (str_of "scan.pdf")),
        log (EvOpen (str_of "scan.pdf") "rb" None)
          (world_with (str_of "cv.pdf") [x25; x50] None)).
Proof.
  split.
  - refine (proj1 (proj2 (extract_pdf_PyPDF2
             (runtime_with_PyPDF2 (Ok [Some (str_of "Ada"); None; Some (str_of "!")]))
             (str_of "cv.pdf") (world_with (str_of "cv.pdf") [x25; x50] None)
             (fun _ => Ok [Some (str_of "Ada"); None; Some (str_of "!")])
             eq_refl I eq_refl) [x25; x50] _ eq_refl eq_refl)).
  - refine (proj1 (extract_pdf_PyPDF2
             (runtime_with_PyPDF2 (Ok [None; None]))
             (str_of "scan.pdf") (world_with (str_of "cv.pdf") [x25; x50] None)
             (fun _ => Ok [None; None])
             eq_refl I eq_refl) eq_refl).
Defined.

(** X5. On a ".pdf" path, an [ImportError] that leaves [extract_text]
    always carries the hint "Install a PDF library: pip install pymupdf or
    pip install PyPDF2", whatever raised it inside the branch; this is what
    happens, the world being left as it was, when neither PyMuPDF nor PyPDF2
    is installed. *)
Theorem extract_pdf_import_hint (rt : Runtime) (file_path : pystr) (w : World) :
  py_lower rt (suffix file_path) = str_of ".pdf" ->
  (forall msg w',
      extract_text rt file_path w = (Raise (ImportError msg), w') ->
      msg = str_of "Install a PDF library: pip install pymupdf or pip install PyPDF2")
  /\ (fitz rt = None -> PyPDF2 rt = None ->
      extract_text rt file_path w
      = (Raise (ImportError (str_of
           "Install a PDF library: pip install pymupdf or pip install PyPDF2")),
         w)).
Proof.
  intros Hext. rewrite (extract_text_pdf rt file_path Hext).
  split.
  - intros msg w'. rewrite extract_pdf_first.
    assert (Hsecond : forall w0,
              extract_pdf_PyPDF2_block rt file_path w0
              = (Raise (ImportError msg), w') ->
              msg = pdf_install_hint).
    { intros w0. unfold extract_pdf_PyPDF2_block, try_except.
      match goal with |- context [match ?m w0 with _ => _ end] =>
        destruct (m w0) as [[text|e] w1] end; [discriminate|].
      destruct e; simpl; unfold raise; congruence. }
    destruct (fitz rt) as [fitz_open|]; [|apply Hsecond].
    destruct (fitz_open file_path (fs w !! file_path)) as [pages|e];
      [discriminate|].
    destruct e; simpl; try congruence. apply Hsecond.
  - intros Hfitz Hpdf. unfold extract_pdf, try_except. now rewrite Hfitz, Hpdf.
Qed.

Lemma extract_pdf_import_hint_witness :
  extract_text bare_runtime (str_of "cv.pdf")
    (world_with (str_of "cv.pdf") [x25; x50] None)
  = (Raise (ImportError (str_of
       "Install a PDF library: pip install pymupdf or pip install PyPDF2")),
     world_with (str_of "cv.pdf") [x25; x50] None).
Proof.
  exact (proj2 (extract_pdf_import_hint bare_runtime (str_of "cv.pdf")
                  (world_with (str_of "cv.pdf") [x25; x50] None) eq_refl)
           eq_refl eq_refl).
Defined.

(** ** More on the ".txt" branch *)

Lemma translate_newlines_no_cr (s : pystr) :
  Forall (fun c => c <> 13) (translate_newlines s).
Proof.
  assert (H : forall n s, (length s <= n)%nat ->
              Forall (fun c => c <> 13) (translate_newlines s)).
  { clear s. induction n as [|n IH]; intros [|c rest] Hlen;
      simpl in Hlen; try lia; try (now constructor).
    cbn [translate_newlines]. destruct (c =? 13) eqn:Hc.
    - constructor; [discriminate|].
      destruct rest as [|c' rest']; [constructor|].
      destruct (c' =? 10); apply IH; simpl in *; lia.
    - constructor; [now apply N.eqb_neq|]. apply IH. lia. }
  exact (H (length s) s (le_n _)).
Qed.

(** X6. The text that [extract_text] returns for a ".txt" file that exists
    holds no carriage return: the file is read in text mode, where CR LF
    and a lone CR are read as a line feed, by whichever candidate decodes
    it. *)
Theorem extract_txt_no_carriage_return (rt : Runtime) (file_path : pystr)
    (w : World) (data : bytes) :
  py_lower rt (suffix file_path) = str_of ".txt" ->
  fs w !! file_path = Some data ->
  exists text,
    fst (extract_text rt file_path w) = Ok text
    /\ Forall (fun c => c <> 13) text.
Proof.
  intros Hext Hdata. rewrite (extract_text_txt rt file_path Hext).
  unfold txt_encodings.
  rewrite (try_encodings_utf8_latin1 file_path w data _ _ Hdata).
  destruct (utf8_decode Strict data) as [s|e]; simpl;
    eexists; (split; [reflexivity|apply translate_newlines_no_cr]).
Qed.

Lemma extract_txt_no_carriage_return_witness :
  exists text,
    fst (extract_text bare_runtime (str_of "cv.txt")
           (world_with (str_of "cv.txt") [x41; x0d; x0a; x42; x0d; x43] None))
    = Ok text
    /\ Forall (fun c => c <> 13) text.
Proof.
  apply (extract_txt_no_carriage_return bare_runtime (str_of "cv.txt")
           (world_with (str_of "cv.txt") [x41; x0d; x0a; x42; x0d; x43] None)
           [x41; x0d; x0a; x42; x0d; x43]);
    reflexivity.
Defined.

(** X7. A ".txt" path at which there is no file makes [extract_text] raise
    [FileNotFoundError] at the first attempt to open it: the exception is
    not a [UnicodeDecodeError], so that the loop does not go on to the next
    candidate and the file is not opened in binary mode. *)
Theorem extract_txt_missing_file (rt : Runtime) (file_path : pystr) (w : World) :
  py_lower rt (suffix file_path) = str_of ".txt" ->
  fs w !! file_path = None ->
  extract_text rt file_path w
  = (Raise (FileNotFoundError file_path),
     log (EvOpen file_path "r" (Some "utf-8"%string)) w).
Proof.
  intros Hext Hnone. rewrite (extract_text_txt rt file_path Hext).
  unfold txt_encodings. cbn [try_encodings].
  unfold try_except at 1, open_read_text at 1. now rewrite Hnone.
Qed.

Lemma extract_txt_missing_file_witness :
  extract_text bare_runtime (str_of "gone.txt")
    (world_with (str_of "cv.txt") [x41] None)
  = (Raise (FileNotFoundError (str_of "gone.txt")),
     log (EvOpen (str_of "gone.txt") "r" (Some "utf-8"%string))
       (world_with (str_of "cv.txt") [x41] None)).
Proof.
  apply (extract_txt_missing_file bare_runtime (str_of "gone.txt")
           (world_with (str_of "cv.txt") [x41] None));
    reflexivity.
Defined.

(** ** More on the extraction client *)

Lemma network_calls_request (r : request) (w : World) :
  network_calls (log (EvRequest r) w) = S (network_calls w).
Proof.
  unfold network_calls. simpl. rewrite filter_app, length_app.
  rewrite filter_cons_True by reflexivity. simpl. lia.
Qed.





(** The service failing for good: the request is sent three times and the
    exception of the client comes out. *)
Example llm_extract_resume_service_down :
  let w := world_with (str_of "cv.txt") [] (Some (str_of "sk-1")) in
  let run := llm_extract_resume runtime_failing (str_of "Ada Lovelace") w in
  fst run = Raise (LibraryError "openai" (str_of "Error code: 500"))
  /\ network_calls (snd run) = 3%nat.
Proof. vm_compute. split; reflexivity. Qed.

(** ** More on the driver *)

Lemma parse_any_resume_to_json_extract_raises (rt : Runtime)
    (upload_path out_json : pystr) (w w1 : World) (e : exn) :
  extract_text rt upload_path w = (Raise e, w1) ->
  parse_any_resume_to_json rt upload_path out_json w = (Raise e, w1).
Proof.
  intros Hx. unfold parse_any_resume_to_json.
  now rewrite (bind_Raise _ _ _ _ _ Hx).
Qed.

Lemma parse_any_resume_to_json_blank (rt : Runtime)
    (upload_path out_json : pystr) (w w1 : World) (text : pystr) :
  extract_text rt upload_path w = (Ok text, w1) ->
  blank text ->
  parse_any_resume_to_json rt upload_path out_json w
  = (Raise (ValueError no_text_message), w1).
Proof.
  intros Hx Hb. unfold parse_any_resume_to_json.
  rewrite (bind_Ok _ _ _ _ _ Hx). now rewrite (proj2 (blank_test text) Hb).
Qed.

Lemma parse_any_resume_to_json_client_raises (rt : Runtime)
    (upload_path out_json : pystr) (w w1 w2 : World) (text : pystr) (e : exn) :
  extract_text rt upload_path w = (Ok text, w1) ->
  ~ blank text ->
  llm_extract_resume rt text w1 = (Raise e, w2) ->
  parse_any_resume_to_json rt upload_path out_json w = (Raise e, w2).
Proof.
  intros Hx Hb Hl. unfold parse_any_resume_to_json.
  rewrite (bind_Ok _ _ _ _ _ Hx), (blank_test_false text Hb).
  now rewrite (bind_Raise _ _ _ _ _ Hl).
Qed.

Lemma extract_text_other (rt : Runtime) (file_path : pystr) (w : World) :
  py_lower rt (suffix file_path) ∉ supported_extensions ->
  extract_text rt file_path w
  = (Raise (ValueError (unsupported_message (py_lower rt (suffix file_path)))),
     w).
Proof.
  intros Hext. unfold supported_extensions in Hext.
  rewrite !not_elem_of_cons in Hext.
  destruct Hext as (Hpdf & Hdocx & Hdoc & Htxt & _).
  unfold extract_text. now rewrite !bool_decide_eq_false_2 by assumption.
Qed.

Lemma llm_extract_resume_no_credential (rt : Runtime) (text : pystr) (w : World) :
  OpenAI rt <> None ->
  credential_absent w ->
  llm_extract_resume rt text w
  = (Raise (RuntimeError (str_of "OPENAI_API_KEY not set in environment.")), w).
Proof.
  intros Hpkg Habs. unfold llm_extract_resume.
  destruct (OpenAI rt) as [new_client|]; [|contradiction].
  unfold bind, os_environ_get.
  destruct Habs as [Habs | Habs]; unfold API_KEY in Habs; now rewrite Habs.
Qed.

Lemma utf8_encode_char_None (c : N) :
  utf8_encode_char c = None -> is_scalar_value c = false.
Proof.
  unfold utf8_encode_char, is_scalar_value.
  destruct (c <? 0x80) eqn:H1; [discriminate|].
  destruct (c <? 0x800) eqn:H2; [discriminate|].
  destruct (c <? 0x10000) eqn:H3.
  - destruct (is_surrogate c); [|discriminate].
    intros _. now rewrite andb_false_r.
  - destruct (c <? 0x110000); [discriminate|reflexivity].
Qed.

Lemma utf8_encode_Raise (s : pystr) (e : exn) :
  utf8_encode s = Raise e ->
  e = UnicodeEncodeError "utf-8"
  /\ Exists (fun c => is_scalar_value c = false) s.
Proof.
  unfold utf8_encode. induction s as [|c s IH]; simpl; [discriminate|].
  destruct (utf8_encode_char c) as [enc|] eqn:Hc.
  - destruct (encode_with "utf-8" utf8_encode_char s) as [bs|e'];
      [discriminate|].
    simpl. intros [= <-]. destruct (IH eq_refl) as [-> Hex].
    split; [reflexivity|now apply Exists_cons_tl].
  - intros [= <-]. split; [reflexivity|].
    apply Exists_cons_hd. now apply utf8_encode_char_None.
Qed.

(** What [write_chunks] leaves in the file: the encoding of the chunks
    before the first one that cannot be encoded. *)
Lemma write_chunks_prefix (chunks : list pystr) (acc : bytes) :
  exists k bs,
    utf8_encode (concat (take k chunks)) = Ok bs
    /\ snd (write_chunks utf8_codec chunks acc) = acc ++ bs
    /\ ((fst (write_chunks utf8_codec chunks acc) = Ok tt
         /\ take k chunks = chunks)
        \/ (fst (write_chunks utf8_codec chunks acc)
            = Raise (UnicodeEncodeError "utf-8")
            /\ Exists (fun c => is_scalar_value c = false) (concat chunks))).
Proof.
  revert acc. induction chunks as [|chunk chunks IH]; intros acc.
  - exists O, []. simpl. rewrite app_nil_r. repeat split. now left.
  - cbn [write_chunks encode utf8_codec].
    destruct (utf8_encode chunk) as [enc|e] eqn:Hc.
    + destruct (IH (acc ++ enc)) as (k & bs & Hbs & Hdata & Hr).
      exists (S k), (enc ++ bs). cbn [take concat].
      split; [|split].
      * unfold utf8_encode in *. rewrite encode_with_app, Hc. simpl.
        now rewrite Hbs.
      * now rewrite Hdata, app_assoc.
      * destruct Hr as [[Hok Hk] | [Hbad Hex]].
        -- left. split; [exact Hok|now rewrite Hk].
        -- right. split; [exact Hbad|].
           apply Exists_app. now right.
    + exists O, []. cbn [take concat]. rewrite app_nil_r.
      destruct (utf8_encode_Raise chunk e Hc) as [-> Hex].
      repeat split. right. split; [reflexivity|].
      apply Exists_app. now left.
Qed.

Lemma concat_take_prefix (k : nat) (chunks : list pystr) :
  concat (take k chunks) `prefix_of` concat chunks.
Proof.
  exists (concat (drop k chunks)).
  now rewrite <- concat_app, take_drop.
Qed.

(** X10. [json.dump] to the output file, whatever the value: the file is
    created or replaced, and holds the UTF-8 encoding of the chunks of the
    text that were written, which are a prefix of the text. All of the
    text is there when the write returns; otherwise the write raised
    [UnicodeEncodeError], at the first chunk with a character that is no
    Unicode scalar value, and what was written before it stays in the
    file. *)
Theorem json_dump_file_prefix (data : json) (path : pystr) (w : World) :
  exists (k : nat) (bs : bytes),
    let written := concat (take k (iterencode data 0)) in
    utf8_encode written = Ok bs
    /\ written `prefix_of` json_dumps data
    /\ snd (json_dump_file data path w)
       = set_file path bs (log (EvOpen path "w" (Some "utf-8"%string)) w)
    /\ ((fst (json_dump_file data path w) = Ok tt
         /\ written = json_dumps data)
        \/ (fst (json_dump_file data path w)
            = Raise (UnicodeEncodeError "utf-8")
            /\ Exists (fun c => is_scalar_value c = false) (json_dumps data))).
Proof.
  destruct (write_chunks_prefix (iterencode data 0) [])
    as (k & bs & Hbs & Hdata & Hr).
  exists k, bs. cbv zeta.
  split; [exact Hbs|]. split; [apply concat_take_prefix|].
  unfold json_dump_file, open_write_text. rewrite codecs_lookup_utf8.
  destruct (write_chunks utf8_codec (iterencode data 0) []) as [r written].
  cbn [fst snd] in *. subst written. split; [reflexivity|].
  destruct Hr as [[-> Hk] | [-> Hex]].
  - left. split; [reflexivity|]. unfold json_dumps. now rewrite Hk.
  - right. split; [reflexivity|exact Hex].
Qed.





(** C1 (as the claim states it) fails: with an earlier result at the
    output path, a record whose name holds a lone surrogate passes the
    three steps that the claim lists and fails in the write; the call
    raises, and the output path is not left untouched: the earlier result
    is replaced by the beginning of the new text. *)
Lemma parse_write_step_fails :
  let rt := runtime_answering (Some (answer_named (quoted "Ada \udc00"))) in
  let earlier := [x7b; x7d] in
  let w := set_file (str_of "out.json") earlier
             (world_with (str_of "cv.txt") [x41; x64; x61]
                (Some (str_of "sk-1"))) in
  let run := parse_any_resume_to_json rt (str_of "cv.txt") (str_of "out.json") w in
  fs w !! str_of "out.json" = Some earlier
  /\ fst (extract_text rt (str_of "cv.txt") w) = Ok (str_of "Ada")
  /\ fst (llm_extract_resume rt (str_of "Ada") w)
     = Ok (record_named (str_of "Ada " ++ [0xDC00]))
  /\ fst run = Raise (UnicodeEncodeError "utf-8")
  /\ fs (snd run) !! str_of "out.json"
     = Some [x7b; x0a; x20; x20; x22; x6e; x61; x6d; x65; x22; x3a; x20].
Proof. vm_compute. repeat split. Qed.




(** The text of a value without numbers holds no carriage return, a
    carriage return inside a string being written as an escape. *)
Lemma json_dumps_no_cr (v : json) :
  number_free v = true -> ~ In 13 (json_dumps v).
Proof.
  intros Hnum Hin. rewrite json_dumps_text in Hin.
  assert (H : Forall (fun c => c <> 13) (value_text v 0)).
  { apply value_text_Forall; try assumption.
    - intros c Hc. lia.
    - discriminate.
    - apply List.Forall_forall. intros s _. apply List.Forall_forall.
      intros c _ Hplain ->. discriminate Hplain. }
  rewrite List.Forall_forall in H. now apply (H 13 Hin).
Qed.

(** Reading back a file that holds the encoding of the text of a value. *)
Lemma json_load_file_dumped (rt : Runtime) (v : json) (path : pystr)
    (bs : bytes) (w : World) :
  fs w !! path = Some bs ->
  utf8_encode (json_dumps v) = Ok bs ->
  number_free v = true ->
  dict_keys_distinct v = true ->
  (json_depth v <= recursion_allowance rt)%nat ->
  json_load_file rt path w
  = (Ok v, log (EvOpen path "r" (Some "utf-8"%string)) w).
Proof.
  intros Hfile Hbs Hnum Hdis Hdepth.
  unfold json_load_file, bind, open_read_text.
  rewrite Hfile, codecs_lookup_utf8.
  cbn [decode utf8_codec]. rewrite (utf8_decode_encode Strict _ _ Hbs).
  cbn [rmap rbind].
  rewrite translate_newlines_id by now apply json_dumps_no_cr.
  unfold lift. now rewrite (json_loads_dumps rt v Hnum Hdis Hdepth).
Qed.

(** The driver after the client has returned [v]. *)
Lemma parse_any_resume_to_json_writes (rt : Runtime)
    (upload_path out_json : pystr) (w w1 w2 : World) (text : pystr) (v : json)
    (bs : bytes) :
  extract_text rt upload_path w = (Ok text, w1) ->
  ~ blank text ->
  llm_extract_resume rt text w1 = (Ok v, w2) ->
  utf8_encode (json_dumps v) = Ok bs ->
  parse_any_resume_to_json rt upload_path out_json w
  = (Ok out_json,
     set_file out_json bs
       (log (EvOpen out_json "w" (Some "utf-8"%string)) w2)).
Proof.
  intros Hx Hblank Hllm Hbs. unfold parse_any_resume_to_json.
  rewrite (bind_Ok _ _ _ _ _ Hx), (blank_test_false text Hblank).
  rewrite (bind_Ok _ _ _ _ _ Hllm).
  unfold bind, json_dump_file, open_write_text.
  rewrite codecs_lookup_utf8.
  now rewrite (write_chunks_encoded (iterencode v 0) [] bs Hbs).
Qed.

Lemma json_dumps_encodable (v : json) :
  number_free v = true -> encodable v ->
  exists bs, utf8_encode (json_dumps v) = Ok bs.
Proof.
  intros Hnum Henc. apply utf8_encode_scalar.
  pose proof (value_text_scalar v 0 Hnum Henc) as Hchars.
  rewrite <- json_dumps_text in Hchars.
  eapply Forall_impl; [exact Hchars|]. now intros c [Hc _].
Qed.

(** X12. The driver does not compare what the client returns with the
    schema: whatever value the client returns (a list, a string, a dict
    with other keys), when it holds no number and its strings consist of
    Unicode scalar values, the driver writes its [json.dump] text to the
    output path in UTF-8 and returns the path, and reading the file back
    yields that value. *)
Theorem parse_writes_any_value (rt : Runtime) (upload_path out_json : pystr)
    (w w1 w2 : World) (text : pystr) (v : json) :
  extract_text rt upload_path w = (Ok text, w1) ->
  ~ blank text ->
  llm_extract_resume rt text w1 = (Ok v, w2) ->
  number_free v = true ->
  encodable v ->
  exists bs,
    let w' := set_file out_json bs
                (log (EvOpen out_json "w" (Some "utf-8"%string)) w2) in
    parse_any_resume_to_json rt upload_path out_json w = (Ok out_json, w')
    /\ utf8_decode Strict bs = Ok (json_dumps v)
    /\ fs w' !! out_json = Some bs
    /\ json_load_file rt out_json w'
       = (Ok v, log (EvOpen out_json "r" (Some "utf-8"%string)) w').
Proof.
  intros Hx Hblank Hllm Hnum Henc.
  pose proof (llm_extract_resume_distinct _ _ _ _ _ Hllm) as Hdis.
  pose proof (llm_extract_resume_depth _ _ _ _ _ Hllm) as Hdepth.
  destruct (json_dumps_encodable v Hnum Henc) as (bs & Hbs).
  exists bs. cbv zeta.
  assert (Hfile : fs (set_file out_json bs
                        (log (EvOpen out_json "w" (Some "utf-8"%string)) w2))
                  !! out_json = Some bs).
  { cbn [fs set_file log]. apply lookup_insert_eq. }
  split; [|split; [|split]].
  - exact (parse_any_resume_to_json_writes rt upload_path out_json w w1 w2
             text v bs Hx Hblank Hllm Hbs).
  - now apply utf8_decode_encode.
  - exact Hfile.
  - exact (json_load_file_dumped rt v out_json bs _ Hfile Hbs Hnum Hdis
             Hdepth).
Qed.

Lemma parse_writes_any_value_witness :
  let rt := runtime_answering (Some (str_of "[]")) in
  let w := world_with (str_of "cv.txt") [x41; x64; x61] (Some (str_of "sk-1")) in
  let w2 := log (EvRequest (resume_request (str_of "Ada")))
              (log (EvOpen (str_of "cv.txt") "r" (Some "utf-8"%string)) w) in
  validate resume_schema (JArr []) = false
  /\ exists bs,
       let w' := set_file (str_of "out.json") bs
                   (log (EvOpen (str_of "out.json") "w" (Some "utf-8"%string)) w2) in
       parse_any_resume_to_json rt (str_of "cv.txt") (str_of "out.json") w
       = (Ok (str_of "out.json"), w')
       /\ utf8_decode Strict bs = Ok (json_dumps (JArr []))
       /\ fs w' !! str_of "out.json" = Some bs
       /\ json_load_file rt (str_of "out.json") w'
          = (Ok (JArr []),
             log (EvOpen (str_of "out.json") "r" (Some "utf-8"%string)) w').
Proof.
  cbv zeta. split; [reflexivity|].
  refine (parse_writes_any_value (runtime_answering (Some (str_of "[]")))
            (str_of "cv.txt") (str_of "out.json")
            (world_with (str_of "cv.txt") [x41; x64; x61] (Some (str_of "sk-1")))
            _ _ (str_of "Ada") (JArr []) _ _ _ _ _).
  - vm_compute. reflexivity.
  - intros H. inversion H as [|c s Hc]. discriminate Hc.
  - vm_compute. reflexivity.
  - reflexivity.
  - apply encodable_check. reflexivity.
Defined.

(** ** A document without text *)

Lemma blank_concat (pages : list pystr) :
  Forall blank pages -> blank (concat pages).
Proof.
  unfold blank. induction 1 as [|page pages Hp _ IH]; [constructor|].
  cbn [concat]. apply Forall_app. now split.
Qed.

(** X13. A PDF whose pages hold no text, or white space only, as a scan
    of a paper document does, ends the driver with [ValueError] "No text
    extracted (consider OCR for scanned PDFs).", with PyMuPDF as well as
    with PyPDF2 (where a page without text counts as empty): the remote
    service is not called and no file is written, the world being that of
    the extraction. *)
Theorem parse_scanned_pdf (rt : Runtime) (upload_path out_json : pystr)
    (w : World) :
  py_lower rt (suffix upload_path) = str_of ".pdf" ->
  let no_text :=
    ValueError (str_of "No text extracted (consider OCR for scanned PDFs).") in
  (forall fitz_open pages,
      fitz rt = Some fitz_open ->
      fitz_open upload_path (fs w !! upload_path) = Ok pages ->
      Forall blank pages ->
      parse_any_resume_to_json rt upload_path out_json w = (Raise no_text, w))
  /\ (forall PdfReader data pages,
        match fitz rt with
        | None => True
        | Some fitz_open =>
          exists msg,
            fitz_open upload_path (fs w !! upload_path)
            = Raise (ImportError msg)
        end ->
        PyPDF2 rt = Some PdfReader ->
        fs w !! upload_path = Some data ->
        PdfReader data = Ok pages ->
        Forall (fun page => blank (default [] page)) pages ->
        parse_any_resume_to_json rt upload_path out_json w
        = (Raise no_text, log (EvOpen upload_path "rb" None) w)).
Proof.
  intros Hext no_text. split.
  - intros fitz_open pages Hfitz Hpages Hblank.
    apply (parse_any_resume_to_json_blank rt _ _ w w (concat pages));
      [|now apply blank_concat].
    rewrite (extract_text_pdf rt upload_path Hext), extract_pdf_first.
    now rewrite Hfitz, Hpages.
  - intros PdfReader data pages Hfitz Hpdf Hdata Hpages Hblank.
    apply (parse_any_resume_to_json_blank rt _ _ w _
             (concat (map (default []) pages))).
    + rewrite (extract_text_pdf rt upload_path Hext).
      rewrite (extract_pdf_second rt upload_path w Hfitz).
      unfold extract_pdf_PyPDF2_block, try_except. rewrite Hpdf.
      unfold import, bind, ret, open_read_binary, lift.
      now rewrite Hdata, Hpages.
    + apply blank_concat. now apply Forall_map.
Qed.

Lemma parse_scanned_pdf_witness :
  parse_any_resume_to_json
    (runtime_with_PyPDF2 (Ok [None; Some [10]; None]))
    (str_of "scan.pdf") (str_of "out.json")
    (world_with (str_of "scan.pdf") [x25; x50] (Some (str_of "sk-1")))
  = (Raise (ValueError
       (str_of "No text extracted (consider OCR for scanned PDFs).")),
     log (EvOpen (str_of "scan.pdf") "rb" None)
       (world_with (str_of "scan.pdf") [x25; x50] (Some (str_of "sk-1")))).
Proof.
  refine (proj2 (parse_scanned_pdf
            (runtime_with_PyPDF2 (Ok [None; Some [10]; None]))
            (str_of "scan.pdf") (str_of "out.json")
            (world_with (str_of "scan.pdf") [x25; x50] (Some (str_of "sk-1")))
            eq_refl)
          (fun _ => Ok [None; Some [10]; None]) [x25; x50]
          [None; Some [10]; None] I eq_refl eq_refl eq_refl _).
  repeat constructor.
Defined.

(** ** Paths *)

Lemma split_on_no_sep (sep : N) (s : pystr) :
  Forall (fun part => ~ In sep part) (split_on sep s).
Proof.
  induction s as [|c rest IH]; simpl.
  - constructor; [intros []|constructor].
  - destruct (c =? sep) eqn:Hc.
    + constructor; [intros []|exact IH].
    + apply N.eqb_neq in Hc.
      destruct (split_on sep rest) as [|p ps]; constructor;
        try constructor.
      * intros [H|[]]. congruence.
      * apply Forall_cons_1 in IH as [Hp _]. intros [H|H]; [congruence|tauto].
      * now apply Forall_cons_1 in IH as [_ Hps].
Qed.

Lemma split_on_single (sep : N) (s : pystr) :
  ~ In sep s -> split_on sep s = [s].
Proof.
  induction s as [|c rest IH]; intros Hs; [reflexivity|]. simpl.
  destruct (c =? sep) eqn:Hc.
  - apply N.eqb_eq in Hc. exfalso. apply Hs. now left.
  - rewrite IH; [reflexivity|]. intros H. apply Hs. now right.
Qed.

Lemma split_on_app (sep : N) (h t : pystr) :
  ~ In sep h -> split_on sep (h ++ sep :: t) = h :: split_on sep t.
Proof.
  induction h as [|c h IH]; intros Hh; simpl.
  - now rewrite N.eqb_refl.
  - destruct (c =? sep) eqn:Hc.
    + apply N.eqb_eq in Hc. exfalso. apply Hh. now left.
    + rewrite IH; [reflexivity|]. intros H. apply Hh. now right.
Qed.

Lemma last_Forall {A} (Q : A -> Prop) (l : list A) (d : A) :
  Forall Q l -> Q d -> Q (List.last l d).
Proof.
  induction 1 as [|x l Hx Hl IH]; intros Hd; [exact Hd|].
  destruct l as [|y l']; [exact Hx|]. exact (IH Hd).
Qed.

Lemma path_name_no_sep (p : pystr) : ~ In 47 (path_name p).
Proof.
  unfold path_name. apply last_Forall; [|intros []].
  pose proof (split_on_no_sep 47 p) as H.
  induction H as [|part l Hpart _ IH]; [constructor|].
  rewrite filter_cons. destruct (decide _); [constructor|]; assumption.
Qed.

Lemma stem_no_sep (p : pystr) : ~ In 47 (stem p).
Proof.
  pose proof (path_name_no_sep p) as H. unfold stem.
  destruct (rfind 46 (path_name p)) as [i|]; [|exact H].
  destruct (_ && _); [|exact H].
  intros Hin. apply H. rewrite <- (take_drop i (path_name p)).
  apply in_or_app. now left.
Qed.

Lemma root_relative (s : pystr) : ~ In 47 s -> root (Path s) = [].
Proof.
  intros Hs. unfold Path, splitroot. cbn [root fst].
  destruct s as [|c rest]; [reflexivity|].
  destruct (c =? 47) eqn:Hc; [|reflexivity].
  apply N.eqb_eq in Hc. exfalso. apply Hs. now left.
Qed.

Lemma parts_single (s : pystr) :
  ~ In 47 s -> s <> [] -> s <> str_of "." -> parts (Path s) = [s].
Proof.
  intros Hs Hne Hdot. unfold Path. cbn [parts].
  rewrite (split_on_single 47 s Hs).
  rewrite filter_cons, decide_True by now split. reflexivity.
Qed.

(** Joining [OUTPUT_DIR] with a name that is a single component. *)
Lemma path_str_child (s : pystr) :
  ~ In 47 s -> s <> [] -> s <> str_of "." ->
  path_str (joinpath OUTPUT_DIR s) = str_of "outputs/" ++ s.
Proof.
  intros Hs Hne Hdot. unfold joinpath.
  rewrite (root_relative s Hs), (parts_single s Hs Hne Hdot).
  unfold path_str. cbn. reflexivity.
Qed.

Lemma rfind_app (c : N) (a b : pystr) (i : nat) :
  rfind c b = Some i -> rfind c (a ++ b) = Some (length a + i)%nat.
Proof.
  intros Hb. induction a as [|x a IH]; simpl; [exact Hb|]. now rewrite IH.
Qed.

Lemma parsed_name_facts (st : pystr) :
  let file_name := st ++ str_of "_parsed.json" in
  file_name <> [] /\ file_name <> str_of "."
  /\ rfind 46 file_name = Some (length st + 7)%nat
  /\ length file_name = (length st + 12)%nat.
Proof.
  cbv zeta. split; [|split; [|split]].
  - destruct st; discriminate.
  - intros H. apply (f_equal (@length N)) in H.
    rewrite length_app in H. simpl in H. lia.
  - now apply rfind_app.
  - now rewrite length_app.
Qed.

Lemma parsed_name_no_sep (orig_name : pystr) :
  ~ In 47 (stem orig_name ++ str_of "_parsed.json").
Proof.
  rewrite in_app_iff. intros [H|H].
  - exact (stem_no_sep orig_name H).
  - vm_compute in H. repeat (destruct H as [H|H]; [discriminate H|]).
    exact H.
Qed.

Lemma out_json_path_str (orig_name : pystr) :
  path_str (out_json_path orig_name)
  = str_of "outputs/" ++ stem orig_name ++ str_of "_parsed.json".
Proof.
  destruct (parsed_name_facts (stem orig_name)) as (Hne & Hdot & _).
  exact (path_str_child _ (parsed_name_no_sep orig_name) Hne Hdot).
Qed.

Lemma path_name_child (file_name : pystr) :
  ~ In 47 file_name -> file_name <> [] -> file_name <> str_of "." ->
  path_name (str_of "outputs/" ++ file_name) = file_name.
Proof.
  intros Hsep Hne Hdot. unfold path_name.
  change (str_of "outputs/" ++ file_name)
    with (str_of "outputs" ++ 47 :: file_name).
  rewrite split_on_app by (vm_compute; intros H;
    repeat (destruct H as [H|H]; [discriminate H|]); exact H).
  rewrite (split_on_single 47 file_name Hsep).
  rewrite filter_cons, decide_True by (split; discriminate).
  rewrite filter_cons, decide_True by now split. reflexivity.
Qed.

(** X14. The JSON file of an upload is always a file of the directory
    "outputs": its path is "outputs/" followed by the stem of the original
    name and "_parsed.json", a name without slash, whatever directories the
    original name goes through; its suffix is ".json", and its stem that of
    the original name followed by "_parsed". *)
Theorem out_json_path_in_outputs (orig_name : pystr) :
  let file_name := stem orig_name ++ str_of "_parsed.json" in
  path_str (out_json_path orig_name) = str_of "outputs/" ++ file_name
  /\ Forall (fun c => c <> 47) file_name
  /\ path_name (path_str (out_json_path orig_name)) = file_name
  /\ suffix (path_str (out_json_path orig_name)) = str_of ".json"
  /\ stem (path_str (out_json_path orig_name))
     = stem orig_name ++ str_of "_parsed".
Proof.
  intros file_name.
  destruct (parsed_name_facts (stem orig_name)) as (Hne & Hdot & Hr & Hlen).
  fold file_name in Hne, Hdot, Hr, Hlen.
  pose proof (parsed_name_no_sep orig_name) as Hsep. fold file_name in Hsep.
  pose proof (out_json_path_str orig_name) as Hstr. fold file_name in Hstr.
  assert (Hname : path_name (path_str (out_json_path orig_name)) = file_name).
  { rewrite Hstr. now apply path_name_child. }
  split; [exact Hstr|]. split; [|split; [exact Hname|]].
  - apply List.Forall_forall. intros c Hc ->. exact (Hsep Hc).
  - assert (Htest : (0 <? length (stem orig_name) + 7)%nat
                    && (length (stem orig_name) + 7 <? length file_name - 1)%nat
                    = true).
    { apply andb_true_iff. split; apply Nat.ltb_lt; lia. }
    split.
    + unfold suffix. rewrite Hname, Hr, Htest. unfold file_name.
      now rewrite drop_app_add.
    + unfold stem at 1. rewrite Hname, Hr, Htest. unfold file_name.
      now rewrite take_app_add.
Qed.

Lemma filter_all {A} (P : A -> Prop) `{forall x, Decision (P x)} (l : list A) :
  Forall P l -> filter P l = l.
Proof.
  induction 1 as [|x l Hx _ IH]; [reflexivity|].
  now rewrite filter_cons, decide_True, IH.
Qed.

Lemma parts_normal (s : pystr) :
  Forall (fun c => (c <> [] /\ c <> str_of ".") /\ ~ In 47 c) (parts (Path s)).
Proof.
  unfold Path. cbn [parts].
  pose proof (split_on_no_sep 47 s) as H.
  induction H as [|part l Hpart _ IH]; [constructor|].
  rewrite filter_cons. destruct (decide _) as [Hd|]; [|exact IH].
  constructor; [now split|exact IH].
Qed.

Lemma Path_normal (s : pystr) : normal (Path s).
Proof.
  split; [|apply parts_normal].
  unfold Path, splitroot. cbn [root].
  destruct s as [|c rest]; [now left|].
  destruct (c =? 47); [|now left].
  destruct (_ =? 2)%nat; cbn [fst]; auto.
Qed.

Lemma joinpath_normal (p : PurePosixPath) (key : pystr) :
  normal p -> normal (joinpath p key).
Proof.
  intros [Hroot Hparts]. unfold joinpath.
  destruct (root (Path key)) as [|c r] eqn:Hk; [|apply Path_normal].
  split; [exact Hroot|]. cbn [parts].
  apply Forall_app. split; [exact Hparts|apply parts_normal].
Qed.

Lemma split_on_join (l : list pystr) :
  l <> [] -> Forall (fun c => ~ In 47 c) l -> split_on 47 (join [47] l) = l.
Proof.
  intros Hne Hl. induction Hl as [|p l Hp Hl IH]; [contradiction|].
  destruct l as [|q l'].
  - cbn [join]. now apply split_on_single.
  - rewrite join_cons. change ([47] ++ join [47] (q :: l'))
      with (47 :: join [47] (q :: l')).
    rewrite (split_on_app 47 p _ Hp). now rewrite IH.
Qed.

(** The name of a path is the last of its components. *)
Lemma path_name_str (p : PurePosixPath) :
  normal p -> path_name (path_str p) = List.last (parts p) [].
Proof.
  intros [Hroot Hparts]. unfold path_str.
  destruct (parts p) as [|c l] eqn:Hp.
  - destruct Hroot as [-> | [-> | ->]]; reflexivity.
  - assert (Hsplit : split_on 47 (join [47] (c :: l)) = c :: l).
    { apply split_on_join; [discriminate|].
      eapply Forall_impl; [exact Hparts|]. now intros x [_ Hx]. }
    assert (Hkeep : Forall (fun c : pystr => c <> [] /\ c <> str_of ".")
                      (c :: l)).
    { eapply Forall_impl; [exact Hparts|]. now intros y [Hy _]. }
    assert (Hcons : exists x t, join [47] (c :: l) = x :: t).
    { apply Forall_cons_1 in Hparts as [[[Hc _] _] _].
      destruct c as [|x c']; [contradiction|].
      destruct l; [now exists x, c'|]. rewrite join_cons. now eexists _, _. }
    destruct Hcons as (x & t & Hj).
    destruct Hroot as [-> | [-> | ->]]; cbn [app]; rewrite Hj;
      unfold path_name; rewrite <- Hj; cbn [split_on];
      rewrite ?N.eqb_refl; rewrite Hsplit.
    + now rewrite (filter_all _ _ Hkeep).
    + rewrite filter_cons, decide_False by now intros [? _].
      now rewrite (filter_all _ _ Hkeep).
    + rewrite filter_cons, decide_False by now intros [? _].
      rewrite filter_cons, decide_False by now intros [? _].
      now rewrite (filter_all _ _ Hkeep).
Qed.

Lemma path_name_Path (s : pystr) : path_name (path_str (Path s)) = path_name s.
Proof. now rewrite (path_name_str (Path s) (Path_normal s)). Qed.

Lemma suffix_by_name (s t : pystr) :
  path_name s = path_name t -> suffix s = suffix t.
Proof. intros H. unfold suffix. now rewrite H. Qed.

Lemma stem_by_name (s t : pystr) :
  path_name s = path_name t -> stem s = stem t.
Proof. intros H. unfold stem. now rewrite H. Qed.

(** The name of a name. *)
Lemma path_name_idem (s : pystr) : path_name (path_name s) = path_name s.
Proof.
  pose proof (parts_normal s) as Hparts.
  change (path_name s) with (List.last (parts (Path s)) []).
  destruct (parts (Path s)) as [|c l _] using rev_ind; [reflexivity|].
  rewrite last_last.
  apply Forall_app in Hparts as [_ Hc].
  apply Forall_cons_1 in Hc as [[[Hne Hdot] Hsep] _].
  unfold path_name. rewrite (split_on_single 47 c Hsep).
  now rewrite filter_cons, decide_True by now split.
Qed.



Lemma path_name_joinpath (orig_name : pystr) :
  path_name (path_str (joinpath OUTPUT_DIR orig_name))
  = match parts (Path orig_name), root (Path orig_name) with
    | [], [] => str_of "outputs"
    | _, _ => path_name orig_name
    end.
Proof.
  rewrite (path_name_str _ (joinpath_normal OUTPUT_DIR orig_name
                              (Path_normal (str_of "outputs")))).
  change (path_name orig_name) with (List.last (parts (Path orig_name)) []).
  unfold joinpath.
  destruct (root (Path orig_name)) as [|c r];
    [|now destruct (parts (Path orig_name))].
  cbn [parts].
  destruct (parts (Path orig_name)) as [|c l _] using rev_ind;
    [reflexivity|].
  rewrite app_assoc, !last_last. now destruct (l ++ [c]) eqn:E; [destruct l|].
Qed.

(** X15. The path that [parse_upload] gives to the pipeline is read again
    by [extract_text], which sees the extension of the name the path was
    made from: that of the original name after a copy, that of the
    temporary file otherwise; without [.orig_name] the two are the same.
    Directories and redundant slashes play no part. *)
Theorem upload_suffix (f : File) :
  suffix (path_str (Path (name f))) = suffix (name f)
  /\ suffix (path_str (joinpath OUTPUT_DIR (getattr_orig_name f)))
     = suffix (getattr_orig_name f)
  /\ (orig_name f = None -> suffix (getattr_orig_name f) = suffix (name f)).
Proof.
  split; [apply suffix_by_name, path_name_Path|]. split.
  - unfold suffix at 1. rewrite path_name_joinpath.
    unfold suffix, path_name.
    change (filter _ (split_on 47 (getattr_orig_name f)))
      with (parts (Path (getattr_orig_name f))).
    destruct (parts (Path (getattr_orig_name f))) as [|c l]; [|reflexivity].
    now destruct (root (Path (getattr_orig_name f))).
  - intros Hnone. unfold getattr_orig_name. rewrite Hnone. cbn [default].
    apply suffix_by_name, path_name_idem.
Qed.

Lemma upload_suffix_witness :
  suffix (path_str (joinpath OUTPUT_DIR
            (getattr_orig_name (sample_upload "/tmp//gradio/./Resume.PDF"))))
  = suffix (str_of "/tmp//gradio/./Resume.PDF")
  /\ suffix (str_of "/tmp//gradio/./Resume.PDF") = str_of ".PDF".
Proof.
  split; [|reflexivity].
  destruct (upload_suffix (sample_upload "/tmp//gradio/./Resume.PDF"))
    as (_ & Hstable & Hname).
  rewrite Hstable. exact (Hname eq_refl).
Defined.


(** ** The upload adapter *)

Lemma stable_copy_cases (host : Host) (temp_path stable_path : PurePosixPath)
    (w : World) :
  (exists data,
      fs w !! path_str temp_path = Some data
      /\ path_str temp_path <> path_str stable_path
      /\ write_error host (path_str stable_path) = None
      /\ stable_copy host temp_path stable_path w
         = (Ok stable_path, set_file (path_str stable_path) data w))
  \/ stable_copy host temp_path stable_path w = (Ok temp_path, w).
Proof.
  unfold stable_copy, try_except, bind, shutil_copyfile, ret, is_Exception.
  destruct (fs w !! path_str temp_path) as [data|]; [|now right].
  case_bool_decide as Hsame; [now right|].
  destruct (write_error host (path_str stable_path)) as [e|] eqn:He;
    [now right|].
  left. exists data. repeat split; assumption.
Qed.

(** X16. The first [try] statement of [parse_upload] never raises, and the
    path that it gives to the pipeline holds the uploaded bytes, whether
    the copy was made or not: the stable path after a copy, the temporary
    path when the copy failed (no temporary file, the same file, or the
    operating system refusing the destination). No file but the one at the
    stable path can have changed, the environment and the trace being as
    before. *)
Theorem stable_copy_same_bytes (host : Host)
    (temp_path stable_path : PurePosixPath) (w : World) :
  exists p w1,
    stable_copy host temp_path stable_path w = (Ok p, w1)
    /\ (p = stable_path \/ (p = temp_path /\ w1 = w))
    /\ fs w1 !! path_str p = fs w !! path_str temp_path
    /\ delete (path_str stable_path) (fs w1)
       = delete (path_str stable_path) (fs w)
    /\ fs w1 !! path_str temp_path = fs w !! path_str temp_path
    /\ environ w1 = environ w
    /\ trace w1 = trace w.
Proof.
  destruct (stable_copy_cases host temp_path stable_path w)
    as [(data & Hdata & Hne & _ & Hcopy) | Hcopy].
  - exists stable_path, (set_file (path_str stable_path) data w).
    split; [exact Hcopy|]. split; [now left|]. cbn [fs set_file].
    split; [now rewrite lookup_insert_eq|].
    split; [now rewrite delete_insert_eq|].
    split; [now rewrite lookup_insert_ne by congruence|].
    now split.
  - exists temp_path, w. split; [exact Hcopy|]. split; [now right|].
    repeat split.
Qed.

Lemma stable_copy_frame (host : Host) (temp_path stable_path : PurePosixPath)
    (w : World) :
  exists p w1,
    stable_copy host temp_path stable_path w = (Ok p, w1)
    /\ delete (path_str stable_path) (fs w1)
       = delete (path_str stable_path) (fs w)
    /\ fs w1 !! path_str temp_path = fs w !! path_str temp_path
    /\ environ w1 = environ w
    /\ trace w1 = trace w.
Proof.
  destruct (stable_copy_cases host temp_path stable_path w)
    as [(data & Hdata & Hne & _ & Hcopy) | Hcopy].
  - exists stable_path, (set_file (path_str stable_path) data w).
    split; [exact Hcopy|]. cbn [fs set_file].
    split; [now rewrite delete_insert_eq|].
    split; [now rewrite lookup_insert_ne by congruence|].
    now split.
  - exists temp_path, w. now repeat split.
Qed.

Lemma parse_any_resume_to_json_returns (rt : Runtime)
    (upload_path out_json saved_path : pystr) (w w' : World) :
  parse_any_resume_to_json rt upload_path out_json w = (Ok saved_path, w') ->
  saved_path = out_json.
Proof.
  unfold parse_any_resume_to_json, bind.
  destruct (extract_text rt upload_path w) as [[text|e] w1]; [|discriminate].
  destruct (negb (truthy text) || negb (truthy (strip text)));
    [discriminate|].
  destruct (llm_extract_resume rt text w1) as [[record|e] w2]; [|discriminate].
  destruct (json_dump_file record out_json w2) as [[[]|e] w3]; [|discriminate].
  unfold ret. now intros [= <- _].
Qed.

(** [parse_upload] on a file, from what its steps do. *)
Lemma parse_upload_steps (host : Host) (rt : Runtime) (f : File) (w : World)
    (p : PurePosixPath) (w0 : World) :
  stable_copy host (Path (name f))
    (joinpath OUTPUT_DIR (getattr_orig_name f)) w = (Ok p, w0) ->
  let out_json := path_str (out_json_path (getattr_orig_name f)) in
  parse_upload host rt (Some f) w
  = match parse_any_resume_to_json rt (path_str p) out_json w0 with
    | (Ok _, w2) =>
      match json_load_file rt out_json w2 with
      | (Ok data, w3) => (Ok (success_status, data, Some out_json), w3)
      | (Raise e, w3) => (Ok (error_status host e, JObj [], None), w3)
      end
    | (Raise e, w2) => (Ok (error_status host e, JObj [], None), w2)
    end.
Proof.
  intros Hcopy out_json. unfold parse_upload.
  rewrite (bind_Ok _ _ _ _ _ Hcopy). fold out_json.
  unfold try_except_as, is_Exception.
  destruct (parse_any_resume_to_json rt (path_str p) out_json w0)
    as [[saved_path|e] w2] eqn:Hparse.
  - pose proof (parse_any_resume_to_json_returns _ _ _ _ _ _ Hparse) as ->.
    rewrite (bind_Ok _ _ _ _ _ Hparse). unfold bind, ret.
    destruct (json_load_file rt out_json w2) as [[data|e] w3]; reflexivity.
  - now rewrite (bind_Raise _ _ _ _ _ Hparse).
Qed.

Lemma json_load_file_world (rt : Runtime) (path : pystr) (w : World) :
  snd (json_load_file rt path w)
  = log (EvOpen path "r" (Some "utf-8"%string)) w.
Proof.
  unfold json_load_file, bind, open_read_text, lift.
  destruct (fs w !! path) as [bs|]; [|reflexivity].
  rewrite codecs_lookup_utf8.
  destruct (rmap translate_newlines (decode utf8_codec bs)); reflexivity.
Qed.

Lemma json_load_file_Ok (rt : Runtime) (path : pystr) (w w' : World)
    (data : json) :
  json_load_file rt path w = (Ok data, w') ->
  exists bs,
    fs w !! path = Some bs
    /\ rbind (rmap translate_newlines (utf8_decode Strict bs)) (json_loads rt)
       = Ok data.
Proof.
  unfold json_load_file, bind, open_read_text, lift.
  destruct (fs w !! path) as [bs|]; [|discriminate].
  rewrite codecs_lookup_utf8. cbn [decode utf8_codec].
  destruct (rmap translate_newlines (utf8_decode Strict bs)) as [s|e] eqn:Hs;
    [|discriminate].
  intros [= H _]. exists bs. split; [reflexivity|]. now rewrite Hs.
Qed.

(** The two shapes of what [parse_upload] returns for a file. *)
Lemma parse_upload_result (host : Host) (rt : Runtime) (f : File) (w : World) :
  let out_json : pystr := str_of "outputs/" ++ stem (getattr_orig_name f)
                           ++ str_of "_parsed.json" in
  (exists data bs,
      fst (parse_upload host rt (Some f) w)
      = Ok (success_status, data, Some out_json)
      /\ fs (snd (parse_upload host rt (Some f) w)) !! out_json = Some bs
      /\ rbind (rmap translate_newlines (utf8_decode Strict bs))
           (json_loads rt)
         = Ok data)
  \/ (exists e,
        fst (parse_upload host rt (Some f) w)
        = Ok (error_status host e, JObj [], None)).
Proof.
  intros out_json.
  destruct (stable_copy_frame host (Path (name f))
              (joinpath OUTPUT_DIR (getattr_orig_name f)) w)
    as (p & w0 & Hcopy & _).
  rewrite (parse_upload_steps host rt f w p w0 Hcopy). cbv zeta.
  rewrite (out_json_path_str (getattr_orig_name f)). fold out_json.
  destruct (parse_any_resume_to_json rt (path_str p) out_json w0)
    as [[saved_path|e] w2]; [|right; now exists e].
  pose proof (json_load_file_world rt out_json w2) as Hworld.
  destruct (json_load_file rt out_json w2) as [[data|e] w3] eqn:Hload;
    [|right; now exists e].
  destruct (json_load_file_Ok _ _ _ _ _ Hload) as (bs & Hfile & Hdata).
  left. exists data, bs. cbn [fst snd] in *. subst w3. cbn [fs log].
  now repeat split.
Qed.

(** X17. [parse_upload] never raises. Without a file it answers "No file
    uploaded." and touches nothing. With a file it answers either the
    success status together with the value read back from the JSON file
    and the path of that file, which is the one in "outputs" named after
    the stem of the original name, or an error status, made of the text of
    the exception that was caught, together with the empty dict and no
    path. *)
Theorem parse_upload_returns (host : Host) (rt : Runtime)
    (file_obj : option File) (w : World) :
  exists status data path,
    fst (parse_upload host rt file_obj w) = Ok (status, data, path)
    /\ match file_obj with
       | None =>
         status = str_of "No file uploaded." /\ data = JObj [] /\ path = None
         /\ snd (parse_upload host rt file_obj w) = w
       | Some f =>
         (status = 0x2705 :: str_of " Parsed successfully."
          /\ path = Some (str_of "outputs/" ++ stem (getattr_orig_name f)
                          ++ str_of "_parsed.json")
          /\ exists bs,
               fs (snd (parse_upload host rt file_obj w))
               !! (str_of "outputs/" ++ stem (getattr_orig_name f)
                   ++ str_of "_parsed.json") = Some bs
               /\ rbind (rmap translate_newlines (utf8_decode Strict bs))
                    (json_loads rt) = Ok data)
         \/ ((exists e,
                status = 0x274C :: str_of " Error: " ++ exception_str host e)
             /\ data = JObj [] /\ path = None)
       end.
Proof.
  destruct file_obj as [f|].
  2:{ exists (str_of "No file uploaded."), (JObj []), None. now repeat split. }
  destruct (parse_upload_result host rt f w)
    as [(data & bs & Hr & Hfile & Hdata) | (e & Hr)].
  - eexists _, data, _. split; [exact Hr|]. left.
    split; [reflexivity|]. split; [reflexivity|]. now exists bs.
  - eexists _, _, _. split; [exact Hr|]. right.
    split; [now exists e|now split].
Qed.

(** X18. When the pipeline succeeds on the path that it is given, with a
    value without numbers whose strings consist of Unicode scalar values,
    [parse_upload] answers the success status, that value, read back from
    the file, and the path "outputs/<stem>_parsed.json", where the file
    holds the UTF-8 encoding of the [json.dump] text of the value. *)
Theorem parse_upload_success (host : Host) (rt : Runtime) (f : File)
    (w w0 w1 w2 : World) (p : PurePosixPath) (text : pystr) (v : json) :
  stable_copy host (Path (name f))
    (joinpath OUTPUT_DIR (getattr_orig_name f)) w = (Ok p, w0) ->
  extract_text rt (path_str p) w0 = (Ok text, w1) ->
  ~ blank text ->
  llm_extract_resume rt text w1 = (Ok v, w2) ->
  number_free v = true ->
  encodable v ->
  let out_json : pystr := str_of "outputs/" ++ stem (getattr_orig_name f)
                           ++ str_of "_parsed.json" in
  exists bs,
    utf8_encode (json_dumps v) = Ok bs
    /\ parse_upload host rt (Some f) w
       = (Ok (0x2705 :: str_of " Parsed successfully.", v, Some out_json),
          log (EvOpen out_json "r" (Some "utf-8"%string))
            (set_file out_json bs
               (log (EvOpen out_json "w" (Some "utf-8"%string)) w2))).
Proof.
  intros Hcopy Hx Hblank Hllm Hnum Henc out_json.
  pose proof (llm_extract_resume_distinct _ _ _ _ _ Hllm) as Hdis.
  pose proof (llm_extract_resume_depth _ _ _ _ _ Hllm) as Hdepth.
  destruct (json_dumps_encodable v Hnum Henc) as (bs & Hbs).
  exists bs. split; [exact Hbs|].
  rewrite (parse_upload_steps host rt f w p w0 Hcopy). cbv zeta.
  rewrite (out_json_path_str (getattr_orig_name f)). fold out_json.
  rewrite (parse_any_resume_to_json_writes rt (path_str p) out_json w0 w1 w2
             text v bs Hx Hblank Hllm Hbs).
  set (w3 := set_file out_json bs
               (log (EvOpen out_json "w" (Some "utf-8"%string)) w2)).
  assert (Hfile : fs w3 !! out_json = Some bs)
    by (cbn [w3 fs set_file log]; apply lookup_insert_eq).
  now rewrite (json_load_file_dumped rt v out_json bs w3 Hfile Hbs Hnum Hdis
                 Hdepth).
Qed.

Lemma parse_upload_success_witness :
  fst (parse_upload plain_host
         (runtime_answering (Some (answer_named (QUOTE :: sample_name ++ [QUOTE]))))
         (Some (sample_upload "/tmp/gradio/cv.txt"))
         (world_with (str_of "/tmp/gradio/cv.txt") [x41; x64; x61]
            (Some (str_of "sk-1"))))
  = Ok (0x2705 :: str_of " Parsed successfully.", record_named sample_name,
        Some (str_of "outputs/cv_parsed.json")).
Proof.
  destruct (parse_upload_success plain_host
              (runtime_answering (Some (answer_named (QUOTE :: sample_name ++ [QUOTE]))))
              (sample_upload "/tmp/gradio/cv.txt")
              (world_with (str_of "/tmp/gradio/cv.txt") [x41; x64; x61]
                 (Some (str_of "sk-1")))
              _ _ _ (Path (str_of "outputs/cv.txt")) (str_of "Ada")
              (record_named sample_name)
              ltac:(vm_compute; reflexivity) ltac:(vm_compute; reflexivity)
              ltac:(intros H; inversion H as [|c s Hc]; discriminate Hc)
              ltac:(vm_compute; reflexivity) ltac:(vm_compute; reflexivity)
              ltac:(apply encodable_check; vm_compute; reflexivity))
    as (bs & _ & Hrun).
  rewrite Hrun. reflexivity.
Defined.

(** X19. When the pipeline raises, [parse_upload] returns, in the world
    that the pipeline left, the status that opens with U+274C and " Error: "
    and ends with the text of the exception, together with the empty dict
    and no path. For the errors of the pipeline itself the status reads:
    "Unsupported file type: <ext> (supported: .pdf, .docx, .doc, .txt)" for
    another extension, "No text extracted (consider OCR for scanned PDFs)."
    for a blank text, "OPENAI_API_KEY not set in environment." without the
    credential. *)
Theorem parse_upload_reports_error (host : Host) (rt : Runtime) (f : File)
    (w w0 : World) (p : PurePosixPath) :
  stable_copy host (Path (name f))
    (joinpath OUTPUT_DIR (getattr_orig_name f)) w = (Ok p, w0) ->
  let out_json := path_str (out_json_path (getattr_orig_name f)) in
  let failed := fun msg : pystr =>
    (0x274C :: str_of " Error: " ++ msg, JObj [], @None pystr) in
  (forall e w2,
      parse_any_resume_to_json rt (path_str p) out_json w0 = (Raise e, w2) ->
      parse_upload host rt (Some f) w = (Ok (failed (exception_str host e)), w2))
  /\ (py_lower rt (suffix (path_str p)) ∉ supported_extensions ->
      parse_upload host rt (Some f) w
      = (Ok (failed (str_of "Unsupported file type: "
                     ++ py_lower rt (suffix (path_str p))
                     ++ str_of " (supported: .pdf, .docx, .doc, .txt)")), w0))
  /\ (forall text w1,
        extract_text rt (path_str p) w0 = (Ok text, w1) ->
        blank text ->
        parse_upload host rt (Some f) w
        = (Ok (failed (str_of
             "No text extracted (consider OCR for scanned PDFs).")), w1))
  /\ (forall text w1,
        extract_text rt (path_str p) w0 = (Ok text, w1) ->
        ~ blank text ->
        OpenAI rt <> None ->
        credential_absent w1 ->
        parse_upload host rt (Some f) w
        = (Ok (failed (str_of "OPENAI_API_KEY not set in environment.")), w1)).
Proof.
  intros Hcopy out_json failed.
  assert (Hraise : forall e w2,
             parse_any_resume_to_json rt (path_str p) out_json w0
             = (Raise e, w2) ->
             parse_upload host rt (Some f) w
             = (Ok (failed (exception_str host e)), w2)).
  { intros e w2 Hparse.
    rewrite (parse_upload_steps host rt f w p w0 Hcopy). cbv zeta.
    fold out_json. now rewrite Hparse. }
  split; [exact Hraise|]. split; [|split].
  - intros Hext.
    apply (Hraise (ValueError (unsupported_message _))).
    apply parse_any_resume_to_json_extract_raises.
    now apply extract_text_other.
  - intros text w1 Hx Hb.
    apply (Hraise (ValueError no_text_message)).
    now apply (parse_any_resume_to_json_blank rt _ _ w0 w1 text).
  - intros text w1 Hx Hb Hpkg Habs.
    apply (Hraise (RuntimeError _)).
    apply (parse_any_resume_to_json_client_raises rt _ _ w0 w1 w1 text);
      try assumption.
    now apply llm_extract_resume_no_credential.
Qed.

Lemma parse_upload_reports_error_witness :
  fst (parse_upload plain_host bare_runtime
         (Some (sample_upload "/tmp/gradio/cv.rtf"))
         (world_with (str_of "/tmp/gradio/cv.rtf") [x7b] None))
  = Ok (0x274C :: str_of " Error: Unsupported file type: .rtf (supported: .pdf, .docx, .doc, .txt)",
        JObj [], None).
Proof.
  pose proof (proj1 (proj2 (parse_upload_reports_error plain_host bare_runtime
                (sample_upload "/tmp/gradio/cv.rtf")
                (world_with (str_of "/tmp/gradio/cv.rtf") [x7b] None)
                _ (Path (str_of "outputs/cv.rtf"))
                ltac:(vm_compute; reflexivity)))) as H.
  cbv zeta in H. rewrite H; [reflexivity|].
  vm_compute. intros Hin.
  repeat (apply elem_of_cons in Hin; destruct Hin as [Hin|Hin];
          [discriminate Hin|]).
  inversion Hin.
Defined.



Lemma status_distinct (host : Host) (e : exn) :
  error_status host e <> success_status /\ no_file_status <> success_status.
Proof. split; discriminate. Qed.

(** X21. [run_parse] never raises and passes on the status and the data of
    [parse_upload]. It shows the download button exactly when the status is
    the success status; the button then holds the path of the JSON file
    and is labelled "Download " followed by the name of that file.
    Otherwise the button is hidden, holds no file, and the data is the
    empty dict. *)
Theorem run_parse_download (host : Host) (rt : Runtime)
    (file_obj : option File) (w : World) :
  exists status data button,
    run_parse host rt file_obj w
    = (Ok (status, data, button), snd (parse_upload host rt file_obj w))
    /\ fst (parse_upload host rt file_obj w)
       = Ok (status, data, value button)
    /\ (visible button = true <-> status = 0x2705 :: str_of " Parsed successfully.")
    /\ (visible button = true ->
        exists f,
          file_obj = Some f
          /\ value button
             = Some (str_of "outputs/" ++ stem (getattr_orig_name f)
                     ++ str_of "_parsed.json")
          /\ label button
             = Some (str_of "Download " ++ stem (getattr_orig_name f)
                     ++ str_of "_parsed.json"))
    /\ (visible button = false ->
        value button = None /\ label button = None /\ data = JObj []).
Proof.
  unfold run_parse, bind.
  destruct file_obj as [f|].
  2:{ cbn. eexists _, _, _. split; [reflexivity|]. cbn.
      repeat split; try discriminate. }
  destruct (parse_upload_result host rt f w)
    as [(data & bs & Hr & _) | (e & Hr)];
    destruct (parse_upload host rt (Some f) w) as [r w'];
    cbn [fst snd] in *; subst r.
  - destruct (parsed_name_facts (stem (getattr_orig_name f)))
      as (Hne & Hdot & _).
    rewrite (path_name_child _ (parsed_name_no_sep (getattr_orig_name f))
               Hne Hdot).
    cbn [truthy app str_of map list_ascii_of_string]. unfold ret.
    eexists _, _, _. split; [reflexivity|]. cbn [value visible label].
    split; [reflexivity|]. split; [now split|].
    split; [|discriminate]. intros _. now exists f.
  - unfold ret. eexists _, _, _. split; [reflexivity|].
    cbn [value visible label]. split; [reflexivity|].
    split; [split; [discriminate|]|].
    + intros H. now destruct (proj1 (status_distinct host e)).
    + split; [discriminate|]. now intros _.
Qed.

Example exception_str_json :
  exception_str plain_host
    (JSONDecodeError expecting_value
       (str_of "{" ++ NL ++ str_of "  " ++ quoted "name" ++ str_of ": ,") 12)
  = str_of "Expecting value: line 2 column 11 (char 12)".
Proof. reflexivity. Qed.

Example parse_upload_malformed :
  fst (parse_upload plain_host
         (runtime_answering (Some (str_of "Sorry, I cannot.")))
         (Some (sample_upload "/tmp/gradio/cv.txt"))
         (world_with (str_of "/tmp/gradio/cv.txt") [x41; x64; x61]
            (Some (str_of "sk-1"))))
  = Ok (0x274C :: str_of " Error: Expecting value: line 1 column 1 (char 0)",
        JObj [], None).
Proof. vm_compute. reflexivity. Qed.
